(** * Column kernels, remap adapter, IOP forcing and session glue of the
      atmosphere model: a shallow embedding and its verified properties.

    The C++ sources compute on [Real] (IEEE doubles) grouped in SIMD packs.
    The kernels are embedded over an abstract scalar type carrying the
    operations the code uses; every algebraic law a proof relies on is an
    explicit hypothesis, so each statement says which laws of the
    arithmetic it needs.  The canonical rationals [Qc] are the executable
    instance on which concrete columns are evaluated; the reals [R] serve
    where the code calls [pow], and the binary64 floats of the kernel
    where a value depends on the rounding of the doubles. *)

From Stdlib Require Import List Arith ZArith QArith Qabs Qminmax Qcanon Lia Bool String.
From Stdlib Require Import Reals Lra Lqa.
From Stdlib Require Uint63 Floats.
Import ListNotations.

Close Scope R_scope.
Close Scope Qc_scope.
Close Scope Q_scope.
Open Scope nat_scope.

(** ** Scalars *)

(** The operations of [Real] that the kernels use.  [rlit q] is the value
    of a numeric literal, [req] is [operator==]. *)
Class Arith (T : Type) : Type := {
  rlit : Q -> T;
  radd : T -> T -> T;
  rsub : T -> T -> T;
  rmul : T -> T -> T;
  rdiv : T -> T -> T;
  ropp : T -> T;
  req  : T -> T -> bool
}.

Declare Scope arith_scope.
Delimit Scope arith_scope with A.
Infix "+" := radd : arith_scope.
Infix "-" := rsub : arith_scope.
Infix "*" := rmul : arith_scope.
Infix "/" := rdiv : arith_scope.
Notation "- x" := (ropp x) : arith_scope.

(** IEEE binary64 arithmetic, rounding to nearest even: the [Real] of the
    C++ code itself.  A literal is the double nearest to the decimal
    written in the source, which the correctly rounded quotient of its
    numerator and denominator is when both are below [2^53]; [req] is the
    comparison of IEEE, false on NaN. *)
Definition float_of_Z (z : Z) : PrimFloat.float :=
  match z with
  | Z0 => PrimFloat.of_uint63 (Uint63.of_Z 0)
  | Zpos _ => PrimFloat.of_uint63 (Uint63.of_Z z)
  | Zneg p => PrimFloat.opp (PrimFloat.of_uint63 (Uint63.of_Z (Zpos p)))
  end.

#[export] Instance Float_Arith : Arith PrimFloat.float := {
  rlit := fun q => PrimFloat.div (float_of_Z (Qnum q)) (float_of_Z (Zpos (Qden q)));
  radd := PrimFloat.add;
  rsub := PrimFloat.sub;
  rmul := PrimFloat.mul;
  rdiv := PrimFloat.div;
  ropp := PrimFloat.opp;
  req  := PrimFloat.eqb
}.

(** Exact rational arithmetic, on canonical fractions.  The columns on
    which the kernels are evaluated below hold small integers and their
    halves, so the doubles of the C++ code compute the same numbers. *)
#[export] Instance Qc_Arith : Arith Qc := {
  rlit := Q2Qc;
  radd := Qcplus;
  rsub := Qcminus;
  rmul := Qcmult;
  rdiv := Qcdiv;
  ropp := Qcopp;
  req  := Qc_eq_bool
}.

(** Real arithmetic, for the kernels that call [pow]. *)
#[export] Instance R_Arith : Arith R := {
  rlit := Q2R;
  radd := Rplus;
  rsub := Rminus;
  rmul := Rmult;
  rdiv := Rdiv;
  ropp := Ropp;
  req  := fun x y => if Req_dec_T x y then true else false
}.

(** ** Control flow *)

(** [for (i = lo; i < lo + n; ++i) body(i)], threading the state.  A
    [Kokkos::parallel_for] over a range is embedded as the loop over that
    range: in every kernel below the iterations write disjoint entries and
    read none that another iteration writes. *)
Fixpoint for_loop {St : Type} (lo n : nat) (body : nat -> St -> St) (s : St) : St :=
  match n with
  | O => s
  | S n' => for_loop (S lo) n' body (body lo s)
  end.

(** [for (i = n - 1; i >= 0; --i) body(i)]. *)
Fixpoint for_down {St : Type} (n : nat) (body : nat -> St -> St) (s : St) : St :=
  match n with
  | O => s
  | S n' => for_down n' body (body n' s)
  end.

(** A call either returns or ends the run through [runtime_abort]. *)
Inductive Outcome (A : Type) : Type :=
| Done (a : A)
| Fatal (message : string).
Arguments Done {A} a.
Arguments Fatal {A} message.

Definition bind {A B : Type} (m : Outcome A) (k : A -> Outcome B) : Outcome B :=
  match m with
  | Done a => k a
  | Fatal msg => Fatal msg
  end.

(** [runtime_check(cond, message, code)] of scream_assert.cpp: nothing when
    [cond] holds, otherwise [runtime_abort], which prints the message and
    terminates the process.  ColumnOps calls the [Errors::runtime_check] of
    HOMME, whose header is not among the sources; it is taken to do the
    same. *)
Definition runtime_check (cond : bool) (message : string) : Outcome unit :=
  if cond then Done tt else Fatal message.

(** ** Packs and views *)

Section Packs.
Context {T : Type} {AT : Arith T}.

(** A pack is indexed by lane, a view by pack; only the lanes below the
    vector size and the packs below the extent exist in the program.  An
    input provider ([operator()(int) -> Scalar], a view or a lambda) is a
    view that is only read. *)
Definition Pack : Type := nat -> T.
Definition View : Type := nat -> Pack.

Definition set_lane (p : Pack) (j : nat) (v : T) : Pack :=
    fun i => if Nat.eqb i j then v else p i.

Definition set_pack (x : View) (ilev : nat) (p : Pack) : View :=
    fun i => if Nat.eqb i ilev then p else x i.

Definition set_entry (x : View) (ilev j : nat) (v : T) : View :=
    set_pack x ilev (set_lane (x ilev) j v).

Definition pack_map (f : T -> T) (p : Pack) : Pack := fun i => f (p i).
Definition pack_map2 (f : T -> T -> T) (p q : Pack) : Pack :=
    fun i => f (p i) (q i).

(** Modelled from the spec: the SIMD vector class is not part of the
      sources; the kernels say of it that [shift_right] inserts leading
      zeros, and they overwrite the lane that [shift_left] vacates. *)
Definition shift_right1 (p : Pack) : Pack :=
    fun i => match i with O => rlit 0 | S i' => p i' end.

Definition shift_left1 (vector_end : nat) (p : Pack) : Pack :=
    fun i => if Nat.eqb i vector_end then rlit 0 else p (S i).
End Packs.

(** ** HommexxEnums *)

Inductive CombineMode : Type :=
| Replace | Scale | Update | ScaleUpdate | ScaleAdd | Add | ProdUpdate.

Inductive BCType : Type := Zero | Value | DoNothing.

Definition cm2str (cm : CombineMode) : string :=
  match cm with
  | Replace => "Replace" | Scale => "Scale" | Update => "Update"
  | ScaleUpdate => "ScaleUpdate" | ScaleAdd => "ScaleAdd" | Add => "Add"
  | ProdUpdate => "ProdUpdate"
  end.

(** ** ColumnOps.hpp *)

Module ColumnOps.
Section Kernels.
Context {T : Type} {AT : Arith T}.

(** Build configuration: the pack width, the number of levels, whether
      the execution space is a GPU, and whether [NDEBUG] is defined. *)
Variable VECTOR_SIZE : nat.
Variable NUM_PHYSICAL_LEV : nat.
Variable OnGpu : bool.
Variable NDEBUG : bool.

Definition NUM_INTERFACE_LEV : nat := NUM_PHYSICAL_LEV + 1.
Definition VECTOR_END : nat := VECTOR_SIZE - 1.

(** Modelled from the spec: [ColInfo<LENGTH>] is declared in Types.hpp,
      which is not among the sources.  A column of [LENGTH] levels is
      stored in packs of [VECTOR_SIZE] lanes, level [k] in pack
      [k / VECTOR_SIZE] at lane [k mod VECTOR_SIZE]; [LastPack] is the
      index of the last pack and [LastPackEnd] the lane of the last level
      in it ([LastVecEnd] in EquationOfState.hpp names the same lane). *)
Definition NumPacks (LENGTH : nat) : nat := (LENGTH + VECTOR_SIZE - 1) / VECTOR_SIZE.
Definition LastPack (LENGTH : nat) : nat := NumPacks LENGTH - 1.
Definition LastPackLen (LENGTH : nat) : nat := LENGTH - LastPack LENGTH * VECTOR_SIZE.
Definition LastPackEnd (LENGTH : nat) : nat := LastPackLen LENGTH - 1.

Definition NUM_LEV : nat := NumPacks NUM_PHYSICAL_LEV.
Definition NUM_LEV_P : nat := NumPacks NUM_INTERFACE_LEV.

(** Level [k] of a view. *)
Definition level (x : @View T) (k : nat) : T := x (k / VECTOR_SIZE) (k mod VECTOR_SIZE).

(** [combine<CM>(newVal, result, alpha, beta)]: the new value of [result]. *)
Definition combine (CM : CombineMode) (newVal result alpha beta : T) : T :=
    match CM with
    | Replace     => newVal
    | Scale       => (alpha * newVal)%A
    | Update      => ((result * beta) + newVal)%A
    | ScaleUpdate => ((result * beta) + (alpha * newVal))%A
    | ScaleAdd    => (result + (alpha * newVal))%A
    | Add         => (result + newVal)%A
    | ProdUpdate  => (result * newVal)%A
    end.

(** The same on packs, lane by lane. *)
Definition combine_pack (CM : CombineMode) (newVal result : @Pack T) (alpha beta : T) : Pack :=
    fun i => combine CM (newVal i) (result i) alpha beta.

Definition needsAlpha (CM : CombineMode) : bool :=
    match CM with Scale | ScaleAdd | ScaleUpdate => true | _ => false end.

Definition needsBeta (CM : CombineMode) : bool :=
    match CM with Update | ScaleUpdate => true | _ => false end.

Definition sanity_check (CM : CombineMode) (alpha beta : T) : Outcome unit :=
    bind (runtime_check (needsAlpha CM || req alpha (rlit 1))
            ("[ColumnOps] Error! You specified alpha!=1.0, but combine mode '"
             ++ cm2str CM ++ "' would discard alpha altogether."))
      (fun _ =>
         runtime_check (needsBeta CM || req beta (rlit 0))
            ("[ColumnOps] Error! You specified beta!=0.0, but combine mode '"
             ++ cm2str CM ++ "' would discard beta altogether.")).

(** The prologue of every averaging and delta kernel:
      [#ifndef NDEBUG sanity_check<CM>(alpha,beta); #endif]. *)
Definition debug_sanity_check (CM : CombineMode) (alpha beta : T) : Outcome unit :=
    if NDEBUG then Done tt else sanity_check CM alpha beta.

(** *** compute_midpoint_values *)

Definition compute_midpoint_values_gpu (CM : CombineMode) (x_i : @View T)
      (x_m : @View T) (alpha beta : T) : View :=
    for_loop 0 NUM_PHYSICAL_LEV (fun ilev x_m =>
      let tmp := pack_map (fun v => v / rlit 2)%A
                   (pack_map2 radd (x_i ilev) (x_i (ilev + 1))) in
      set_pack x_m ilev (combine_pack CM tmp (x_m ilev) alpha beta)) x_m.

Definition compute_midpoint_values_simd (CM : CombineMode) (x_i : @View T)
      (x_m : @View T) (alpha beta : T) : View :=
    let LAST_MID_PACK := LastPack NUM_PHYSICAL_LEV in
    let LAST_MID_PACK_END := LastPackEnd NUM_PHYSICAL_LEV in
    let LAST_INT_PACK := LastPack NUM_INTERFACE_LEV in
    let LAST_INT_PACK_END := LastPackEnd NUM_INTERFACE_LEV in
    let x_m := for_loop 0 LAST_MID_PACK (fun ilev x_m =>
      let tmp := x_i ilev in
      let tmp := shift_left1 VECTOR_END tmp in
      let tmp := set_lane tmp VECTOR_END (x_i (ilev + 1) 0) in
      let tmp := pack_map2 radd tmp (x_i ilev) in
      let tmp := pack_map (fun v => v / rlit 2)%A tmp in
      set_pack x_m ilev (combine_pack CM tmp (x_m ilev) alpha beta)) x_m in
    let tmp := x_i LAST_MID_PACK in
    let tmp := shift_left1 VECTOR_END tmp in
    let tmp := set_lane tmp LAST_MID_PACK_END (x_i LAST_INT_PACK LAST_INT_PACK_END) in
    let tmp := pack_map2 radd tmp (x_i LAST_MID_PACK) in
    let tmp := pack_map (fun v => v / rlit 2)%A tmp in
    set_pack x_m LAST_MID_PACK (combine_pack CM tmp (x_m LAST_MID_PACK) alpha beta).

Definition compute_midpoint_values (CM : CombineMode) (x_i : @View T)
      (x_m : @View T) (alpha beta : T) : Outcome View :=
    bind (debug_sanity_check CM alpha beta) (fun _ =>
      Done (if OnGpu then compute_midpoint_values_gpu CM x_i x_m alpha beta
            else compute_midpoint_values_simd CM x_i x_m alpha beta)).

(** *** compute_interface_values *)

Definition compute_interface_values_gpu (CM : CombineMode) (x_m : @View T)
      (x_i : @View T) (alpha beta : T) : View :=
    let x_i := for_loop 1 (NUM_PHYSICAL_LEV - 1) (fun ilev x_i =>
      let tmp := pack_map (fun v => v / rlit 2)%A
                   (pack_map2 radd (x_m ilev) (x_m (ilev - 1))) in
      set_pack x_i ilev (combine_pack CM tmp (x_i ilev) alpha beta)) x_i in
    (* Fix the top/bottom *)
    let x_i := set_pack x_i 0 (combine_pack CM (x_m 0) (x_i 0) alpha beta) in
    set_pack x_i (NUM_INTERFACE_LEV - 1)
      (combine_pack CM (x_m (NUM_PHYSICAL_LEV - 1)) (x_i (NUM_INTERFACE_LEV - 1)) alpha beta).

Definition compute_interface_values_simd (CM : CombineMode) (x_m : @View T)
      (x_i : @View T) (alpha beta : T) : View :=
    let LAST_MID_PACK := LastPack NUM_PHYSICAL_LEV in
    let LAST_MID_PACK_END := LastPackEnd NUM_PHYSICAL_LEV in
    let LAST_INT_PACK := LastPack NUM_INTERFACE_LEV in
    let LAST_INT_PACK_END := LastPackEnd NUM_INTERFACE_LEV in
    let x_i := for_loop 1 (NUM_LEV - 1) (fun ilev x_i =>
      let tmp := x_m ilev in
      let tmp := shift_right1 tmp in
      let tmp := set_lane tmp 0 (x_m (ilev - 1) VECTOR_END) in
      let tmp := pack_map2 radd tmp (x_m ilev) in
      let tmp := pack_map (fun v => v / rlit 2)%A tmp in
      set_pack x_i ilev (combine_pack CM tmp (x_i ilev) alpha beta)) x_i in
    (* First pack: shift_right inserts leading 0's *)
    let tmp := x_m 0 in
    let tmp := shift_right1 tmp in
    let tmp := pack_map2 radd tmp (x_m 0) in
    let tmp := pack_map (fun v => v / rlit 2)%A tmp in
    let x_i := set_pack x_i 0 (combine_pack CM tmp (x_i 0) alpha beta) in
    (* Fix top/bottom *)
    let x_i := set_entry x_i 0 0 (combine CM (x_m 0 0) (x_i 0 0) alpha beta) in
    set_entry x_i LAST_INT_PACK LAST_INT_PACK_END
      (combine CM (x_m LAST_MID_PACK LAST_MID_PACK_END)
                  (x_i LAST_INT_PACK LAST_INT_PACK_END) alpha beta).

Definition compute_interface_values (CM : CombineMode) (x_m : @View T)
      (x_i : @View T) (alpha beta : T) : Outcome View :=
    bind (debug_sanity_check CM alpha beta) (fun _ =>
      Done (if OnGpu then compute_interface_values_gpu CM x_m x_i alpha beta
            else compute_interface_values_simd CM x_m x_i alpha beta)).

(** The overload that weights the average by midpoint and interface
      weights. *)
Definition compute_interface_values_weighted_gpu (CM : CombineMode)
      (weights_m weights_i x_m : @View T) (x_i : @View T) (alpha beta : T) : View :=
    let x_i := for_loop 1 (NUM_PHYSICAL_LEV - 1) (fun ilev x_i =>
      let tmp := pack_map2 rdiv
                   (pack_map2 radd (pack_map2 rmul (x_m ilev) (weights_m ilev))
                                   (pack_map2 rmul (x_m (ilev - 1)) (weights_m (ilev - 1))))
                   (pack_map (fun w => rlit 2 * w)%A (weights_i ilev)) in
      set_pack x_i ilev (combine_pack CM tmp (x_i ilev) alpha beta)) x_i in
    (* Fix the top/bottom *)
    let x_i := set_pack x_i 0 (combine_pack CM (x_m 0) (x_i 0) alpha beta) in
    set_pack x_i (NUM_PHYSICAL_LEV - 1)
      (combine_pack CM (x_m (NUM_INTERFACE_LEV - 1)) (x_i (NUM_PHYSICAL_LEV - 1)) alpha beta).

Definition compute_interface_values_weighted_simd (CM : CombineMode)
      (weights_m weights_i x_m : @View T) (x_i : @View T) (alpha beta : T) : View :=
    let LAST_MID_PACK := LastPack NUM_PHYSICAL_LEV in
    let LAST_MID_PACK_END := LastPackEnd NUM_PHYSICAL_LEV in
    let LAST_INT_PACK := LastPack NUM_INTERFACE_LEV in
    let LAST_INT_PACK_END := LastPackEnd NUM_INTERFACE_LEV in
    let x_i := for_loop 1 (NUM_LEV - 1) (fun ilev x_i =>
      let tmp := pack_map2 rmul (x_m ilev) (weights_m ilev) in
      let tmp := shift_right1 tmp in
      let tmp := set_lane tmp 0
                   (rmul (x_m (ilev - 1) VECTOR_END) (weights_m (ilev - 1) VECTOR_END)) in
      let tmp := pack_map2 radd tmp (pack_map2 rmul (x_m ilev) (weights_m ilev)) in
      let tmp := pack_map2 rdiv tmp (pack_map (fun w => rlit 2 * w)%A (weights_i ilev)) in
      set_pack x_i ilev (combine_pack CM tmp (x_i ilev) alpha beta)) x_i in
    let tmp := pack_map2 rmul (x_m 0) (weights_m 0) in
    let tmp := shift_right1 tmp in
    let tmp := pack_map2 radd tmp (pack_map2 rmul (x_m 0) (weights_m 0)) in
    let tmp := pack_map2 rdiv tmp (pack_map (fun w => rlit 2 * w)%A (weights_i 0)) in
    let x_i := set_pack x_i 0 (combine_pack CM tmp (x_i 0) alpha beta) in
    (* Fix top/bottom *)
    let x_i := set_entry x_i 0 0 (combine CM (x_m 0 0) (x_i 0 0) alpha beta) in
    set_entry x_i LAST_INT_PACK LAST_INT_PACK_END
      (combine CM (x_m LAST_MID_PACK LAST_MID_PACK_END)
                  (x_i LAST_INT_PACK LAST_INT_PACK_END) alpha beta).

Definition compute_interface_values_weighted (CM : CombineMode)
      (weights_m weights_i x_m : @View T) (x_i : @View T) (alpha beta : T) : Outcome View :=
    bind (debug_sanity_check CM alpha beta) (fun _ =>
      Done (if OnGpu
            then compute_interface_values_weighted_gpu CM weights_m weights_i x_m x_i alpha beta
            else compute_interface_values_weighted_simd CM weights_m weights_i x_m x_i alpha beta)).

(** *** compute_midpoint_delta *)

Definition compute_midpoint_delta_gpu (CM : CombineMode) (x_i : @View T)
      (dx_m : @View T) (alpha beta : T) : View :=
    for_loop 0 NUM_PHYSICAL_LEV (fun ilev dx_m =>
      let tmp := pack_map2 rsub (x_i (ilev + 1)) (x_i ilev) in
      set_pack dx_m ilev (combine_pack CM tmp (dx_m ilev) alpha beta)) dx_m.

Definition compute_midpoint_delta_simd (CM : CombineMode) (x_i : @View T)
      (dx_m : @View T) (alpha beta : T) : View :=
    let LAST_MID_PACK := LastPack NUM_PHYSICAL_LEV in
    let LAST_MID_PACK_END := LastPackEnd NUM_PHYSICAL_LEV in
    let LAST_INT_PACK := LastPack NUM_INTERFACE_LEV in
    let LAST_INT_PACK_END := LastPackEnd NUM_INTERFACE_LEV in
    let dx_m := for_loop 0 LAST_MID_PACK (fun ilev dx_m =>
      let tmp := x_i ilev in
      let tmp := shift_left1 VECTOR_END tmp in
      let tmp := set_lane tmp VECTOR_END (x_i (ilev + 1) 0) in
      set_pack dx_m ilev
        (combine_pack CM (pack_map2 rsub tmp (x_i ilev)) (dx_m ilev) alpha beta)) dx_m in
    let tmp := x_i LAST_MID_PACK in
    let tmp := shift_left1 VECTOR_END tmp in
    let tmp := set_lane tmp LAST_MID_PACK_END (x_i LAST_INT_PACK LAST_INT_PACK_END) in
    set_pack dx_m LAST_MID_PACK
      (combine_pack CM (pack_map2 rsub tmp (x_i LAST_MID_PACK)) (dx_m LAST_MID_PACK) alpha beta).

Definition compute_midpoint_delta (CM : CombineMode) (x_i : @View T)
      (dx_m : @View T) (alpha beta : T) : Outcome View :=
    bind (debug_sanity_check CM alpha beta) (fun _ =>
      Done (if OnGpu then compute_midpoint_delta_gpu CM x_i dx_m alpha beta
            else compute_midpoint_delta_simd CM x_i dx_m alpha beta)).

(** *** compute_interface_delta *)

(** The boundary fix-up shared by the two paths: nothing for
      [BCType::DoNothing], otherwise the top and the bottom entry combine
      with zero or with [bcVal]. *)
Definition interface_delta_bc (CM : CombineMode) (bcType : BCType)
      (last_pack last_lane : nat) (dx_i : @View T) (bcVal alpha beta : T) : View :=
    match bcType with
    | Zero =>
        let dx_i := set_entry dx_i 0 0 (combine CM (rlit 0) (dx_i 0 0) alpha beta) in
        set_entry dx_i last_pack last_lane
          (combine CM (rlit 0) (dx_i last_pack last_lane) alpha beta)
    | Value =>
        let dx_i := set_entry dx_i 0 0 (combine CM bcVal (dx_i 0 0) alpha beta) in
        set_entry dx_i last_pack last_lane
          (combine CM bcVal (dx_i last_pack last_lane) alpha beta)
    | DoNothing => dx_i
    end.

Definition compute_interface_delta_gpu (CM : CombineMode) (bcType : BCType)
      (x_m : @View T) (dx_i : @View T) (bcVal alpha beta : T) : View :=
    let dx_i := for_loop 1 (NUM_PHYSICAL_LEV - 1) (fun ilev dx_i =>
      set_pack dx_i ilev
        (combine_pack CM (pack_map2 rsub (x_m ilev) (x_m (ilev - 1))) (dx_i ilev) alpha beta))
      dx_i in
    interface_delta_bc CM bcType (NUM_INTERFACE_LEV - 1) 0 dx_i bcVal alpha beta.

Definition compute_interface_delta_simd (CM : CombineMode) (bcType : BCType)
      (x_m : @View T) (dx_i : @View T) (bcVal alpha beta : T) : View :=
    let dx_i := for_loop 1 (NUM_LEV - 1) (fun ilev dx_i =>
      let tmp := x_m ilev in
      let tmp := shift_right1 tmp in
      let tmp := set_lane tmp 0 (x_m (ilev - 1) VECTOR_END) in
      set_pack dx_i ilev
        (combine_pack CM (pack_map2 rsub (x_m ilev) tmp) (dx_i ilev) alpha beta)) dx_i in
    (* First pack: shift_right inserts leading 0's *)
    let tmp := x_m 0 in
    let tmp := shift_right1 tmp in
    let dx_i := set_pack dx_i 0
        (combine_pack CM (pack_map2 rsub (x_m 0) tmp) (dx_i 0) alpha beta) in
    interface_delta_bc CM bcType (LastPack NUM_INTERFACE_LEV) (LastPackEnd NUM_INTERFACE_LEV)
      dx_i bcVal alpha beta.

Definition compute_interface_delta (CM : CombineMode) (bcType : BCType)
      (x_m : @View T) (dx_i : @View T) (bcVal alpha beta : T) : Outcome View :=
    bind (debug_sanity_check CM alpha beta) (fun _ =>
      Done (if OnGpu then compute_interface_delta_gpu CM bcType x_m dx_i bcVal alpha beta
            else compute_interface_delta_simd CM bcType x_m dx_i bcVal alpha beta)).

(** *** column_scan *)

(** The host implementation: a running integral carried from pack to
      pack.  The state of the outer loop is the view and the integral. *)
Definition column_scan_impl_host (Forward Inclusive : bool) (LENGTH : nat)
      (input_provider : @View T) (sum : @View T) (s0 : T) : View :=
    let LAST_PACK := LastPack LENGTH in
    let LAST_PACK_END := LastPackEnd LENGTH in
    if Forward then
      fst (for_loop 0 (NumPacks LENGTH) (fun ilev (st : View * T) =>
        let (sum, integration) := st in
        let vec_end := if Nat.eqb ilev LAST_PACK then LAST_PACK_END else VECTOR_END in
        let input := input_provider ilev in
        let sum_val := sum ilev in
        let sum_val := set_lane sum_val 0
              (integration + (if Inclusive then input 0 else rlit 0))%A in
        let sum_val := for_loop 1 vec_end (fun iv sum_val =>
              set_lane sum_val iv
                (radd (sum_val (iv - 1)) (if Inclusive then input iv else input (iv - 1))))
              sum_val in
        (set_pack sum ilev sum_val,
         (sum_val vec_end + (if Inclusive then rlit 0 else input vec_end))%A))
        (sum, s0))
    else
      fst (for_down (LAST_PACK + 1) (fun ilev (st : View * T) =>
        let (sum, integration) := st in
        let vec_start := if Nat.eqb ilev LAST_PACK then LAST_PACK_END else VECTOR_END in
        let input := input_provider ilev in
        let sum_val := sum ilev in
        let sum_val := set_lane sum_val vec_start
              (integration + (if Inclusive then input vec_start else rlit 0))%A in
        let sum_val := for_down vec_start (fun iv sum_val =>
              set_lane sum_val iv
                (radd (sum_val (iv + 1)) (if Inclusive then input iv else input (iv + 1))))
              sum_val in
        (set_pack sum ilev sum_val,
         (sum_val 0 + (if Inclusive then rlit 0 else input 0))%A))
        (sum, s0)).

(** The device implementation ([VECTOR_SIZE] is 1 there): a scan over the
      levels, taken in level order; the accumulator starts from zero and an
      assignment of a [Real] to a pack fills the pack. *)
Definition column_scan_impl_gpu (Forward Inclusive : bool) (LENGTH : nat)
      (input_provider : @View T) (sum : @View T) (s0 : T) : View :=
    let offset := if Inclusive then 0 else 1 in
    if Forward then
      fst (for_loop 0 LENGTH (fun k (st : View * T) =>
        let (sum, accumulator) := st in
        let accumulator := (accumulator + input_provider k 0)%A in
        let accumulator := if Nat.eqb k 0 then (accumulator + s0)%A else accumulator in
        (* k <= last_idx, with last_idx = LENGTH-1 or LENGTH-2 *)
        let sum := if Nat.leb (k + 1 + offset) LENGTH
                   then set_pack sum (k + offset) (fun _ => accumulator) else sum in
        (sum, accumulator)) (sum, rlit 0))
    else
      fst (for_loop 0 LENGTH (fun k (st : View * T) =>
        let (sum, accumulator) := st in
        let k_bwd := LENGTH - k - 1 in
        let accumulator := (accumulator + input_provider k_bwd 0)%A in
        let accumulator := if Nat.eqb k 0 then (accumulator + s0)%A else accumulator in
        (* k_bwd >= last_idx, with last_idx = 0 or 1 *)
        let sum := if Nat.leb offset k_bwd
                   then set_pack sum (k_bwd - offset) (fun _ => accumulator) else sum in
        (sum, accumulator)) (sum, rlit 0)).

Definition column_scan_impl (Forward Inclusive : bool) (LENGTH : nat)
      (input_provider : @View T) (sum : @View T) (s0 : T) : View :=
    if OnGpu then column_scan_impl_gpu Forward Inclusive LENGTH input_provider sum s0
    else column_scan_impl_host Forward Inclusive LENGTH input_provider sum s0.

(** Input on midpoints, output on interfaces; the first (or, backward,
      the last) entry of [sum] holds the initial value.  Backward, the view
      is cropped to [NUM_LEV] packs over the same storage. *)
Definition column_scan_mid_to_int (Forward : bool) (input_provider : @View T)
      (sum : @View T) : View :=
    if Forward then
      column_scan_impl true false NUM_INTERFACE_LEV input_provider sum (sum 0 0)
    else
      let s0 := sum (LastPack NUM_INTERFACE_LEV) (LastPackEnd NUM_INTERFACE_LEV) in
      let sum_cropped :=
        set_entry sum (LastPack NUM_PHYSICAL_LEV) (LastPackEnd NUM_PHYSICAL_LEV) s0 in
      column_scan_impl false true NUM_PHYSICAL_LEV input_provider sum_cropped s0.

End Kernels.
End ColumnOps.

(** ** HybridVCoord, PhysicalConstants *)

(** The members of [HybridVCoord] that the kernels read; the class itself
    is not among the sources. *)
Record HybridVCoord (T : Type) : Type := {
  ps0 : T;
  hybrid_ai0 : T;
  hybrid_ai : nat -> T;
  m_inited : bool
}.
Arguments ps0 {T} _.
Arguments hybrid_ai0 {T} _.
Arguments hybrid_ai {T} _ _.
Arguments m_inited {T} _.

(** [PhysicalConstants.hpp] is not among the sources: the constants the
    kernels name are parameters of the model. *)
Record PhysicalConstants (T : Type) : Type := {
  p0 : T;
  kappa : T;
  Rgas : T;
  Rwater_vapor : T;
  g : T;
  cp : T
}.
Arguments p0 {T} _.
Arguments kappa {T} _.
Arguments Rgas {T} _.
Arguments Rwater_vapor {T} _.
Arguments g {T} _.
Arguments cp {T} _.

(** [pow] of the C library. *)
Class Pow (T : Type) : Type := rpow : T -> T -> T.

#[export] Instance R_Pow : Pow R := Rpower.

(** [assert(cond)]: compiled out under [NDEBUG], fatal otherwise when the
    condition fails. *)
Definition c_assert (NDEBUG cond : bool) (what : string) : Outcome unit :=
  if NDEBUG || cond then Done tt else Fatal what.

(** ** EquationOfState.hpp *)

Module EquationOfState.
Section Kernels.
Context {T : Type} {AT : Arith T} {PT : Pow T}.
Variable VECTOR_SIZE : nat.
Variable NUM_PHYSICAL_LEV : nat.
Variable OnGpu : bool.
Variable NDEBUG : bool.
Variable PC : PhysicalConstants T.

(** The state set by [init]. *)
Variable m_theta_hydrostatic_mode : bool.
Variable m_hvcoord : HybridVCoord T.

Let NUM_INTERFACE_LEV := ColumnOps.NUM_INTERFACE_LEV NUM_PHYSICAL_LEV.
Let NUM_LEV := ColumnOps.NUM_LEV VECTOR_SIZE NUM_PHYSICAL_LEV.
Let NUM_LEV_P := ColumnOps.NUM_LEV_P VECTOR_SIZE NUM_PHYSICAL_LEV.
Let LastPack := ColumnOps.LastPack VECTOR_SIZE.
Let LastVecEnd := ColumnOps.LastPackEnd VECTOR_SIZE.

(** Returns the interface pressure [p_i] and the midpoint pressure [pi]. *)
Definition compute_hydrostatic_p (dp : @View T) (p_i : @View T) (pi : @View T)
      : Outcome (View * View) :=
    bind (c_assert NDEBUG m_theta_hydrostatic_mode "m_theta_hydrostatic_mode") (fun _ =>
      let p_i := set_entry p_i 0 0 (hybrid_ai0 m_hvcoord * ps0 m_hvcoord)%A in
      let p_i := ColumnOps.column_scan_mid_to_int VECTOR_SIZE NUM_PHYSICAL_LEV OnGpu
                   true dp p_i in
      bind (ColumnOps.compute_midpoint_values VECTOR_SIZE NUM_PHYSICAL_LEV OnGpu NDEBUG
              Replace p_i pi (rlit 1) (rlit 0))
        (fun pi => Done (p_i, pi))).

Definition compute_exner (pi : @View T) (exner : @View T) : View :=
    for_loop 0 NUM_LEV (fun ilev exner =>
      let exner := set_pack exner ilev (pi ilev) in
      let exner := set_pack exner ilev (pack_map (fun v => v / p0 PC)%A (exner ilev)) in
      set_pack exner ilev (pack_map (fun v => rpow v (kappa PC)) (exner ilev))) exner.

(** Returns [pnh] and [exner]; [exner] first holds the midpoint delta of
      [phi_i]. *)
Definition compute_pnh_and_exner (vtheta_dp : @View T) (phi_i : @View T)
      (pnh : @View T) (exner : @View T) : Outcome (View * View) :=
    bind (c_assert NDEBUG (negb m_theta_hydrostatic_mode) "!m_theta_hydrostatic_mode") (fun _ =>
    bind (ColumnOps.compute_midpoint_delta VECTOR_SIZE NUM_PHYSICAL_LEV OnGpu NDEBUG
            Replace phi_i exner (rlit 1) (rlit 0)) (fun exner =>
      Done (for_loop 0 NUM_LEV (fun ilev (st : View * View) =>
        let (pnh, exner) := st in
        let exner := set_pack exner ilev
              (pack_map2 (fun vt e => (- Rgas PC) * vt / e)%A (vtheta_dp ilev) (exner ilev)) in
        let pnh := set_pack pnh ilev (pack_map (fun e => e / p0 PC)%A (exner ilev)) in
        let pnh := set_pack pnh ilev
              (pack_map (fun v => rpow v (rlit 1 / (rlit 1 - kappa PC))%A) (pnh ilev)) in
        let pnh := set_pack pnh ilev (pack_map (fun v => v * p0 PC)%A (pnh ilev)) in
        let exner := set_pack exner ilev (pack_map2 rdiv (pnh ilev) (exner ilev)) in
        (pnh, exner)) (pnh, exner)))).


(** The column overloads of [compute_phi_i]: a backward scan from the
      surface geopotential. *)
Definition compute_phi_i (phis : T) (vtheta_dp : @View T) (p : @View T)
      (phi_i : @View T) : View :=
    let phi_i := set_entry phi_i (LastPack NUM_INTERFACE_LEV)
                   (LastVecEnd NUM_INTERFACE_LEV) phis in
    let integrand_provider : View := fun ilev =>
      pack_map2 (fun vt pk =>
        (Rgas PC * vt * rpow (pk / p0 PC) (kappa PC - rlit 1)) / p0 PC)%A
        (vtheta_dp ilev) (p ilev) in
    ColumnOps.column_scan_mid_to_int VECTOR_SIZE NUM_PHYSICAL_LEV OnGpu
      false integrand_provider phi_i.

Definition compute_phi_i_exner (phis : T) (vtheta_dp : @View T) (p : @View T)
      (exner : @View T) (phi_i : @View T) : View :=
    let phi_i := set_entry phi_i (LastPack NUM_INTERFACE_LEV)
                   (LastVecEnd NUM_INTERFACE_LEV) phis in
    let integrand_provider : View := fun ilev => fun i =>
      (Rgas PC * vtheta_dp ilev i * exner ilev i / p ilev i)%A in
    ColumnOps.column_scan_mid_to_int VECTOR_SIZE NUM_PHYSICAL_LEV OnGpu
      false integrand_provider phi_i.
End Kernels.
End EquationOfState.

(** ** ElementOps.hpp *)

Module ElementOps.
Section Kernels.
Context {T : Type} {AT : Arith T} {PT : Pow T}.
Variable VECTOR_SIZE : nat.
Variable NUM_PHYSICAL_LEV : nat.
Variable OnGpu : bool.
Variable NDEBUG : bool.
Variable XX_NONBFB_COMING : bool.
Variable PC : PhysicalConstants T.
Variable m_hvcoord : HybridVCoord T.

Let NUM_LEV := ColumnOps.NUM_LEV VECTOR_SIZE NUM_PHYSICAL_LEV.

(** [0.0065f]: the literal is single precision, 3489661 / 2^29. *)
Definition lapse_rate_literal : Q := (3489661 # 536870912)%Q.

Definition TREF : T := rlit 288.
Definition T1 : T := (rlit lapse_rate_literal * TREF * cp PC / g PC)%A.
Definition T0 : T := (TREF - T1)%A.

Definition get_R_star (use_moisture : bool) (Q : @View T) (R : @View T) : View :=
    if use_moisture then
      for_loop 0 NUM_LEV (fun ilev R =>
        set_pack R ilev
          (pack_map (fun q => Rgas PC + (Rwater_vapor PC - Rgas PC) * q)%A (Q ilev))) R
    else
      for_loop 0 NUM_LEV (fun ilev R => set_pack R ilev (fun _ => Rgas PC)) R.

Definition compute_hydrostatic_p (dp : @View T) (p_i : @View T) (pi : @View T)
      : Outcome (View * View) :=
    let p_i := set_entry p_i 0 0 (hybrid_ai0 m_hvcoord * ps0 m_hvcoord)%A in
    let p_i := ColumnOps.column_scan_mid_to_int VECTOR_SIZE NUM_PHYSICAL_LEV OnGpu
                 true dp p_i in
    if XX_NONBFB_COMING then
      bind (ColumnOps.compute_midpoint_values VECTOR_SIZE NUM_PHYSICAL_LEV OnGpu NDEBUG
              Replace p_i pi (rlit 1) (rlit 0))
        (fun pi => Done (p_i, pi))
    else
      Done (p_i,
            for_loop 0 NUM_LEV (fun ilev pi =>
              set_pack pi ilev
                (pack_map2 (fun a b => a + b / rlit 2)%A (p_i ilev) (dp ilev))) pi).

Definition compute_theta_ref (p : @View T) (theta_ref : @View T) : Outcome View :=
    bind (c_assert NDEBUG (m_inited m_hvcoord) "m_hvcoord.m_inited") (fun _ =>
      Done (for_loop 0 NUM_LEV (fun ilev theta_ref =>
        (* Compute exner, store in theta_ref *)
        let theta_ref := set_pack theta_ref ilev
              (pack_map (fun pk => rpow (pk / p0 PC)%A (kappa PC)) (p ilev)) in
        (* Compute theta_ref *)
        set_pack theta_ref ilev (pack_map (fun e => T0 / e + T1)%A (theta_ref ilev)))
        theta_ref)).
End Kernels.
End ElementOps.

(** ** RemapStateProvider.hpp *)

Module RemapStateProvider.
Definition num_states_remap : Z := 5.
Definition num_states_preprocess : Z := 2.
Definition num_states_postprocess : Z := 2.

Definition is_intrinsic_state (NDEBUG : bool) (istate : Z) : Outcome bool :=
    bind (c_assert NDEBUG (Z.leb 0 istate && Z.ltb istate num_states_remap)
            "istate>=0 && istate<num_states_remap()") (fun _ =>
      if Z.eqb istate 3 || Z.eqb istate 4 then
        (* Horizontal velocity needs to be rescaled by dp *)
        Done true
      else
        (* Other quantities are already scaled by dp *)
        Done false).

Section Columns.
Context {T : Type} {AT : Arith T} {PT : Pow T}.
Variable VECTOR_SIZE : nat.
Variable NUM_PHYSICAL_LEV : nat.
Variable OnGpu : bool.
Variable NDEBUG : bool.
Variable XX_NONBFB_COMING : bool.
Variable PC : PhysicalConstants T.
Variable m_hvcoord : HybridVCoord T.

(** What the adapter reaches at one column [(igp, jgp)] of element [ie]
    at time level [np1]: the state ([m_v_0] and [m_v_1] are the two
    components of [m_state.m_v]), the geometry, the increments it owns and
    its scratch view. *)
Record Column : Type := {
  m_w_i : @View T;
  m_phinh_i : @View T;
  m_vtheta_dp : @View T;
  m_v_0 : @View T;
  m_v_1 : @View T;
  m_phis : T;
  m_gradphis_0 : T;
  m_gradphis_1 : T;
  m_delta_w : @View T;
  m_delta_phinh : @View T;
  m_temp : @View T
}.

(** The body of [preprocess_state] at one column.  For state 1 the
    midpoint pressure [p] lives in the storage of [delta_phinh], and the
    interface pressure [p_i] and the reference geopotential [phi_ref]
    both live in [m_temp]. *)
Definition preprocess_state (istate : Z) (dp : @View T) (c : Column) : Outcome Column :=
  if Z.eqb istate 0 then
    (* Compute delta_w *)
    bind (ColumnOps.compute_midpoint_delta VECTOR_SIZE NUM_PHYSICAL_LEV OnGpu NDEBUG
            Replace (m_w_i c) (m_delta_w c) (rlit 1) (rlit 0)) (fun delta_w =>
      Done {| m_w_i := m_w_i c; m_phinh_i := m_phinh_i c; m_vtheta_dp := m_vtheta_dp c;
              m_v_0 := m_v_0 c; m_v_1 := m_v_1 c; m_phis := m_phis c;
              m_gradphis_0 := m_gradphis_0 c; m_gradphis_1 := m_gradphis_1 c;
              m_delta_w := delta_w; m_delta_phinh := m_delta_phinh c;
              m_temp := m_temp c |})
  else if Z.eqb istate 1 then
    (* Remove hydrostatic phi before remap. *)
    bind (ElementOps.compute_hydrostatic_p VECTOR_SIZE NUM_PHYSICAL_LEV OnGpu NDEBUG
            XX_NONBFB_COMING m_hvcoord dp (m_temp c) (m_delta_phinh c)) (fun r =>
      let (p_i, p) := r in
      let phi_ref := EquationOfState.compute_phi_i VECTOR_SIZE NUM_PHYSICAL_LEV OnGpu PC
                       (m_phis c) (m_vtheta_dp c) p p_i in
      let phinh_i :=
        for_loop 0 (ColumnOps.NUM_LEV_P VECTOR_SIZE NUM_PHYSICAL_LEV) (fun ilev phinh_i =>
          set_pack phinh_i ilev (pack_map2 rsub (phinh_i ilev) (phi_ref ilev)))
          (m_phinh_i c) in
      (* Now compute phinh_i increments *)
      bind (ColumnOps.compute_midpoint_delta VECTOR_SIZE NUM_PHYSICAL_LEV OnGpu NDEBUG
              Replace phinh_i p (rlit 1) (rlit 0)) (fun delta_phinh =>
        Done {| m_w_i := m_w_i c; m_phinh_i := phinh_i; m_vtheta_dp := m_vtheta_dp c;
                m_v_0 := m_v_0 c; m_v_1 := m_v_1 c; m_phis := m_phis c;
                m_gradphis_0 := m_gradphis_0 c; m_gradphis_1 := m_gradphis_1 c;
                m_delta_w := m_delta_w c; m_delta_phinh := delta_phinh;
                m_temp := phi_ref |}))
  else Done c.

(** The body of [postprocess_state] at one column. *)
Definition postprocess_state (istate : Z) (dp : @View T) (c : Column) : Outcome Column :=
  if Z.eqb istate 0 then
    (* w_i(k) = w_i(k+1) - delta_w(k), so do a backward scan sum of -delta_w *)
    let minus_delta : View := fun ilev => pack_map ropp (m_delta_w c ilev) in
    let w_i := ColumnOps.column_scan_mid_to_int VECTOR_SIZE NUM_PHYSICAL_LEV OnGpu
                 false minus_delta (m_w_i c) in
    (* Since u changed, update w_i b.c. at the surface *)
    let LAST_MID_PACK := ColumnOps.LastPack VECTOR_SIZE NUM_PHYSICAL_LEV in
    let LAST_MID_PACK_END := ColumnOps.LastPackEnd VECTOR_SIZE NUM_PHYSICAL_LEV in
    let LAST_INT_PACK :=
      ColumnOps.LastPack VECTOR_SIZE (ColumnOps.NUM_INTERFACE_LEV NUM_PHYSICAL_LEV) in
    let LAST_INT_PACK_END :=
      ColumnOps.LastPackEnd VECTOR_SIZE (ColumnOps.NUM_INTERFACE_LEV NUM_PHYSICAL_LEV) in
    let w_i := set_entry w_i LAST_INT_PACK LAST_INT_PACK_END
                 ((m_v_0 c LAST_MID_PACK LAST_MID_PACK_END * m_gradphis_0 c
                   + m_v_1 c LAST_MID_PACK LAST_MID_PACK_END * m_gradphis_1 c) / g PC)%A in
    Done {| m_w_i := w_i; m_phinh_i := m_phinh_i c; m_vtheta_dp := m_vtheta_dp c;
            m_v_0 := m_v_0 c; m_v_1 := m_v_1 c; m_phis := m_phis c;
            m_gradphis_0 := m_gradphis_0 c; m_gradphis_1 := m_gradphis_1 c;
            m_delta_w := m_delta_w c; m_delta_phinh := m_delta_phinh c;
            m_temp := m_temp c |}
  else if Z.eqb istate 1 then
    (* phinh_i(k) = phinh_i(k+1) - delta_phinh(k), so do a backward scan sum
       of -delta_phinh *)
    let minus_delta : View := fun ilev => pack_map ropp (m_delta_phinh c ilev) in
    let phinh_i := ColumnOps.column_scan_mid_to_int VECTOR_SIZE NUM_PHYSICAL_LEV OnGpu
                     false minus_delta (m_phinh_i c) in
    (* Need to add back the reference phi. Recycle delta_phinh to store p. *)
    bind (ElementOps.compute_hydrostatic_p VECTOR_SIZE NUM_PHYSICAL_LEV OnGpu NDEBUG
            XX_NONBFB_COMING m_hvcoord dp (m_temp c) (m_delta_phinh c)) (fun r =>
      let (p_i, p) := r in
      let phi_ref := EquationOfState.compute_phi_i VECTOR_SIZE NUM_PHYSICAL_LEV OnGpu PC
                       (m_phis c) (m_vtheta_dp c) p p_i in
      let phinh_i :=
        for_loop 0 (ColumnOps.NUM_LEV_P VECTOR_SIZE NUM_PHYSICAL_LEV) (fun ilev phinh_i =>
          set_pack phinh_i ilev (pack_map2 radd (phinh_i ilev) (phi_ref ilev)))
          phinh_i in
      Done {| m_w_i := m_w_i c; m_phinh_i := phinh_i; m_vtheta_dp := m_vtheta_dp c;
              m_v_0 := m_v_0 c; m_v_1 := m_v_1 c; m_phis := m_phis c;
              m_gradphis_0 := m_gradphis_0 c; m_gradphis_1 := m_gradphis_1 c;
              m_delta_w := m_delta_w c; m_delta_phinh := p;
              m_temp := phi_ref |})
  else Done c.

(** [get_state], at one column: the view that is remapped as state [var].
    [Kokkos::abort] ends the run like a failed assertion does. *)
Definition get_state (var : Z) (c : Column) : Outcome (@View T) :=
  bind (c_assert NDEBUG (Z.leb 0 var && Z.leb var 4) "var>=0 && var<=4") (fun _ =>
    if Z.eqb var 0 then Done (m_delta_w c)
    else if Z.eqb var 1 then Done (m_delta_phinh c)
    else if Z.eqb var 2 then Done (m_vtheta_dp c)
    else if Z.eqb var 3 then Done (m_v_0 c)
    else if Z.eqb var 4 then Done (m_v_1 c)
    else Fatal "RemapStateProvider: invalid variable index.").
End Columns.
End RemapStateProvider.

(** ** eamxx_homme_iop.cpp *)

Module HommeDynamics.
Section IOP.
Context {T : Type} {AT : Arith T}.

(** [Pack::n], and the constants of [physics::Constants<Real>]. *)
Variable N : nat.
Variable Rair : T.
Variable Cpair : T.

(** [ekat::scalarize]: the same storage, indexed by level. *)
Definition scalarize (v : @View T) : nat -> T :=
  fun idx => v (idx / N) (idx mod N).

(** [ekat::range<IntPack>(start)]: lane [i] holds [start + i]. *)
Definition range (start : nat) : nat -> nat := fun i => start + i.

(** [p.set(mask, value)] on an index pack and on a pack of reals. *)
Definition ipack_set (p : nat -> nat) (mask : nat -> bool) (v : nat) : nat -> nat :=
  fun i => if mask i then v else p i.

Definition pack_set (p : @Pack T) (mask : nat -> bool) (v : @Pack T) : Pack :=
  fun i => if mask i then v i else p i.

(** Modelled from the spec: [ekat::index_and_shift<Shift>(a, i0, index,
    index_shift)] is not among the sources; lane [i] of [index] is
    [a(i0[i])] and lane [i] of [index_shift] is [a(i0[i] + Shift)]. *)
Definition index_and_shift (Shift : Z) (a : nat -> T) (i0 : nat -> nat)
    : Pack * Pack :=
  (fun i => a (i0 i), fun i => a (Z.to_nat (Z.of_nat (i0 i) + Shift))).

(** Modelled from the spec: [ColumnOps::compute_midpoint_delta(team,
    num_mid_levs, x, dx)] of scream_column_ops.hpp is not among the
    sources; the caller says of it that it computes [x(k+1) - x(k)] for
    [k = 0, ..., num_mid_levs - 1].  The other entries of [dx] keep what
    the workspace held. *)
Definition compute_midpoint_delta (num_mid_levs : nat) (x : @View T) (dx : @View T)
    : View :=
  fun p i =>
    let k := p * N + i in
    if Nat.ltb i N && Nat.ltb k num_mid_levs
    then (scalarize x (k + 1) - scalarize x k)%A
    else dx p i.

(** [ekat::npack<Pack>(nlevs)]. *)
Definition npack (nlevs : nat) : nat := (nlevs + N - 1) / N.

(** The interpolation of [omega] to the interfaces (first kernel and the
    two assignments after it). *)
Definition compute_omega_int (nlevs : nat) (pmid pint omega : @View T)
    (omega_int : @View T) : View :=
  let s_pmid := scalarize pmid in
  let s_omega := scalarize omega in
  let pack_begin := 1 / N in
  let pack_end := (nlevs - 1) / N in
  let omega_int := for_loop pack_begin (pack_end + 1 - pack_begin) (fun k omega_int =>
    let range_pack := range (k * N) in
    let range_pack := ipack_set range_pack (fun i => Nat.ltb (range_pack i) 1) 1 in
    let (pmid_k, pmid_km1) := index_and_shift (-1) s_pmid range_pack in
    let (omega_k, omega_km1) := index_and_shift (-1) s_omega range_pack in
    let weight : Pack := fun i =>
      ((pint k i - pmid_km1 i) / (pmid_k i - pmid_km1 i))%A in
    set_pack omega_int k
      (pack_set (omega_int k)
         (fun i => Nat.leb 1 (range_pack i) && Nat.leb (range_pack i) (nlevs - 1))
         (fun i => (weight i * omega_k i + (rlit 1 - weight i) * omega_km1 i)%A)))
    omega_int in
  let omega_int := set_entry omega_int 0 0 (rlit 0) in
  set_entry omega_int (nlevs / N) (nlevs mod N) (rlit 0).

(** The update of one prognostic pack: the three masked assignments, each
    reading the pack as the previous one left it. *)
Definition subsidence_update (x_k : @Pack T) (at_top at_bot : nat -> bool)
    (fac omega_int_k omega_int_kp1 delta_k delta_km1 : @Pack T) : Pack :=
  let x_k := pack_set x_k at_top
      (fun i => (x_k i - fac i * omega_int_kp1 i * delta_k i)%A) in
  let x_k := pack_set x_k at_bot
      (fun i => (x_k i - fac i * omega_int_k i * delta_km1 i)%A) in
  pack_set x_k (fun i => negb (at_top i) && negb (at_bot i))
      (fun i => (x_k i - fac i * (omega_int_kp1 i * delta_k i
                                  + omega_int_k i * delta_km1 i))%A).

(** The same for temperature, which reads the copy [T_k] taken before the
    first assignment. *)
Definition subsidence_update_T (T_k : @Pack T) (at_top at_bot : nat -> bool)
    (fac omega_int_k omega_int_kp1 delta_k delta_km1 : @Pack T) : Pack :=
  let x_k := pack_set T_k at_top
      (fun i => (T_k i - fac i * omega_int_kp1 i * delta_k i)%A) in
  let x_k := pack_set x_k at_bot
      (fun i => (T_k i - fac i * omega_int_k i * delta_km1 i)%A) in
  pack_set x_k (fun i => negb (at_top i) && negb (at_bot i))
      (fun i => (T_k i - fac i * (omega_int_kp1 i * delta_k i
                                  + omega_int_k i * delta_km1 i))%A).

(** The prognostic state of a column: winds, temperature and the tracers. *)
Record ColumnState : Type := {
  u_view : @View T;
  v_view : @View T;
  T_view : @View T;
  Q_view : nat -> @View T
}.

(** The scratch views handed out by the workspace, with whatever they held. *)
Record Scratch : Type := {
  ws_omega_int : @View T;
  ws_delta_u : @View T;
  ws_delta_v : @View T;
  ws_delta_T : @View T;
  ws_delta_Q : nat -> @View T
}.

Definition advance_iop_subsidence (nlevs : nat) (dt ps : T)
    (pmid pint pdel omega : @View T) (workspace : Scratch) (n_q_tracers : nat)
    (st : ColumnState) : ColumnState :=
  let nlev_packs := npack nlevs in
  (* Compute omega on the interface grid by using a weighted average in pressure *)
  let omega_int := compute_omega_int nlevs pmid pint omega (ws_omega_int workspace) in
  (* Compute delta views for u, v, T, and Q *)
  let delta_u := compute_midpoint_delta (nlevs - 1) (u_view st) (ws_delta_u workspace) in
  let delta_v := compute_midpoint_delta (nlevs - 1) (v_view st) (ws_delta_v workspace) in
  let delta_T := compute_midpoint_delta (nlevs - 1) (T_view st) (ws_delta_T workspace) in
  let delta_Q := fun iq =>
    compute_midpoint_delta (nlevs - 1) (Q_view st iq) (ws_delta_Q workspace iq) in
  let s_delta_u := scalarize delta_u in
  let s_delta_v := scalarize delta_v in
  let s_delta_T := scalarize delta_T in
  let s_omega_int := scalarize omega_int in
  (* Compute updated temperature, horizontal winds, and tracers *)
  for_loop 0 nlev_packs (fun k st =>
    let range_pack := range (k * N) in
    let range_pack_m1 := ipack_set range_pack (fun i => Nat.ltb (range_pack i) 1) 1 in
    let (delta_u_k, delta_u_km1) := index_and_shift (-1) s_delta_u range_pack_m1 in
    let (delta_v_k, delta_v_km1) := index_and_shift (-1) s_delta_v range_pack_m1 in
    let (delta_T_k, delta_T_km1) := index_and_shift (-1) s_delta_T range_pack_m1 in
    let (omega_int_k, omega_int_kp1) := index_and_shift 1 s_omega_int range_pack in
    let at_top := fun i => Nat.eqb (range_pack i) 0 in
    let at_bot := fun i => Nat.eqb (range_pack i) (nlevs - 1) in
    let fac : Pack := fun i => (dt / (rlit 2 * pdel k i))%A in
    (* Update u, v *)
    let u_k := subsidence_update (u_view st k) at_top at_bot fac
                 omega_int_k omega_int_kp1 delta_u_k delta_u_km1 in
    let v_k := subsidence_update (v_view st k) at_top at_bot fac
                 omega_int_k omega_int_kp1 delta_v_k delta_v_km1 in
    (* Update T *)
    let T_k := T_view st k in
    let T_new := subsidence_update_T T_k at_top at_bot fac
                 omega_int_k omega_int_kp1 delta_T_k delta_T_km1 in
    (* Add thermal expansion term due to LS vertical advection *)
    let T_new : Pack := fun i =>
      (T_new i + dt * omega k i * T_k i * Rair / (Cpair * pmid k i))%A in
    (* Update Q *)
    let Q_new := fun iq =>
      if Nat.ltb iq n_q_tracers then
        let (delta_tracer_k, delta_tracer_km1) :=
          index_and_shift (-1) (scalarize (delta_Q iq)) range_pack_m1 in
        set_pack (Q_view st iq) k
          (subsidence_update (Q_view st iq k) at_top at_bot fac
             omega_int_k omega_int_kp1 delta_tracer_k delta_tracer_km1)
      else Q_view st iq in
    {| u_view := set_pack (u_view st) k u_k;
       v_view := set_pack (v_view st) k v_k;
       T_view := set_pack (T_view st) k T_new;
       Q_view := Q_new |}) st.

Definition advance_iop_forcing (nlevs : nat) (dt : T) (divT divq : @View T)
    (Tv qv : @View T) : View * View :=
  for_loop 0 (npack nlevs) (fun k (st : View * View) =>
    let (Tv, qv) := st in
    (set_pack Tv k (pack_map2 (fun t d => t + dt * d)%A (Tv k) (divT k)),
     set_pack qv k (pack_map2 (fun q d => q + dt * d)%A (qv k) (divq k)))) (Tv, qv).

(** The assignment [A(q, ilev) = p] on a view indexed by tracer and pack. *)
Definition set_tracer_pack (A : nat -> @View T) (q ilev : nat) (p : @Pack T)
    : nat -> @View T :=
  fun q' => if Nat.eqb q' q then set_pack (A q') ilev p else A q'.

(** The kernel of [apply_iop_forcing] that computes [Qdp] from the updated
    [Q], and then [Q] again from [Qdp], over [NLEV] packs and [qsize]
    tracers. *)
Definition compute_qdp (NLEV qsize : nat) (dp3d_i : @View T)
    (Q_i Qdp_i : nat -> @View T) : (nat -> @View T) * (nat -> @View T) :=
  for_loop 0 (NLEV * qsize) (fun k (st : (nat -> @View T) * (nat -> @View T)) =>
    let (Q_i, Qdp_i) := st in
    let ilev := k / qsize in
    let q := k mod qsize in
    let Qdp_i := set_tracer_pack Qdp_i q ilev
                   (pack_map2 rmul (Q_i q ilev) (dp3d_i ilev)) in
    (* For BFB on restarts, Q needs to be updated after we compute Qdp *)
    let Q_i := set_tracer_pack Q_i q ilev
                 (pack_map2 rdiv (Qdp_i q ilev) (dp3d_i ilev)) in
    (Q_i, Qdp_i)) (Q_i, Qdp_i).
End IOP.

Section Exner.
Context {T : Type} {AT : Arith T} {PT : Pow T}.
Variable VECTOR_SIZE : nat.
Variable NUM_PHYSICAL_LEV : nat.
Variable OnGpu : bool.
Variable NDEBUG : bool.
Variable XX_NONBFB_COMING : bool.
Variable PC : PhysicalConstants T.
Variable hvcoord : HybridVCoord T.

(** "Compute exner from EOS", the first step of the kernel
    [compute_t_and_exner] of [apply_iop_forcing], at one column: [eos] was
    initialised with the mode of the simulation parameters, on which the
    step branches.  Returns [pnh] and [exner]. *)
Definition compute_exner_from_eos (theta_hydrostatic_mode : bool)
    (dp3d vtheta_dp phi_int : @View T) (hydro_p_int pnh exner : @View T)
    : Outcome (View * View) :=
  if theta_hydrostatic_mode then
    bind (ElementOps.compute_hydrostatic_p VECTOR_SIZE NUM_PHYSICAL_LEV OnGpu NDEBUG
            XX_NONBFB_COMING hvcoord dp3d hydro_p_int pnh) (fun r =>
      let (_, pnh) := r in
      Done (pnh, EquationOfState.compute_exner VECTOR_SIZE NUM_PHYSICAL_LEV PC pnh exner))
  else
    EquationOfState.compute_pnh_and_exner VECTOR_SIZE NUM_PHYSICAL_LEV OnGpu NDEBUG PC
      theta_hydrostatic_mode vtheta_dp phi_int pnh exner.
End Exner.
End HommeDynamics.

(** ** The Fortran-callable interface: scream_init, scream_run,
       scream_finalize *)

Module ScreamInterface.

(** What the three entry points call, in order, as far as the
    floating-point-exception state is concerned. *)
Inductive Callee : Type :=
| initialize_scream_session
| ad_initialize
| ad_run
| ad_finalize
| upgm_clean_up
| p3_deinit.

(** The process state seen here: the set of enabled exceptions, as the bit
    mask of [fenv.h], and the log of the calls made, each with the mask in
    force when it was entered. *)
Record World : Type := {
  enabled_fpes : Z;
  calls : list (Callee * Z)
}.

Section EntryPoints.
(** The exceptions scream enables by default (zero when the build has no
    FPE support), and what each callee leaves in the mask. *)
Variable default_fpes : Z.
Variable callee_effect : Callee -> Z -> Z.

(** Modelled from the spec: [get_enabled_fpes], [disable_all_fpes],
    [enable_fpes] and [enable_default_fpes] are not among the sources.
    The spec describes them as the means of temporarily disabling and
    later restoring a previously active FPE mask: the first reads the
    mask, the second clears it, the third enables the exceptions of its
    argument on top of the current ones, the fourth those of the default
    set. *)
Definition get_enabled_fpes (w : World) : Z := enabled_fpes w.

Definition disable_all_fpes (w : World) : World :=
  {| enabled_fpes := 0; calls := calls w |}.

Definition enable_fpes (mask : Z) (w : World) : World :=
  {| enabled_fpes := Z.lor (enabled_fpes w) mask; calls := calls w |}.

Definition enable_default_fpes (w : World) : World := enable_fpes default_fpes w.

(** A call into the session, the driver or the physics tables. *)
Definition call (c : Callee) (w : World) : World :=
  {| enabled_fpes := callee_effect c (enabled_fpes w);
     calls := calls w ++ [(c, enabled_fpes w)] |}.

Definition scream_init (w : World) : World :=
  (* First of all, disable all fpes we may have enabled. *)
  let fpe_mask := get_enabled_fpes w in
  let w := disable_all_fpes w in
  let w := call initialize_scream_session w in
  let w := call ad_initialize w in
  (* Restore the FPE flag as it was when control was handed to us. *)
  let w := disable_all_fpes w in
  enable_fpes fpe_mask w.

Definition scream_run (w : World) : World :=
  (* First of all, enable only scream fpes. *)
  let fpe_mask := get_enabled_fpes w in
  let w := disable_all_fpes w in
  let w := enable_default_fpes w in
  let w := call ad_run w in
  (* Restore the FPE flag as it was when control was handed to us. *)
  let w := disable_all_fpes w in
  enable_fpes fpe_mask w.

Definition scream_finalize (w : World) : World :=
  (* First of all, enable only scream fpes. *)
  let fpe_mask := get_enabled_fpes w in
  let w := disable_all_fpes w in
  let w := enable_default_fpes w in
  let w := call ad_finalize w in
  let w := call upgm_clean_up w in
  let w := call p3_deinit w in
  (* Restore the FPE flag as it was when control was handed to us. *)
  let w := disable_all_fpes w in
  enable_fpes fpe_mask w.

(** The calls an entry point adds to the log. *)
Definition calls_made (entry : World -> World) (w : World) : list (Callee * Z) :=
  skipn (List.length (calls w)) (calls (entry w)).
End EntryPoints.

(** The start date that [scream_init] hands to the driver: e3sm stores a
    date as the int YYYYMMDD, from which the year, the month and the day
    are taken with the [/] and [%] of C, which truncate toward zero. *)
Definition decode_start_ymd (start_ymd : Z) : Z * Z * Z :=
  let dd := Z.rem start_ymd 100 in
  let mm := Z.rem (Z.quot start_ymd 100) 100 in
  let yy := Z.quot start_ymd 10000 in
  (yy, mm, dd).
End ScreamInterface.

(** ** The I/O subsystem: output reductions *)

Module IO.

Inductive Reduction : Type := Instant | Average | Min | Max.

(** A field of the repository, as the flat host view the test loops over. *)
Record Field : Type := {
  size : nat;
  at_ : nat -> Q
}.

(** One output stream: its reduction, the accumulated view and the number
    of samples taken since the last write. *)
Record OutputStream : Type := {
  avg_type : Reduction;
  local_view : nat -> Q;
  nsamples : nat
}.

(** Modelled from the spec: the output manager ([OutputManager] and the
    scorpio output streams behind it) is not among the sources.  The spec
    gives its [run] as called once per host step and accumulating every
    output field according to the reduction of each stream: a running sum
    and count for Average, a running comparison for Min and Max, a direct
    copy for Instant; the accumulated value is written when the cadence
    elapses.  It gives the result over [N] steps as the mean of the [N]
    sampled values, the final sampled value for Instant, and for a growing
    field the final sampled value for Max and the first sampled value for
    Min: the samples are those that [run] takes, [init] takes none, and
    the running comparison starts with the first of them. *)
Definition init (r : Reduction) : OutputStream :=
  {| avg_type := r;
     local_view := fun _ => 0%Q;
     nsamples := 0 |}.

Definition run (f : Field) (s : OutputStream) : OutputStream :=
  {| avg_type := avg_type s;
     local_view :=
       match avg_type s, nsamples s with
       | Instant, _ => at_ f
       | Average, _ => fun jj => (local_view s jj + at_ f jj)%Q
       | _, O => at_ f
       | Min, S _ => fun jj => Qmin (local_view s jj) (at_ f jj)
       | Max, S _ => fun jj => Qmax (local_view s jj) (at_ f jj)
       end;
     nsamples := S (nsamples s) |}.

(** What the stream writes when its cadence elapses. *)
Definition written (s : OutputStream) : nat -> Q :=
  match avg_type s with
  | Average => fun jj => (local_view s jj / inject_Z (Z.of_nat (nsamples s)))%Q
  | _ => local_view s
  end.

(** [get_test_repo]: [field_1] holds [ii] at column [ii]. *)
Definition field_1 (num_cols : nat) : Field :=
  {| size := num_cols; at_ := fun ii => inject_Z (Z.of_nat ii) |}.

(** The body of the time loop of the test: every entry of the field grows
    by [dt], then the output manager runs. *)
Definition step (dt : Q) (st : Field * OutputStream) : Field * OutputStream :=
  let (f, om) := st in
  let f := {| size := size f;
              at_ := fun jj => if Nat.ltb jj (size f) then (at_ f jj + dt)%Q
                               else at_ f jj |} in
  (f, run f om).

Definition max_steps : nat := 10.
Definition dt : Q := 1.

(** The test for one stream: [init], [max_steps] steps, and the values the
    stream has written, which [pull_input] reads back. *)
Definition input_output_basic (r : Reduction) (num_cols : nat) : nat -> Q :=
  let f := field_1 num_cols in
  let om := init r in
  written (snd (for_loop 0 max_steps (fun _ st => step dt st) (f, om))).





(** Reference value: what a stream of reduction [r] is to hold at a column
    after [m] samples [a], [a + d], [a + 2d], ... of a field that does not
    decrease: their sum for Average, the first for Min, the last for
    Instant and Max. *)
Definition progression (a d : Q) (r : Reduction) (m : nat) : Q :=
  let n := inject_Z (Z.of_nat m) in
  match r, m with
  | Average, _ => n * a + d * (n * (n - 1) / 2)
  | _, O => 0
  | Min, S _ => a
  | _, S m' => a + inject_Z (Z.of_nat m') * d
  end%Q.
End IO.


(** ** Reference values *)

(** What a forward scan is to leave at level [k]: the initial value plus
    the inputs of the levels before [k], added in level order. *)
Fixpoint prefix_sum {T : Type} {AT : Arith T} (s0 : T) (input : nat -> T) (k : nat) : T :=
  match k with
  | O => s0
  | S k' => (prefix_sum s0 input k' + input k')%A
  end.

(** What a backward scan over [n] levels is to leave [d] levels above the
    bottom, that is at level [n - d]: the initial value plus the inputs of
    the [d] levels below, added from the bottom upward. *)
Fixpoint suffix_sum {T : Type} {AT : Arith T} (s0 : T) (input : nat -> T) (n d : nat) : T :=
  match d with
  | O => s0
  | S d' => radd (suffix_sum s0 input n d') (input (n - S d'))
  end.

(** ** Concrete columns *)

Module Examples.
(** The view that holds the listed values level by level, in packs of
    [vs] lanes, and zero past the end of the list. *)
Definition view_of (vs : nat) (l : list Q) : @View Qc :=
  fun p i => Q2Qc (nth (p * vs + i) l 0%Q).

Definition zero_view : @View Qc := fun _ _ => Q2Qc 0.



(** A hybrid coordinate with [ps0 = 100000] and [hyai(0) = 1/500]. *)
Definition hvcoord : HybridVCoord Qc :=
  {| ps0 := Q2Qc 100000;
     hybrid_ai0 := Q2Qc (1 # 500);
     hybrid_ai := fun _ => Q2Qc (1 # 500);
     m_inited := true |}.


(** Values of the physical constants as HOMME has them (the header that
    defines them is not among the sources): they serve only to evaluate
    the kernels on concrete columns. *)
Definition constants : PhysicalConstants Qc :=
  {| p0 := Q2Qc 100000;
     kappa := Q2Qc (28704 # 100500);
     Rgas := Q2Qc (28704 # 100);
     Rwater_vapor := Q2Qc (4615 # 10);
     g := Q2Qc (980616 # 100000);
     cp := Q2Qc 1005 |}.

Definition constants_R : PhysicalConstants R :=
  {| p0 := 100000%R;
     kappa := (28704 / 100500)%R;
     Rgas := (28704 / 100)%R;
     Rwater_vapor := (4615 / 10)%R;
     g := (980616 / 100000)%R;
     cp := 1005%R |}.

Definition hvcoord_R : HybridVCoord R :=
  {| ps0 := 100000%R;
     hybrid_ai0 := (1 / 500)%R;
     hybrid_ai := fun _ => (1 / 500)%R;
     m_inited := true |}.

(** Unit weights. *)
Definition unit_weights : @View Qc := fun _ _ => Q2Qc 1.

(** A three-level column for the subsidence kernel, in packs of [n]:
    midpoint pressures 1, 3, 5 between interface pressures 0, 2, 4, 6,
    uniform [omega = 1], and the profile 1, 2, 4 in the winds, the
    temperature and one tracer.  With [dt = 4] the factor
    [dt / (2 * pdel)] is 1 at every level. *)
Definition iop_pmid (n : nat) : @View Qc := view_of n [1; 3; 5]%Q.
Definition iop_pint (n : nat) : @View Qc := view_of n [0; 2; 4; 6]%Q.
Definition iop_pdel (n : nat) : @View Qc := view_of n [2; 2; 2]%Q.
Definition iop_omega (n : nat) : @View Qc := view_of n [1; 1; 1]%Q.
Definition iop_dt : Qc := Q2Qc 4.

Definition iop_state (n : nat) : HommeDynamics.ColumnState :=
  {| HommeDynamics.u_view := view_of n [1; 2; 4]%Q;
     HommeDynamics.v_view := view_of n [1; 2; 4]%Q;
     HommeDynamics.T_view := view_of n [1; 2; 4]%Q;
     HommeDynamics.Q_view := fun _ => view_of n [1; 2; 4]%Q |}.

Definition iop_scratch : HommeDynamics.Scratch :=
  {| HommeDynamics.ws_omega_int := zero_view;
     HommeDynamics.ws_delta_u := zero_view;
     HommeDynamics.ws_delta_v := zero_view;
     HommeDynamics.ws_delta_T := zero_view;
     HommeDynamics.ws_delta_Q := fun _ => zero_view |}.

(** The kernel on that column, and the winds it returns. *)
Definition iop_result (n : nat) : HommeDynamics.ColumnState :=
  HommeDynamics.advance_iop_subsidence n (Q2Qc 287) (Q2Qc 1004) 3 iop_dt (Q2Qc 6)
    (iop_pmid n) (iop_pint n) (iop_pdel n) (iop_omega n) iop_scratch 1 (iop_state n).

(** A column over the reals at the reference pressure throughout, and
    one that holds nothing yet. *)
Definition reference_pressure_R : @View R := fun _ _ => 100000%R.
Definition zero_view_R : @View R := fun _ _ => 0%R.

(** A potential temperature of 300 throughout, and a profile that grows
    by one from pack to pack. *)
Definition theta_R : @View R := fun _ _ => 300%R.
Definition ramp_R : @View R := fun p _ => INR p.

(** A column for the remap adapter, at rest over flat ground: the
    vertical velocity and the geopotential follow the ramp, the
    increments and the scratch view hold nothing yet. *)
Definition remap_column_R : @RemapStateProvider.Column R :=
  {| RemapStateProvider.m_w_i := ramp_R;
     RemapStateProvider.m_phinh_i := ramp_R;
     RemapStateProvider.m_vtheta_dp := theta_R;
     RemapStateProvider.m_v_0 := zero_view_R;
     RemapStateProvider.m_v_1 := zero_view_R;
     RemapStateProvider.m_phis := 0%R;
     RemapStateProvider.m_gradphis_0 := 0%R;
     RemapStateProvider.m_gradphis_1 := 0%R;
     RemapStateProvider.m_delta_w := zero_view_R;
     RemapStateProvider.m_delta_phinh := zero_view_R;
     RemapStateProvider.m_temp := zero_view_R |}.
End Examples.

(** * Properties *)

(** ** Packs, views and loops *)

Section PackFacts.
Context {T : Type} {AT : Arith T}.

Lemma set_lane_same (p : @Pack T) j v : set_lane p j v j = v.
Proof. unfold set_lane. now rewrite Nat.eqb_refl. Qed.

Lemma set_lane_other (p : @Pack T) j v i : i <> j -> set_lane p j v i = p i.
Proof.
  intros Hij. unfold set_lane.
  destruct (Nat.eqb_spec i j); [contradiction | reflexivity].
Qed.

Lemma set_pack_same (x : @View T) k p : set_pack x k p k = p.
Proof. unfold set_pack. now rewrite Nat.eqb_refl. Qed.

Lemma set_pack_other (x : @View T) k p i : i <> k -> set_pack x k p i = x i.
Proof.
  intros Hik. unfold set_pack.
  destruct (Nat.eqb_spec i k); [contradiction | reflexivity].
Qed.

Lemma set_entry_same (x : @View T) k j v : set_entry x k j v k j = v.
Proof. unfold set_entry. now rewrite set_pack_same, set_lane_same. Qed.

Lemma set_entry_other (x : @View T) k j v k' j' :
  k' <> k \/ j' <> j -> set_entry x k j v k' j' = x k' j'.
Proof.
  intros Hne. unfold set_entry, set_pack.
  destruct (Nat.eqb_spec k' k) as [->|]; [|reflexivity].
  apply set_lane_other. destruct Hne; [contradiction | assumption].
Qed.

(** A loop whose iteration [ilev] rewrites pack [ilev] from its own old
    contents leaves, in each pack of its range, what that one iteration
    computes. *)
Lemma for_loop_set_pack (F : nat -> @Pack T -> @Pack T) lo n (x : @View T) k :
  for_loop lo n (fun ilev x => set_pack x ilev (F ilev (x ilev))) x k =
  if Nat.leb lo k && Nat.ltb k (lo + n) then F k (x k) else x k.
Proof.
  revert lo x. induction n as [|n IH]; intros lo x; simpl.
  - destruct (Nat.leb_spec lo k), (Nat.ltb_spec k (lo + 0)); simpl; try reflexivity; lia.
  - rewrite IH. destruct (Nat.eq_dec k lo) as [->|Hne].
    + rewrite !set_pack_same.
      destruct (Nat.leb_spec (S lo) lo); [lia|]. simpl.
      destruct (Nat.leb_spec lo lo); [|lia].
      destruct (Nat.ltb_spec lo (lo + S n)); [|lia]. reflexivity.
    + rewrite !set_pack_other by assumption.
      destruct (Nat.leb_spec (S lo) k), (Nat.leb_spec lo k),
               (Nat.ltb_spec k (S lo + n)), (Nat.ltb_spec k (lo + S n));
        simpl; try reflexivity; lia.
Qed.

(** The same when the iteration reads the view, as long as it reads only
    its own pack. *)
Lemma for_loop_set_own_pack (F : nat -> @View T -> @Pack T) lo n (x : @View T) k :
  (forall j y y', y j = y' j -> F j y = F j y') ->
  for_loop lo n (fun ilev x => set_pack x ilev (F ilev x)) x k =
  if Nat.leb lo k && Nat.ltb k (lo + n) then F k x else x k.
Proof.
  intros Hown. revert lo x. induction n as [|n IH]; intros lo x; simpl.
  - destruct (Nat.leb_spec lo k), (Nat.ltb_spec k (lo + 0)); simpl; try reflexivity; lia.
  - rewrite IH. destruct (Nat.eq_dec k lo) as [->|Hne].
    + rewrite !set_pack_same.
      destruct (Nat.leb_spec (S lo) lo); [lia|]. simpl.
      destruct (Nat.leb_spec lo lo); [|lia].
      destruct (Nat.ltb_spec lo (lo + S n)); [|lia]. reflexivity.
    + rewrite !set_pack_other by assumption.
      rewrite (Hown k (set_pack x lo (F lo x)) x) by (now apply set_pack_other).
      destruct (Nat.leb_spec (S lo) k), (Nat.leb_spec lo k),
               (Nat.ltb_spec k (S lo + n)), (Nat.ltb_spec k (lo + S n));
        simpl; try reflexivity; lia.
Qed.
End PackFacts.

Lemma for_loop_invariant {St : Type} (P : nat -> St -> Prop)
    (body : nat -> St -> St) (n lo : nat) (s : St) :
  P 0 s ->
  (forall i st, i < n -> P i st -> P (S i) (body (lo + i) st)) ->
  P n (for_loop lo n body s).
Proof.
  revert P lo s. induction n as [|n IH]; intros P lo s H0 Hstep; simpl.
  - exact H0.
  - apply (IH (fun i st => P (S i) st)).
    + specialize (Hstep 0 s). rewrite Nat.add_0_r in Hstep.
      apply Hstep; [lia | exact H0].
    + intros i st Hi HP. specialize (Hstep (S i) st).
      rewrite Nat.add_succ_r in Hstep. apply Hstep; [lia | exact HP].
Qed.

(** ** The layout of a column in packs *)

Section ColInfoFacts.
Variable VECTOR_SIZE : nat.
Hypothesis VECTOR_SIZE_pos : 0 < VECTOR_SIZE.

Lemma NumPacks_succ n :
  ColumnOps.NumPacks VECTOR_SIZE (S n) = S (n / VECTOR_SIZE).
Proof.
  unfold ColumnOps.NumPacks.
  replace (S n + VECTOR_SIZE - 1) with (n + 1 * VECTOR_SIZE) by lia.
  rewrite Nat.div_add by lia. lia.
Qed.

Lemma LastPack_succ n : ColumnOps.LastPack VECTOR_SIZE (S n) = n / VECTOR_SIZE.
Proof. unfold ColumnOps.LastPack. rewrite NumPacks_succ. lia. Qed.

Lemma LastPackEnd_succ n : ColumnOps.LastPackEnd VECTOR_SIZE (S n) = n mod VECTOR_SIZE.
Proof.
  unfold ColumnOps.LastPackEnd, ColumnOps.LastPackLen. rewrite LastPack_succ.
  pose proof (Nat.div_mod_eq n VECTOR_SIZE). lia.
Qed.

Lemma level_pack_lt len k :
  k < len -> k / VECTOR_SIZE < ColumnOps.NumPacks VECTOR_SIZE len.
Proof.
  intros Hk. destruct len as [|n]; [lia|]. rewrite NumPacks_succ.
  assert (k / VECTOR_SIZE <= n / VECTOR_SIZE) by (apply Nat.Div0.div_le_mono; lia).
  lia.
Qed.

Lemma lane_lt k : k mod VECTOR_SIZE < VECTOR_SIZE.
Proof. apply Nat.mod_upper_bound. lia. Qed.

(** The level above level [k]: the previous lane of the same pack, or the
    last lane of the previous pack. *)
Lemma pred_level k :
  0 < k ->
  (k mod VECTOR_SIZE = 0 /\ 0 < k / VECTOR_SIZE /\
   (k - 1) / VECTOR_SIZE = k / VECTOR_SIZE - 1 /\
   (k - 1) mod VECTOR_SIZE = VECTOR_SIZE - 1)
  \/
  (0 < k mod VECTOR_SIZE /\
   (k - 1) / VECTOR_SIZE = k / VECTOR_SIZE /\
   (k - 1) mod VECTOR_SIZE = k mod VECTOR_SIZE - 1).
Proof.
  intros Hk.
  pose proof (Nat.div_mod_eq k VECTOR_SIZE) as E.
  pose proof (lane_lt k) as L.
  destruct (Nat.eq_dec (k mod VECTOR_SIZE) 0) as [Hz|Hnz].
  - left. assert (0 < k / VECTOR_SIZE) by nia.
    assert (D : k - 1 = VECTOR_SIZE * (k / VECTOR_SIZE - 1) + (VECTOR_SIZE - 1)) by nia.
    repeat split; try assumption.
    + symmetry. apply (Nat.div_unique _ _ _ (VECTOR_SIZE - 1)); [lia | exact D].
    + symmetry. apply (Nat.mod_unique _ _ (k / VECTOR_SIZE - 1)); [lia | exact D].
  - right.
    assert (D : k - 1 = VECTOR_SIZE * (k / VECTOR_SIZE) + (k mod VECTOR_SIZE - 1)) by lia.
    repeat split; try lia.
    + symmetry. apply (Nat.div_unique _ _ _ (k mod VECTOR_SIZE - 1)); [lia | exact D].
    + symmetry. apply (Nat.mod_unique _ _ (k / VECTOR_SIZE)); [lia | exact D].
Qed.

Lemma pack_lane_of_level p j :
  j < VECTOR_SIZE ->
  (p * VECTOR_SIZE + j) / VECTOR_SIZE = p /\ (p * VECTOR_SIZE + j) mod VECTOR_SIZE = j.
Proof.
  intros Hj. split.
  - symmetry. apply (Nat.div_unique _ _ _ j); [exact Hj | lia].
  - symmetry. apply (Nat.mod_unique _ _ p); [exact Hj | lia].
Qed.

Lemma level_pack_lane {T : Type} (x : @View T) p j :
  j < VECTOR_SIZE -> ColumnOps.level VECTOR_SIZE x (p * VECTOR_SIZE + j) = x p j.
Proof.
  intros Hj. unfold ColumnOps.level.
  destruct (pack_lane_of_level p j Hj) as [-> ->]. reflexivity.
Qed.

(** Levels are told apart by their pack and lane. *)
Lemma level_inj k k' :
  k / VECTOR_SIZE = k' / VECTOR_SIZE -> k mod VECTOR_SIZE = k' mod VECTOR_SIZE -> k = k'.
Proof.
  intros Hd Hm.
  rewrite (Nat.div_mod_eq k VECTOR_SIZE), (Nat.div_mod_eq k' VECTOR_SIZE). now rewrite Hd, Hm.
Qed.
End ColInfoFacts.

(** ** compute_interface_values *)

Section InterfaceValues.
Context {T : Type} {AT : Arith T}.
Variable VECTOR_SIZE : nat.
Variable NUM_PHYSICAL_LEV : nat.
Hypothesis VECTOR_SIZE_pos : 0 < VECTOR_SIZE.
Hypothesis NUM_PHYSICAL_LEV_pos : 0 < NUM_PHYSICAL_LEV.


Lemma last_interface_pack :
  ColumnOps.LastPack VECTOR_SIZE (ColumnOps.NUM_INTERFACE_LEV NUM_PHYSICAL_LEV) = NUM_PHYSICAL_LEV / VECTOR_SIZE.
Proof.
  unfold ColumnOps.NUM_INTERFACE_LEV. rewrite Nat.add_1_r. now apply LastPack_succ.
Qed.

Lemma last_interface_lane :
  ColumnOps.LastPackEnd VECTOR_SIZE (ColumnOps.NUM_INTERFACE_LEV NUM_PHYSICAL_LEV) = NUM_PHYSICAL_LEV mod VECTOR_SIZE.
Proof.
  unfold ColumnOps.NUM_INTERFACE_LEV. rewrite Nat.add_1_r. now apply LastPackEnd_succ.
Qed.

Lemma last_midpoint_pack :
  ColumnOps.LastPack VECTOR_SIZE NUM_PHYSICAL_LEV = (NUM_PHYSICAL_LEV - 1) / VECTOR_SIZE.
Proof.
  destruct NUM_PHYSICAL_LEV as [|n]; [lia|].
  rewrite LastPack_succ by assumption. f_equal. lia.
Qed.

Lemma last_midpoint_lane :
  ColumnOps.LastPackEnd VECTOR_SIZE NUM_PHYSICAL_LEV = (NUM_PHYSICAL_LEV - 1) mod VECTOR_SIZE.
Proof.
  destruct NUM_PHYSICAL_LEV as [|n]; [lia|].
  rewrite LastPackEnd_succ by assumption. f_equal. lia.
Qed.

Lemma compute_interface_values_simd_replace (x_m x_i : @View T) (alpha beta : T) :
  (forall a b : T, (a + b)%A = (b + a)%A) ->
  let out := ColumnOps.compute_interface_values_simd VECTOR_SIZE NUM_PHYSICAL_LEV Replace x_m x_i alpha beta in
  ColumnOps.level VECTOR_SIZE out 0 = ColumnOps.level VECTOR_SIZE x_m 0 /\
  ColumnOps.level VECTOR_SIZE out NUM_PHYSICAL_LEV = ColumnOps.level VECTOR_SIZE x_m (NUM_PHYSICAL_LEV - 1) /\
  forall k, 0 < k < NUM_PHYSICAL_LEV ->
    ColumnOps.level VECTOR_SIZE out k = ((ColumnOps.level VECTOR_SIZE x_m k + ColumnOps.level VECTOR_SIZE x_m (k - 1)) / rlit 2)%A.
Proof.
  intros add_comm out. subst out.
  unfold ColumnOps.compute_interface_values_simd. cbv zeta.
  rewrite last_interface_pack, last_interface_lane, last_midpoint_pack, last_midpoint_lane.
  unfold ColumnOps.level.
  assert (Hbot : NUM_PHYSICAL_LEV / VECTOR_SIZE <> 0 \/ NUM_PHYSICAL_LEV mod VECTOR_SIZE <> 0).
  { destruct (Nat.eq_dec (NUM_PHYSICAL_LEV / VECTOR_SIZE) 0) as [Hd|]; [|now left].
    right. intros Hm. pose proof (Nat.div_mod_eq NUM_PHYSICAL_LEV VECTOR_SIZE). nia. }
  split; [|split].
  - rewrite Nat.Div0.div_0_l, Nat.Div0.mod_0_l.
    rewrite set_entry_other by (destruct Hbot; [left|right]; congruence).
    now rewrite set_entry_same.
  - now rewrite set_entry_same.
  - intros k [Hk0 HkN].
    assert (Hne : k / VECTOR_SIZE <> NUM_PHYSICAL_LEV / VECTOR_SIZE \/ k mod VECTOR_SIZE <> NUM_PHYSICAL_LEV mod VECTOR_SIZE).
    { destruct (Nat.eq_dec (k / VECTOR_SIZE) (NUM_PHYSICAL_LEV / VECTOR_SIZE)) as [Hd|]; [|now left].
      right. intros Hm. pose proof (level_inj VECTOR_SIZE _ _ Hd Hm). lia. }
    rewrite set_entry_other by exact Hne.
    assert (Hne0 : k / VECTOR_SIZE <> 0 \/ k mod VECTOR_SIZE <> 0).
    { destruct (Nat.eq_dec (k / VECTOR_SIZE) 0) as [Hd|]; [|now left].
      right. intros Hm. pose proof (Nat.div_mod_eq k VECTOR_SIZE). nia. }
    rewrite set_entry_other by exact Hne0.
    pose proof (level_pack_lt VECTOR_SIZE VECTOR_SIZE_pos NUM_PHYSICAL_LEV k HkN) as Hpk.
    fold (ColumnOps.NUM_LEV VECTOR_SIZE NUM_PHYSICAL_LEV) in Hpk.
    destruct (pred_level VECTOR_SIZE VECTOR_SIZE_pos k Hk0) as [(Hm & Hd & Ed & Em)|(Hm & Ed & Em)];
      rewrite Ed, Em.
    + rewrite set_pack_other by lia.
      rewrite (for_loop_set_pack
        (fun ilev p => ColumnOps.combine_pack Replace
           (pack_map (fun v => (v / rlit 2)%A)
              (pack_map2 radd
                 (set_lane (shift_right1 (x_m ilev)) 0 (x_m (ilev - 1) (ColumnOps.VECTOR_END VECTOR_SIZE)))
                 (x_m ilev))) p alpha beta)).
      destruct (Nat.leb_spec 1 (k / VECTOR_SIZE)); [|lia].
      destruct (Nat.ltb_spec (k / VECTOR_SIZE) (1 + (ColumnOps.NUM_LEV VECTOR_SIZE NUM_PHYSICAL_LEV - 1))); [|lia].
      simpl. unfold ColumnOps.combine_pack, ColumnOps.combine, pack_map, pack_map2.
      rewrite Hm, set_lane_same. unfold ColumnOps.VECTOR_END.
      now rewrite add_comm.
    + destruct (Nat.eq_dec (k / VECTOR_SIZE) 0) as [Hz|Hnz].
      * rewrite Hz, set_pack_same.
        unfold ColumnOps.combine_pack, ColumnOps.combine, pack_map, pack_map2, shift_right1.
        destruct (k mod VECTOR_SIZE) as [|j]; [lia|]. simpl.
        rewrite Nat.sub_0_r. now rewrite add_comm.
      * rewrite set_pack_other by assumption.
        rewrite (for_loop_set_pack
          (fun ilev p => ColumnOps.combine_pack Replace
             (pack_map (fun v => (v / rlit 2)%A)
                (pack_map2 radd
                   (set_lane (shift_right1 (x_m ilev)) 0 (x_m (ilev - 1) (ColumnOps.VECTOR_END VECTOR_SIZE)))
                   (x_m ilev))) p alpha beta)).
        destruct (Nat.leb_spec 1 (k / VECTOR_SIZE)); [|lia].
        destruct (Nat.ltb_spec (k / VECTOR_SIZE) (1 + (ColumnOps.NUM_LEV VECTOR_SIZE NUM_PHYSICAL_LEV - 1))); [|lia].
        simpl. unfold ColumnOps.combine_pack, ColumnOps.combine, pack_map, pack_map2.
        rewrite set_lane_other by lia. unfold shift_right1.
        destruct (k mod VECTOR_SIZE) as [|j]; [lia|]. simpl.
        rewrite Nat.sub_0_r. now rewrite add_comm.
Qed.

(** The device path, where packs hold one level each. *)
Lemma compute_interface_values_gpu_replace (x_m x_i : @View T) (alpha beta : T) :
  let out := ColumnOps.compute_interface_values_gpu NUM_PHYSICAL_LEV Replace x_m x_i alpha beta in
  out 0 0 = x_m 0 0 /\
  out NUM_PHYSICAL_LEV 0 = x_m (NUM_PHYSICAL_LEV - 1) 0 /\
  forall k, 0 < k < NUM_PHYSICAL_LEV ->
    out k 0 = ((x_m k 0 + x_m (k - 1)%nat 0) / rlit 2)%A.
Proof.
  intros out. subst out. unfold ColumnOps.compute_interface_values_gpu. cbv zeta.
  unfold ColumnOps.NUM_INTERFACE_LEV.
  replace (NUM_PHYSICAL_LEV + 1 - 1) with NUM_PHYSICAL_LEV by lia.
  split; [|split].
  - rewrite set_pack_other by lia. now rewrite set_pack_same.
  - now rewrite set_pack_same.
  - intros k [Hk0 HkN].
    rewrite !set_pack_other by lia.
    rewrite (for_loop_set_pack
      (fun ilev p => ColumnOps.combine_pack Replace
         (pack_map (fun v => (v / rlit 2)%A)
            (pack_map2 radd (x_m ilev) (x_m (ilev - 1)))) p alpha beta)).
    destruct (Nat.leb_spec 1 k); [|lia].
    destruct (Nat.ltb_spec k (1 + (NUM_PHYSICAL_LEV - 1))); [|lia].
    reflexivity.
Qed.

(** C10.  For every midpoint column, [compute_interface_values] with
    [CombineMode::Replace] returns (whenever the debug check accepts
    [alpha] and [beta]) an interface column whose top entry is the first
    midpoint, whose bottom entry is the last midpoint, and whose interior
    entries are the mean of the two adjacent midpoints.  Both the device
    path (packs of one level) and the SIMD path are covered; the latter
    adds the two midpoints in the other order, hence the commutativity of
    the addition. *)
Theorem compute_interface_values_replace_levels
    (OnGpu NDEBUG : bool) (x_m x_i : @View T) (alpha beta : T) :
  (OnGpu = true -> VECTOR_SIZE = 1) ->
  (forall a b : T, (a + b)%A = (b + a)%A) ->
  ColumnOps.debug_sanity_check NDEBUG Replace alpha beta = Done tt ->
  exists out,
    ColumnOps.compute_interface_values VECTOR_SIZE NUM_PHYSICAL_LEV OnGpu NDEBUG
      Replace x_m x_i alpha beta = Done out /\
    ColumnOps.level VECTOR_SIZE out 0 = ColumnOps.level VECTOR_SIZE x_m 0 /\
    ColumnOps.level VECTOR_SIZE out NUM_PHYSICAL_LEV =
      ColumnOps.level VECTOR_SIZE x_m (NUM_PHYSICAL_LEV - 1) /\
    forall k, 0 < k < NUM_PHYSICAL_LEV ->
      ColumnOps.level VECTOR_SIZE out k =
        ((ColumnOps.level VECTOR_SIZE x_m k + ColumnOps.level VECTOR_SIZE x_m (k - 1))
         / rlit 2)%A.
Proof.
  intros Hgpu add_comm Hcheck.
  unfold ColumnOps.compute_interface_values. rewrite Hcheck. simpl.
  eexists. split; [reflexivity|].
  destruct OnGpu.
  - rewrite (Hgpu eq_refl). unfold ColumnOps.level.
    destruct (compute_interface_values_gpu_replace x_m x_i alpha beta) as (Ht & Hb & Hi).
    rewrite !Nat.div_1_r, !Nat.mod_1_r. split; [exact Ht | split; [exact Hb|]].
    intros k Hk. rewrite !Nat.div_1_r, !Nat.mod_1_r. now apply Hi.
  - now apply compute_interface_values_simd_replace.
Qed.
End InterfaceValues.

(** An instance: three levels in packs of two, on the host, with the debug
    check in force. *)
Lemma compute_interface_values_replace_levels_witness :
  0 < 2 /\ 0 < 3 /\ (false = true -> 2 = 1) /\
  (forall a b : Qc, (a + b)%A = (b + a)%A) /\
  ColumnOps.debug_sanity_check false Replace (Q2Qc 1) (Q2Qc 0) = Done tt /\
  exists out,
    ColumnOps.compute_interface_values 2 3 false false Replace
      (Examples.view_of 2 [1; 2; 4]%Q) Examples.zero_view (Q2Qc 1) (Q2Qc 0) = Done out /\
    ColumnOps.level 2 out 0 = ColumnOps.level 2 (Examples.view_of 2 [1; 2; 4]%Q) 0 /\
    ColumnOps.level 2 out 3 = ColumnOps.level 2 (Examples.view_of 2 [1; 2; 4]%Q) (3 - 1) /\
    forall k, 0 < k < 3 ->
      ColumnOps.level 2 out k =
        ((ColumnOps.level 2 (Examples.view_of 2 [1; 2; 4]%Q) k
          + ColumnOps.level 2 (Examples.view_of 2 [1; 2; 4]%Q) (k - 1)) / rlit 2)%A.
Proof.
  split; [lia|]. split; [lia|]. split; [intro H; discriminate H|].
  split; [exact Qcplus_comm|]. split; [reflexivity|].
  apply (compute_interface_values_replace_levels (T:=Qc) 2 3);
    [lia | lia | intro H; discriminate H | exact Qcplus_comm | reflexivity].
Defined.

(** ** column_scan and the hydrostatic pressure *)

Section ForwardScan.
Context {T : Type} {AT : Arith T}.
Variable VECTOR_SIZE : nat.
Hypothesis VECTOR_SIZE_pos : 0 < VECTOR_SIZE.
Hypothesis add_0_r : forall x : T, (x + rlit 0)%A = x.

(** The host scan, forward and exclusive over [n + 1] levels, leaves the
    prefix sums of its input in all of them. *)
Lemma column_scan_host_forward_exclusive (n : nat) (input sum : @View T) (s0 : T) k :
  k <= n ->
  ColumnOps.level VECTOR_SIZE
    (ColumnOps.column_scan_impl_host VECTOR_SIZE true false (S n) input sum s0) k =
  prefix_sum s0 (ColumnOps.level VECTOR_SIZE input) k.
Proof.
  intros Hk. unfold ColumnOps.column_scan_impl_host. cbv zeta.
  rewrite NumPacks_succ, LastPack_succ, LastPackEnd_succ by assumption.
  set (prefix := prefix_sum s0 (ColumnOps.level VECTOR_SIZE input)).
  match goal with |- ColumnOps.level _ (fst (for_loop 0 ?N ?body ?s)) _ = _ =>
    pose proof (for_loop_invariant
      (fun m (st : View * T) =>
         (forall k, k <= n -> k / VECTOR_SIZE < m ->
            fst st (k / VECTOR_SIZE) (k mod VECTOR_SIZE) = prefix k) /\
         (m <= n / VECTOR_SIZE -> snd st = prefix (m * VECTOR_SIZE)))
      body N 0 s) as Inv
  end.
  cbv beta in Inv. unfold ColumnOps.level at 1. apply Inv; clear Inv.
  - split; [intros; lia | intros _; reflexivity].
  - intros i [sm integ] Hi [Hsum Hint]. cbn [Nat.add fst snd] in *.
    set (vec_end := if Nat.eqb i (n / VECTOR_SIZE) then n mod VECTOR_SIZE
                    else ColumnOps.VECTOR_END VECTOR_SIZE).
    assert (Hve : vec_end < VECTOR_SIZE).
    { subst vec_end. destruct (Nat.eqb i (n / VECTOR_SIZE));
        [apply lane_lt; assumption | unfold ColumnOps.VECTOR_END; lia]. }
    match goal with |- context [for_loop 1 vec_end ?inner ?sv0] =>
      pose proof (for_loop_invariant
        (fun j (sv : @Pack T) => forall l, l <= j -> sv l = prefix (i * VECTOR_SIZE + l))
        inner vec_end 1 sv0) as Inner;
      set (sv := for_loop 1 vec_end inner sv0) in *
    end.
    cbv beta in Inner.
    assert (Hsv : forall l, l <= vec_end -> sv l = prefix (i * VECTOR_SIZE + l)).
    { apply Inner; clear Inner.
      - intros l Hl. replace l with 0 by lia. rewrite set_lane_same, add_0_r.
        rewrite Nat.add_0_r. apply Hint. lia.
      - intros j st Hj Hst l Hl. cbn [Nat.add].
        destruct (Nat.eq_dec l (S j)) as [->|Hne].
        + rewrite set_lane_same. replace (S j - 1) with j by lia.
          rewrite Hst by lia. rewrite Nat.add_succ_r. cbn [prefix_sum].
          subst prefix. cbn [prefix_sum].
          rewrite (level_pack_lane VECTOR_SIZE VECTOR_SIZE_pos input i j) by lia.
          reflexivity.
        + rewrite set_lane_other by assumption. apply Hst. lia. }
    split.
    + intros k' Hk' Hlt.
      pose proof (Nat.div_mod_eq k' VECTOR_SIZE) as Ek.
      destruct (Nat.eq_dec (k' / VECTOR_SIZE) i) as [Heq|Hne].
      * rewrite Heq, set_pack_same. rewrite Hsv.
        -- f_equal. lia.
        -- subst vec_end. destruct (Nat.eqb_spec i (n / VECTOR_SIZE)) as [Hl|Hl].
           ++ pose proof (Nat.div_mod_eq n VECTOR_SIZE). nia.
           ++ pose proof (lane_lt VECTOR_SIZE VECTOR_SIZE_pos k').
              unfold ColumnOps.VECTOR_END. lia.
      * rewrite set_pack_other by assumption. apply Hsum; [assumption | lia].
    + intros Hle. rewrite Hsv by lia.
      assert (Ev : vec_end = VECTOR_SIZE - 1).
      { subst vec_end. destruct (Nat.eqb_spec i (n / VECTOR_SIZE)); [lia | reflexivity]. }
      rewrite Ev.
      replace (S i * VECTOR_SIZE) with (S (i * VECTOR_SIZE + (VECTOR_SIZE - 1))) by lia.
      subst prefix. cbn [prefix_sum].
      rewrite (level_pack_lane VECTOR_SIZE VECTOR_SIZE_pos input i (VECTOR_SIZE - 1)) by lia.
      reflexivity.
  - exact Hk.
  - pose proof (Nat.Div0.div_le_mono k n VECTOR_SIZE Hk). lia.
Qed.

Hypothesis add_0_l : forall x : T, (rlit 0 + x)%A = x.
Hypothesis add_comm : forall a b : T, (a + b)%A = (b + a)%A.

(** The device scan, taken in level order: pack 0 keeps the initial value
    and pack [k] receives the prefix sum of level [k]. *)
Lemma column_scan_gpu_forward_exclusive (n : nat) (input sum : @View T) (s0 : T) :
  let out := ColumnOps.column_scan_impl_gpu true false (S n) input sum s0 in
  out 0 = sum 0 /\
  forall k, 1 <= k <= n -> out k 0 = prefix_sum s0 (fun j => input j 0) k.
Proof.
  intros out. subst out. unfold ColumnOps.column_scan_impl_gpu. cbv zeta.
  set (prefix := prefix_sum s0 (fun j => input j 0)).
  match goal with |- fst (for_loop 0 ?N ?body ?s) 0 = _ /\ _ =>
    pose proof (for_loop_invariant
      (fun m (st : View * T) =>
         fst st 0 = sum 0 /\
         (forall k, 1 <= k <= n -> k <= m -> fst st k 0 = prefix k) /\
         (0 < m -> snd st = prefix m) /\
         (m = 0 -> snd st = rlit 0))
      body N 0 s) as Inv
  end.
  cbv beta in Inv. destruct Inv as (H0 & Hk & _).
  - repeat split; try reflexivity; intros; lia.
  - intros i [sm acc] Hi (I0 & Ik & Iacc & Izero).
    cbn [fst snd] in I0, Ik, Iacc, Izero. cbn [Nat.add fst snd].
    assert (Hacc : (if Nat.eqb i 0 then (acc + input i 0 + s0)%A
                    else (acc + input i 0)%A) = prefix (S i)).
    { subst prefix. cbn [prefix_sum]. destruct (Nat.eqb_spec i 0) as [->|Hne].
      - rewrite Izero by reflexivity. rewrite add_0_l. cbn [prefix_sum]. apply add_comm.
      - rewrite Iacc by lia. reflexivity. }
    rewrite Hacc. repeat split.
    + destruct (Nat.leb (i + 1 + 1) (S n)); [|exact I0].
      rewrite set_pack_other by lia. exact I0.
    + intros k Hk Hle. destruct (Nat.leb_spec (i + 1 + 1) (S n)).
      * destruct (Nat.eq_dec k (i + 1)) as [->|Hne].
        -- rewrite set_pack_same. f_equal. lia.
        -- rewrite set_pack_other by assumption. apply Ik; lia.
      * apply Ik; lia.
    + lia.
  - split; [exact H0 | intros k Hk1; apply Hk; lia].
Qed.
End ForwardScan.

Section HydrostaticPressure.
Context {T : Type} {AT : Arith T} {PT : Pow T}.
Variable VECTOR_SIZE : nat.
Variable NUM_PHYSICAL_LEV : nat.
Variable OnGpu : bool.
Variable NDEBUG : bool.
Hypothesis VECTOR_SIZE_pos : 0 < VECTOR_SIZE.
Hypothesis gpu_vector_size : OnGpu = true -> VECTOR_SIZE = 1.
Hypothesis add_0_r : forall x : T, (x + rlit 0)%A = x.
Hypothesis add_0_l : forall x : T, (rlit 0 + x)%A = x.
Hypothesis add_comm : forall a b : T, (a + b)%A = (b + a)%A.

(** The forward scan from midpoints to interfaces, on either path. *)
Lemma column_scan_mid_to_int_forward (input sum : @View T) k :
  k <= NUM_PHYSICAL_LEV ->
  ColumnOps.level VECTOR_SIZE
    (ColumnOps.column_scan_mid_to_int VECTOR_SIZE NUM_PHYSICAL_LEV OnGpu true input sum) k =
  prefix_sum (sum 0 0) (ColumnOps.level VECTOR_SIZE input) k.
Proof.
  intros Hk. unfold ColumnOps.column_scan_mid_to_int, ColumnOps.column_scan_impl,
    ColumnOps.NUM_INTERFACE_LEV.
  rewrite Nat.add_1_r. destruct OnGpu.
  - rewrite (gpu_vector_size eq_refl). unfold ColumnOps.level.
    rewrite Nat.div_1_r, Nat.mod_1_r.
    destruct (column_scan_gpu_forward_exclusive 1 Nat.lt_0_1 add_0_l add_comm
                NUM_PHYSICAL_LEV input sum (sum 0 0)) as (H0 & Hpos).
    destruct k as [|k].
    + rewrite H0. reflexivity.
    + rewrite Hpos by lia. clear. induction (S k) as [|j IH]; [reflexivity|].
      cbn [prefix_sum]. rewrite IH, Nat.div_1_r, Nat.mod_1_r. reflexivity.
  - now apply column_scan_host_forward_exclusive.
Qed.

(** The interface pressure computed by both [compute_hydrostatic_p]. *)
Lemma hydrostatic_interface_pressure (hv : HybridVCoord T) (dp p_i : @View T) :
  let p_i' := ColumnOps.column_scan_mid_to_int VECTOR_SIZE NUM_PHYSICAL_LEV OnGpu true dp
                (set_entry p_i 0 0 (hybrid_ai0 hv * ps0 hv)%A) in
  ColumnOps.level VECTOR_SIZE p_i' 0 = (hybrid_ai0 hv * ps0 hv)%A /\
  forall k, k < NUM_PHYSICAL_LEV ->
    ColumnOps.level VECTOR_SIZE p_i' (k + 1) =
      (ColumnOps.level VECTOR_SIZE p_i' k + ColumnOps.level VECTOR_SIZE dp k)%A.
Proof.
  intros p_i'. subst p_i'. split.
  - rewrite column_scan_mid_to_int_forward by lia. cbn [prefix_sum].
    apply set_entry_same.
  - intros k Hk. rewrite !column_scan_mid_to_int_forward by lia.
    rewrite Nat.add_1_r. reflexivity.
Qed.

(** C3.  For every layer-thickness column [dp] (positive or not),
    [compute_hydrostatic_p], in EquationOfState as in ElementOps, returns
    an interface pressure whose top entry is [hyai(0)*ps0] and in which
    each entry is the one above it plus the thickness of the layer between
    them.  The scan adds a literal zero to the running integral at the
    start of each pack, and the device scan starts its accumulator from
    zero and adds the first thickness before the initial value: hence the
    three laws of the addition. *)
Theorem compute_hydrostatic_p_interfaces
    (hv : HybridVCoord T) (hydrostatic XX_NONBFB_COMING : bool) (dp p_i pi : @View T) :
  c_assert NDEBUG hydrostatic "m_theta_hydrostatic_mode" = Done tt ->
  ColumnOps.debug_sanity_check NDEBUG Replace (rlit 1) (rlit 0) = Done tt ->
  (exists p_i' pi',
    EquationOfState.compute_hydrostatic_p VECTOR_SIZE NUM_PHYSICAL_LEV OnGpu NDEBUG
      hydrostatic hv dp p_i pi = Done (p_i', pi') /\
    ColumnOps.level VECTOR_SIZE p_i' 0 = (hybrid_ai0 hv * ps0 hv)%A /\
    forall k, k < NUM_PHYSICAL_LEV ->
      ColumnOps.level VECTOR_SIZE p_i' (k + 1) =
        (ColumnOps.level VECTOR_SIZE p_i' k + ColumnOps.level VECTOR_SIZE dp k)%A)
  /\
  (exists p_i' pi',
    ElementOps.compute_hydrostatic_p VECTOR_SIZE NUM_PHYSICAL_LEV OnGpu NDEBUG
      XX_NONBFB_COMING hv dp p_i pi = Done (p_i', pi') /\
    ColumnOps.level VECTOR_SIZE p_i' 0 = (hybrid_ai0 hv * ps0 hv)%A /\
    forall k, k < NUM_PHYSICAL_LEV ->
      ColumnOps.level VECTOR_SIZE p_i' (k + 1) =
        (ColumnOps.level VECTOR_SIZE p_i' k + ColumnOps.level VECTOR_SIZE dp k)%A).
Proof.
  intros Hassert Hcheck. split.
  - unfold EquationOfState.compute_hydrostatic_p. rewrite Hassert. cbn [bind].
    unfold ColumnOps.compute_midpoint_values. rewrite Hcheck. cbn [bind].
    do 2 eexists. split; [reflexivity|]. apply hydrostatic_interface_pressure.
  - unfold ElementOps.compute_hydrostatic_p. destruct XX_NONBFB_COMING.
    + unfold ColumnOps.compute_midpoint_values. rewrite Hcheck. cbn [bind].
      do 2 eexists. split; [reflexivity|]. apply hydrostatic_interface_pressure.
    + do 2 eexists. split; [reflexivity|]. apply hydrostatic_interface_pressure.
Qed.
End HydrostaticPressure.

(** An instance: thicknesses 1, 2, 4 in packs of two, on the host. *)
Lemma compute_hydrostatic_p_interfaces_witness :
  0 < 2 /\ (false = true -> 2 = 1) /\
  (forall x : Qc, (x + rlit 0)%A = x) /\
  (forall x : Qc, (rlit 0 + x)%A = x) /\
  (forall a b : Qc, (a + b)%A = (b + a)%A) /\
  c_assert false true "m_theta_hydrostatic_mode" = Done tt /\
  ColumnOps.debug_sanity_check false Replace (Q2Qc 1) (Q2Qc 0) = Done tt /\
  ((exists p_i' pi',
     EquationOfState.compute_hydrostatic_p 2 3 false false true Examples.hvcoord
       (Examples.view_of 2 [1; 2; 4]%Q) Examples.zero_view Examples.zero_view
       = Done (p_i', pi') /\
     ColumnOps.level 2 p_i' 0 = (hybrid_ai0 Examples.hvcoord * ps0 Examples.hvcoord)%A /\
     forall k, k < 3 ->
       ColumnOps.level 2 p_i' (k + 1) =
         (ColumnOps.level 2 p_i' k
          + ColumnOps.level 2 (Examples.view_of 2 [1; 2; 4]%Q) k)%A)
   /\
   (exists p_i' pi',
     ElementOps.compute_hydrostatic_p 2 3 false false false Examples.hvcoord
       (Examples.view_of 2 [1; 2; 4]%Q) Examples.zero_view Examples.zero_view
       = Done (p_i', pi') /\
     ColumnOps.level 2 p_i' 0 = (hybrid_ai0 Examples.hvcoord * ps0 Examples.hvcoord)%A /\
     forall k, k < 3 ->
       ColumnOps.level 2 p_i' (k + 1) =
         (ColumnOps.level 2 p_i' k
          + ColumnOps.level 2 (Examples.view_of 2 [1; 2; 4]%Q) k)%A)).
Proof.
  split; [lia|]. split; [intro H; discriminate H|].
  split; [exact Qcplus_0_r|]. split; [exact Qcplus_0_l|]. split; [exact Qcplus_comm|].
  split; [reflexivity|]. split; [reflexivity|].
  apply (compute_hydrostatic_p_interfaces (T:=Qc) 2 3 false false);
    [lia | intro H; discriminate H | exact Qcplus_0_r | exact Qcplus_0_l
     | exact Qcplus_comm | reflexivity | reflexivity].
Defined.

(** ** compute_dpnh_dp_i *)

Section PressureDerivative.
Context {T : Type} {AT : Arith T} {PT : Pow T}.
Variable VECTOR_SIZE : nat.
Variable NUM_PHYSICAL_LEV : nat.
Hypothesis VECTOR_SIZE_pos : 0 < VECTOR_SIZE.
Hypothesis NUM_PHYSICAL_LEV_pos : 0 < NUM_PHYSICAL_LEV.

(** The interior of the interface delta without boundary treatment, on
    the SIMD path and on the device path. *)
Lemma compute_interface_delta_simd_interior (x_m dx_i : @View T) (bcVal alpha beta : T) k :
  0 < k < NUM_PHYSICAL_LEV ->
  ColumnOps.level VECTOR_SIZE
    (ColumnOps.compute_interface_delta_simd VECTOR_SIZE NUM_PHYSICAL_LEV
       Replace DoNothing x_m dx_i bcVal alpha beta) k =
  (ColumnOps.level VECTOR_SIZE x_m k - ColumnOps.level VECTOR_SIZE x_m (k - 1))%A.
Proof.
  intros [Hk0 HkN].
  unfold ColumnOps.compute_interface_delta_simd, ColumnOps.interface_delta_bc. cbv zeta.
  unfold ColumnOps.level.
  pose proof (level_pack_lt VECTOR_SIZE VECTOR_SIZE_pos NUM_PHYSICAL_LEV k HkN) as Hpk.
  fold (ColumnOps.NUM_LEV VECTOR_SIZE NUM_PHYSICAL_LEV) in Hpk.
  destruct (pred_level VECTOR_SIZE VECTOR_SIZE_pos k Hk0) as [(Hm & Hd & Ed & Em)|(Hm & Ed & Em)];
    rewrite Ed, Em.
  - rewrite set_pack_other by lia.
    rewrite (for_loop_set_pack
      (fun ilev p => ColumnOps.combine_pack Replace
         (pack_map2 rsub (x_m ilev)
            (set_lane (shift_right1 (x_m ilev)) 0
               (x_m (ilev - 1) (ColumnOps.VECTOR_END VECTOR_SIZE)))) p alpha beta)).
    destruct (Nat.leb_spec 1 (k / VECTOR_SIZE)); [|lia].
    destruct (Nat.ltb_spec (k / VECTOR_SIZE)
                (1 + (ColumnOps.NUM_LEV VECTOR_SIZE NUM_PHYSICAL_LEV - 1))); [|lia].
    simpl. unfold ColumnOps.combine_pack, ColumnOps.combine, pack_map2.
    rewrite Hm, set_lane_same. reflexivity.
  - destruct (Nat.eq_dec (k / VECTOR_SIZE) 0) as [Hz|Hnz].
    + rewrite Hz, set_pack_same.
      unfold ColumnOps.combine_pack, ColumnOps.combine, pack_map2, shift_right1.
      destruct (k mod VECTOR_SIZE) as [|j]; [lia|]. simpl.
      now rewrite Nat.sub_0_r.
    + rewrite set_pack_other by assumption.
      rewrite (for_loop_set_pack
        (fun ilev p => ColumnOps.combine_pack Replace
           (pack_map2 rsub (x_m ilev)
              (set_lane (shift_right1 (x_m ilev)) 0
                 (x_m (ilev - 1) (ColumnOps.VECTOR_END VECTOR_SIZE)))) p alpha beta)).
      destruct (Nat.leb_spec 1 (k / VECTOR_SIZE)); [|lia].
      destruct (Nat.ltb_spec (k / VECTOR_SIZE)
                  (1 + (ColumnOps.NUM_LEV VECTOR_SIZE NUM_PHYSICAL_LEV - 1))); [|lia].
      simpl. unfold ColumnOps.combine_pack, ColumnOps.combine, pack_map2.
      rewrite set_lane_other by lia. unfold shift_right1.
      destruct (k mod VECTOR_SIZE) as [|j]; [lia|]. simpl.
      now rewrite Nat.sub_0_r.
Qed.

Lemma compute_interface_delta_gpu_interior (x_m dx_i : @View T) (bcVal alpha beta : T) k :
  0 < k < NUM_PHYSICAL_LEV ->
  ColumnOps.compute_interface_delta_gpu NUM_PHYSICAL_LEV
    Replace DoNothing x_m dx_i bcVal alpha beta k 0 =
  (x_m k 0 - x_m (k - 1)%nat 0)%A.
Proof.
  intros [Hk0 HkN].
  unfold ColumnOps.compute_interface_delta_gpu, ColumnOps.interface_delta_bc. cbv zeta.
  rewrite (for_loop_set_pack
    (fun ilev p => ColumnOps.combine_pack Replace
       (pack_map2 rsub (x_m ilev) (x_m (ilev - 1))) p alpha beta)).
  destruct (Nat.leb_spec 1 k); [|lia].
  destruct (Nat.ltb_spec k (1 + (NUM_PHYSICAL_LEV - 1))); [|lia].
  reflexivity.
Qed.

Variable OnGpu : bool.
Variable NDEBUG : bool.
Hypothesis gpu_vector_size : OnGpu = true -> VECTOR_SIZE = 1.

End PressureDerivative.

(** The laws of exact arithmetic that the statements above assume, on the
    canonical rationals. *)
Lemma Qc_add_sub_cancel : forall a b : Qc, (a + b - a)%A = b.
Proof. intros a b. simpl. ring. Qed.




(** ** RemapStateProvider *)

(** C7.  The remap adapter declares five states, of which the two
    horizontal-velocity indices 3 and 4 are intrinsic and the indices 0, 1
    and 2 are not, with or without the assertion on the index. *)
Theorem remap_intrinsic_states (NDEBUG : bool) :
  RemapStateProvider.num_states_remap = 5%Z /\
  RemapStateProvider.is_intrinsic_state NDEBUG 3 = Done true /\
  RemapStateProvider.is_intrinsic_state NDEBUG 4 = Done true /\
  RemapStateProvider.is_intrinsic_state NDEBUG 0 = Done false /\
  RemapStateProvider.is_intrinsic_state NDEBUG 1 = Done false /\
  RemapStateProvider.is_intrinsic_state NDEBUG 2 = Done false.
Proof. destruct NDEBUG; repeat split; reflexivity. Qed.

(** ** sanity_check *)

Section SanityCheck.
Context {T : Type} {AT : Arith T}.
Variable VECTOR_SIZE : nat.
Variable NUM_PHYSICAL_LEV : nat.
Variable OnGpu : bool.

Lemma debug_sanity_check_outcome (NDEBUG : bool) (CM : CombineMode) (alpha beta : T) :
  if NDEBUG
     || ((ColumnOps.needsAlpha CM || req alpha (rlit 1))
         && (ColumnOps.needsBeta CM || req beta (rlit 0)))
  then ColumnOps.debug_sanity_check NDEBUG CM alpha beta = Done tt
  else exists message, ColumnOps.debug_sanity_check NDEBUG CM alpha beta = Fatal message.
Proof.
  unfold ColumnOps.debug_sanity_check, ColumnOps.sanity_check, runtime_check.
  destruct NDEBUG; [reflexivity|]. cbn [orb].
  destruct (ColumnOps.needsAlpha CM || req alpha (rlit 1)); cbn [andb bind].
  - destruct (ColumnOps.needsBeta CM || req beta (rlit 0)); [reflexivity|].
    eexists; reflexivity.
  - eexists; reflexivity.
Qed.

(** C8, as the code has it.  Every averaging and delta kernel of
    ColumnOps performs the check of [alpha] and [beta] only in builds
    without [NDEBUG]: there it ends the run with a fatal error exactly
    when [alpha] differs from 1.0 under a mode that discards [alpha], or
    [beta] differs from 0.0 under a mode that discards [beta], and returns
    otherwise; with [NDEBUG] it returns whatever the pairing.  (The scan
    kernels take no [alpha] or [beta] and report nothing.) *)
Theorem columnops_sanity_check_reporting (NDEBUG : bool) (CM : CombineMode)
    (bcType : BCType) (alpha beta bcVal : T) (a b c d : @View T) :
  let accepted :=
    NDEBUG || ((ColumnOps.needsAlpha CM || req alpha (rlit 1))
               && (ColumnOps.needsBeta CM || req beta (rlit 0))) in
  let reports (r : Outcome (@View T)) : Prop :=
    if accepted then exists out, r = Done out else exists message, r = Fatal message in
  reports (ColumnOps.compute_midpoint_values VECTOR_SIZE NUM_PHYSICAL_LEV OnGpu NDEBUG
             CM a b alpha beta) /\
  reports (ColumnOps.compute_interface_values VECTOR_SIZE NUM_PHYSICAL_LEV OnGpu NDEBUG
             CM a b alpha beta) /\
  reports (ColumnOps.compute_interface_values_weighted VECTOR_SIZE NUM_PHYSICAL_LEV OnGpu
             NDEBUG CM c d a b alpha beta) /\
  reports (ColumnOps.compute_midpoint_delta VECTOR_SIZE NUM_PHYSICAL_LEV OnGpu NDEBUG
             CM a b alpha beta) /\
  reports (ColumnOps.compute_interface_delta VECTOR_SIZE NUM_PHYSICAL_LEV OnGpu NDEBUG
             CM bcType a b bcVal alpha beta).
Proof.
  intros accepted reports. subst reports accepted.
  pose proof (debug_sanity_check_outcome NDEBUG CM alpha beta) as H.
  unfold ColumnOps.compute_midpoint_values, ColumnOps.compute_interface_values,
    ColumnOps.compute_interface_values_weighted, ColumnOps.compute_midpoint_delta,
    ColumnOps.compute_interface_delta.
  destruct (NDEBUG || ((ColumnOps.needsAlpha CM || req alpha (rlit 1))
                       && (ColumnOps.needsBeta CM || req beta (rlit 0)))).
  - rewrite H. cbn [bind]. repeat split; eexists; reflexivity.
  - destruct H as [message ->]. cbn [bind]. repeat split; eexists; reflexivity.
Qed.
End SanityCheck.

(** C8, as the specification states it, fails: in a build with [NDEBUG]
    a scale factor handed to [CombineMode::Replace], which discards it,
    is not reported. *)
Lemma columnops_sanity_check_not_in_release :
  ColumnOps.needsAlpha Replace = false /\
  req (Q2Qc 2) (rlit 1) = false /\
  exists out,
    ColumnOps.compute_interface_values 1 2 false true Replace
      (Examples.view_of 1 [1; 2]%Q) Examples.zero_view (Q2Qc 2) (Q2Qc 0) = Done out.
Proof.
  split; [reflexivity|]. split; [reflexivity|]. eexists. reflexivity.
Qed.

(** ** The FPE mask across the Fortran-callable entry points *)

Section FPE.
Variable default_fpes : Z.
Variable callee_effect : ScreamInterface.Callee -> Z -> Z.

Lemma calls_made_app (w : ScreamInterface.World) (l0 l : list (ScreamInterface.Callee * Z)) :
  l0 = ScreamInterface.calls w -> skipn (List.length l0) (l0 ++ l) = l.
Proof.
  intros _. induction l0 as [|x l0 IH]; [reflexivity | exact IH].
Qed.

(** C9, as the code has it.  Each entry point returns with the FPE mask
    it was entered with.  [scream_init] clears the mask before it calls
    into the session and the driver; [scream_run] and [scream_finalize]
    instead replace the caller's mask by scream's default set and enter
    the driver with exactly that set enabled. *)
Theorem scream_entry_points_fpe_mask (w : ScreamInterface.World) :
  ScreamInterface.enabled_fpes (ScreamInterface.scream_init callee_effect w)
    = ScreamInterface.enabled_fpes w /\
  ScreamInterface.enabled_fpes (ScreamInterface.scream_run default_fpes callee_effect w)
    = ScreamInterface.enabled_fpes w /\
  ScreamInterface.enabled_fpes (ScreamInterface.scream_finalize default_fpes callee_effect w)
    = ScreamInterface.enabled_fpes w /\
  ScreamInterface.calls_made (ScreamInterface.scream_init callee_effect) w =
    [(ScreamInterface.initialize_scream_session, 0%Z);
     (ScreamInterface.ad_initialize,
      callee_effect ScreamInterface.initialize_scream_session 0%Z)] /\
  ScreamInterface.calls_made (ScreamInterface.scream_run default_fpes callee_effect) w =
    [(ScreamInterface.ad_run, default_fpes)] /\
  exists m1 m2,
    ScreamInterface.calls_made (ScreamInterface.scream_finalize default_fpes callee_effect) w =
      [(ScreamInterface.ad_finalize, default_fpes);
       (ScreamInterface.upgm_clean_up, m1); (ScreamInterface.p3_deinit, m2)].
Proof.
  unfold ScreamInterface.calls_made, ScreamInterface.scream_init, ScreamInterface.scream_run,
    ScreamInterface.scream_finalize, ScreamInterface.enable_default_fpes,
    ScreamInterface.enable_fpes, ScreamInterface.disable_all_fpes,
    ScreamInterface.get_enabled_fpes, ScreamInterface.call.
  cbn [ScreamInterface.enabled_fpes ScreamInterface.calls Z.lor].
  repeat split.
  - rewrite <- app_assoc. now apply (calls_made_app w).
  - now apply (calls_made_app w).
  - do 2 eexists. rewrite <- !app_assoc. now apply (calls_made_app w).
Qed.
End FPE.

(** C9, as the specification states it, fails: with the invalid,
    division-by-zero and overflow exceptions in scream's default set
    (mask 13 on x86), [scream_run] enters the driver with trapping
    enabled, not disabled. *)
Lemma scream_run_enters_driver_with_fpes :
  ScreamInterface.calls_made (ScreamInterface.scream_run 13 (fun _ m => m))
    {| ScreamInterface.enabled_fpes := 0; ScreamInterface.calls := [] |}
  = [(ScreamInterface.ad_run, 13%Z)] /\ 13%Z <> 0%Z.
Proof. split; [reflexivity | discriminate]. Qed.

(** ** Output reductions of the I/O subsystem *)

Lemma inject_succ m : (inject_Z (Z.of_nat (S m)) == inject_Z (Z.of_nat m) + 1)%Q.
Proof. rewrite Nat2Z.inj_succ, <- Z.add_1_r, inject_Z_plus. reflexivity. Qed.

Lemma inject_nat_nonneg m : (0 <= inject_Z (Z.of_nat m))%Q.
Proof. change 0%Q with (inject_Z 0). rewrite <- Zle_Qle. lia. Qed.


Section OutputReductions.
Variables a d : Q.
Hypothesis d_nonneg : (0 <= d)%Q.

Let progression := IO.progression a d.

Lemma run_progression (r : IO.Reduction) (f : IO.Field) (om : IO.OutputStream)
    (m ii : nat) :
  IO.avg_type om = r ->
  IO.nsamples om = m ->
  (IO.local_view om ii == progression r m)%Q ->
  (IO.at_ f ii == a + inject_Z (Z.of_nat m) * d)%Q ->
  IO.avg_type (IO.run f om) = r /\
  IO.nsamples (IO.run f om) = S m /\
  (IO.local_view (IO.run f om) ii == progression r (S m))%Q.
Proof.
  intros Htype Hn Hloc Hat. unfold IO.run.
  cbn [IO.avg_type IO.nsamples IO.local_view].
  split; [exact Htype|]. split; [now rewrite Hn|].
  rewrite Htype, Hn. unfold progression, IO.progression in *. cbv zeta in *.
  pose proof (inject_nat_nonneg m) as Hm0.
  destruct r.
  - destruct m; exact Hat.
  - rewrite Hloc, Hat, inject_succ. field.
  - destruct m as [|m'].
    + rewrite Hat. cbn [Z.of_nat]. change (inject_Z 0) with 0%Q. ring.
    + rewrite Q.min_l; [exact Hloc|]. rewrite Hloc, Hat.
      assert (0 <= inject_Z (Z.of_nat (S m')) * d)%Q
        by (apply Qmult_le_0_compat; assumption).
      lra.
  - destruct m as [|m'].
    + exact Hat.
    + rewrite Q.max_r; [exact Hat|]. rewrite Hloc, Hat.
      pose proof (inject_succ m') as Hs.
      assert (0 <= 1 * d)%Q by (apply Qmult_le_0_compat; [discriminate | assumption]).
      rewrite Hs. lra.
Qed.


Lemma written_progression (r : IO.Reduction) (om : IO.OutputStream) (ii m : nat) :
  IO.avg_type om = r -> IO.nsamples om = S m ->
  (IO.local_view om ii == progression r (S m))%Q ->
  (IO.written om ii ==
   match r with
   | IO.Instant | IO.Max => a + inject_Z (Z.of_nat m) * d
   | IO.Min => a
   | IO.Average => a + inject_Z (Z.of_nat m) * d / 2
   end)%Q.
Proof.
  intros Htype Hn Hloc. unfold IO.written. rewrite Htype.
  destruct r; try exact Hloc.
  rewrite Hn, Hloc. unfold progression, IO.progression. cbv zeta.
  pose proof (inject_succ m) as Hs. pose proof (inject_nat_nonneg m) as Hm0.
  revert Hs Hm0. generalize (inject_Z (Z.of_nat (S m))) (inject_Z (Z.of_nat m)).
  intros n' n Hs Hm0. rewrite Hs. field. lra.
Qed.
End OutputReductions.

(** The loop of the test: it raises every entry of the field by [dt] and
    then calls [run], so the manager sees [ii + 1], [ii + 2], ... at
    column [ii]. *)
Lemma test_loop_state (num_cols : nat) (r : IO.Reduction) (ii m : nat) :
  ii < num_cols ->
  let x0 := inject_Z (Z.of_nat ii) in
  let st := for_loop 0 m (fun _ st => IO.step IO.dt st)
              (IO.field_1 num_cols, IO.init r) in
  IO.size (fst st) = num_cols /\
  (IO.at_ (fst st) ii == x0 + inject_Z (Z.of_nat m))%Q /\
  IO.avg_type (snd st) = r /\
  IO.nsamples (snd st) = m /\
  (IO.local_view (snd st) ii == IO.progression (x0 + 1) 1 r m)%Q.
Proof.
  intros Hii x0.
  apply (for_loop_invariant
    (fun m (st : IO.Field * IO.OutputStream) =>
       IO.size (fst st) = num_cols /\
       (IO.at_ (fst st) ii == x0 + inject_Z (Z.of_nat m))%Q /\
       IO.avg_type (snd st) = r /\
       IO.nsamples (snd st) = m /\
       (IO.local_view (snd st) ii == IO.progression (x0 + 1) 1 r m)%Q)).
  - cbn [fst snd IO.field_1 IO.size IO.at_ IO.init IO.avg_type IO.nsamples
         IO.local_view Z.of_nat].
    change (inject_Z 0) with 0%Q.
    split; [reflexivity|]. split; [subst x0; ring|]. split; [reflexivity|].
    split; [reflexivity|].
    unfold IO.progression. cbn [Z.of_nat]. change (inject_Z 0) with 0%Q.
    destruct r; first [reflexivity | field].
  - intros i [f om] _ (Hsize & Hat & Htype & Hn & Hloc). cbn [fst snd Nat.add] in *.
    unfold IO.step. cbn [fst snd IO.size].
    match goal with
    | |- _ /\ (IO.at_ ?f' ii == _)%Q /\ _ =>
        assert (Hat' : (IO.at_ f' ii == (x0 + 1) + inject_Z (Z.of_nat i) * 1)%Q)
    end.
    { cbn [IO.at_]. rewrite Hsize.
      destruct (Nat.ltb_spec ii num_cols); [|lia].
      rewrite Hat. unfold IO.dt. ring. }
    split; [exact Hsize|].
    split; [rewrite Hat', inject_succ; ring|].
    apply (run_progression (x0 + 1) 1 ltac:(discriminate) r _ om i ii
             Htype Hn Hloc Hat').
Qed.


(** The loop of the test raises every entry of the field by [dt = 1]
    before each of its ten calls of [run], so the samples at column [ii]
    are [ii + 1], ..., [ii + 10], the values of the contract moved by one
    step: the Instant and the Max stream write [10 + ii] and the Average
    stream [5.5 + ii], which are the values the test requires, and the Min
    stream writes the first sample, [1 + ii].  For Min the test requires
    [ii], the contents of the field before the first step: the manager
    under test takes the contents at [init] into its comparison, which
    the contract in terms of sampled values does not cover. *)
Lemma input_output_basic_samples (num_cols ii : nat) :
  ii < num_cols ->
  let x0 := inject_Z (Z.of_nat ii) in
  (IO.input_output_basic IO.Instant num_cols ii == 10 + x0)%Q /\
  (IO.input_output_basic IO.Max num_cols ii == 10 + x0)%Q /\
  (IO.input_output_basic IO.Average num_cols ii == (11 # 2) + x0)%Q /\
  (IO.input_output_basic IO.Min num_cols ii == 1 + x0)%Q.
Proof.
  intros Hii x0.
  assert (Hval : forall r,
    (IO.input_output_basic r num_cols ii ==
     match r with
     | IO.Instant | IO.Max => 10 + x0
     | IO.Min => 1 + x0
     | IO.Average => (11 # 2) + x0
     end)%Q).
  { intros r. unfold IO.input_output_basic, IO.max_steps.
    destruct (test_loop_state num_cols r ii 10 Hii) as (_ & _ & Htype & Hn & Hloc).
    rewrite (written_progression (x0 + 1) 1 r _ ii 9 Htype Hn Hloc).
    change (inject_Z (Z.of_nat 9)) with 9%Q.
    destruct r; try ring. field. }
  repeat split;
    first [ apply (Hval IO.Instant) | apply (Hval IO.Max)
          | apply (Hval IO.Min) | apply (Hval IO.Average) ].
Qed.

(** ** compute_theta_ref *)

Section ThetaRef.
Context {T : Type} {AT : Arith T} {PT : Pow T}.
Variable VECTOR_SIZE : nat.
Variable NUM_PHYSICAL_LEV : nat.
Variable NDEBUG : bool.
Variable PC : PhysicalConstants T.
Variable hv : HybridVCoord T.
Hypothesis VECTOR_SIZE_pos : 0 < VECTOR_SIZE.

(** C6, as the code has it.  [compute_theta_ref] leaves
    [T0/exner(p) + T1] at every level, with [exner(p) = (p/p0)^kappa],
    [TREF = 288], [T0 = TREF - T1] and [T1 = c*TREF*cp/g], where [c] is
    the single-precision literal [0.0065f], that is 3489661/2^29.  At a
    level whose pressure is [p0] the result is [TREF], as far as the
    arithmetic is exact there: [p0/p0] and [pow(1, kappa)] are 1, dividing
    by 1 changes nothing, and adding [T1] undoes subtracting it. *)
Theorem compute_theta_ref_levels (p theta_ref : @View T) :
  c_assert NDEBUG (m_inited hv) "m_hvcoord.m_inited" = Done tt ->
  (p0 PC / p0 PC)%A = rlit 1 ->
  rpow (rlit 1) (kappa PC) = rlit 1 ->
  (forall x : T, (x / rlit 1)%A = x) ->
  (forall a b : T, (a - b + b)%A = a) ->
  exists out,
    ElementOps.compute_theta_ref VECTOR_SIZE NUM_PHYSICAL_LEV NDEBUG PC hv p theta_ref
      = Done out /\
    (forall k, k < NUM_PHYSICAL_LEV ->
       ColumnOps.level VECTOR_SIZE out k =
         (ElementOps.T0 PC / rpow (ColumnOps.level VECTOR_SIZE p k / p0 PC)%A (kappa PC)
          + ElementOps.T1 PC)%A) /\
    ElementOps.TREF = rlit 288 /\
    ElementOps.T1 PC = (rlit (3489661 # 536870912) * ElementOps.TREF * cp PC / g PC)%A /\
    ElementOps.T0 PC = (ElementOps.TREF - ElementOps.T1 PC)%A /\
    (forall k, k < NUM_PHYSICAL_LEV ->
       ColumnOps.level VECTOR_SIZE p k = p0 PC ->
       ColumnOps.level VECTOR_SIZE out k = ElementOps.TREF).
Proof.
  intros Hassert div_self pow_one div_one sub_add.
  unfold ElementOps.compute_theta_ref. rewrite Hassert. cbn [bind].
  eexists. split; [reflexivity|].
  assert (Hlev : forall k, k < NUM_PHYSICAL_LEV ->
    ColumnOps.level VECTOR_SIZE
      (for_loop 0 (ColumnOps.NUM_LEV VECTOR_SIZE NUM_PHYSICAL_LEV)
         (fun ilev theta_ref0 =>
            set_pack
              (set_pack theta_ref0 ilev
                 (pack_map (fun pk => rpow (pk / p0 PC)%A (kappa PC)) (p ilev))) ilev
              (pack_map (fun e => (ElementOps.T0 PC / e + ElementOps.T1 PC)%A)
                 (set_pack theta_ref0 ilev
                    (pack_map (fun pk => rpow (pk / p0 PC)%A (kappa PC)) (p ilev)) ilev)))
         theta_ref) k =
    (ElementOps.T0 PC / rpow (ColumnOps.level VECTOR_SIZE p k / p0 PC)%A (kappa PC)
     + ElementOps.T1 PC)%A).
  { intros k Hk. unfold ColumnOps.level.
    pose proof (level_pack_lt VECTOR_SIZE VECTOR_SIZE_pos NUM_PHYSICAL_LEV k Hk) as Hpk.
    fold (ColumnOps.NUM_LEV VECTOR_SIZE NUM_PHYSICAL_LEV) in Hpk.
    pose proof (for_loop_invariant
      (fun m (x : @View T) =>
         forall q, q < m -> forall i,
           x q i = (ElementOps.T0 PC / rpow (p q i / p0 PC)%A (kappa PC)
                    + ElementOps.T1 PC)%A)
      (fun ilev theta_ref0 =>
            set_pack
              (set_pack theta_ref0 ilev
                 (pack_map (fun pk => rpow (pk / p0 PC)%A (kappa PC)) (p ilev))) ilev
              (pack_map (fun e => (ElementOps.T0 PC / e + ElementOps.T1 PC)%A)
                 (set_pack theta_ref0 ilev
                    (pack_map (fun pk => rpow (pk / p0 PC)%A (kappa PC)) (p ilev)) ilev)))
      (ColumnOps.NUM_LEV VECTOR_SIZE NUM_PHYSICAL_LEV) 0 theta_ref) as Inv.
    cbv beta in Inv. apply Inv; [intros; lia | | exact Hpk].
    intros i st _ Hst q Hq j. cbn [Nat.add].
    destruct (Nat.eq_dec q i) as [->|Hne].
    - rewrite !set_pack_same. reflexivity.
    - rewrite !set_pack_other by assumption. apply Hst. lia. }
  split; [exact Hlev|].
  split; [reflexivity|]. split; [reflexivity|]. split; [reflexivity|].
  intros k Hk Hp. rewrite Hlev by exact Hk. rewrite Hp, div_self, pow_one, div_one.
  unfold ElementOps.T0. apply sub_add.
Qed.
End ThetaRef.

Lemma Q2R_one : Q2R 1 = 1%R.
Proof. unfold Q2R. simpl. rewrite Rinv_1. ring. Qed.

(** An instance over the reals: a column at the reference pressure. *)
Lemma compute_theta_ref_levels_witness :
  0 < 2 /\
  c_assert false (m_inited Examples.hvcoord_R) "m_hvcoord.m_inited" = Done tt /\
  (p0 Examples.constants_R / p0 Examples.constants_R)%A = rlit 1 /\
  rpow (rlit 1) (kappa Examples.constants_R) = rlit 1 /\
  (forall x : R, (x / rlit 1)%A = x) /\
  (forall a b : R, (a - b + b)%A = a) /\
  exists out,
    ElementOps.compute_theta_ref 2 3 false Examples.constants_R Examples.hvcoord_R
      Examples.reference_pressure_R Examples.zero_view_R = Done out /\
    (forall k, k < 3 ->
       ColumnOps.level 2 out k =
         (ElementOps.T0 Examples.constants_R
          / rpow (ColumnOps.level 2 Examples.reference_pressure_R k
                  / p0 Examples.constants_R)%A (kappa Examples.constants_R)
          + ElementOps.T1 Examples.constants_R)%A) /\
    ElementOps.TREF = rlit 288 /\
    ElementOps.T1 Examples.constants_R =
      (rlit (3489661 # 536870912) * ElementOps.TREF * cp Examples.constants_R
       / g Examples.constants_R)%A /\
    ElementOps.T0 Examples.constants_R =
      (ElementOps.TREF - ElementOps.T1 Examples.constants_R)%A /\
    (forall k, k < 3 ->
       ColumnOps.level 2 Examples.reference_pressure_R k = p0 Examples.constants_R ->
       ColumnOps.level 2 out k = ElementOps.TREF).
Proof.
  assert (H1 : (p0 Examples.constants_R / p0 Examples.constants_R)%A = rlit 1).
  { cbn [rdiv rlit R_Arith p0 Examples.constants_R]. rewrite Q2R_one.
    unfold Rdiv. apply Rinv_r. Lra.lra. }
  assert (H2 : rpow (rlit 1) (kappa Examples.constants_R) = rlit 1).
  { cbn [rlit R_Arith]. rewrite Q2R_one. unfold rpow, R_Pow, Rpower.
    rewrite ln_1, Rmult_0_r. apply exp_0. }
  assert (H3 : forall x : R, (x / rlit 1)%A = x).
  { intros x. cbn [rdiv rlit R_Arith]. rewrite Q2R_one. unfold Rdiv.
    rewrite Rinv_1. ring. }
  assert (H4 : forall a b : R, (a - b + b)%A = a).
  { intros a b. cbn [radd rsub R_Arith]. Lra.lra. }
  split; [lia|]. split; [reflexivity|].
  split; [exact H1|]. split; [exact H2|]. split; [exact H3|]. split; [exact H4|].
  apply (compute_theta_ref_levels (T:=R) 2 3 false Examples.constants_R Examples.hvcoord_R);
    [lia | reflexivity | exact H1 | exact H2 | exact H3 | exact H4].
Defined.

(** C6, as the specification states it, fails on one constant: the
    literal in [T1] is the single-precision [0.0065f], so for the
    constants of the model ([cp = 1005], [g = 9.80616]) [T1] is not
    [0.0065*TREF*cp/g]. *)
Lemma T1_is_not_decimal_lapse_rate :
  ElementOps.T1 Examples.constants <>
  (rlit (65 # 10000) * ElementOps.TREF * cp Examples.constants / g Examples.constants)%A.
Proof.
  intro H. apply (f_equal this) in H. vm_compute in H. discriminate H.
Qed.

(** ** Where the code departs from its own design *)

(** Two canonical rationals are equal when their fractions evaluate to
    the same one, and differ when they do not. *)
Ltac qc_eval := apply Qc_is_canon; vm_compute; reflexivity.
Ltac qc_differ :=
  let H := fresh "H" in
  intro H; apply (f_equal this) in H; vm_compute in H; discriminate H.

(** C2.  The two paths of the weighted [compute_interface_values] do not
    write the same interface column.  On two levels in packs of one, with
    unit weights, midpoints 1 and 2 and a provider that yields 3 past the
    last midpoint, the SIMD path writes 1, 3/2, 2.  The device path fixes
    the bottom with the two extents exchanged: it reads the provider at
    index [NUM_INTERFACE_LEV-1], past the last midpoint, and stores that in
    interface [NUM_PHYSICAL_LEV-1], so it writes 1, 3 and leaves the bottom
    interface as it found it (0 here). *)
Lemma weighted_interface_values_paths_differ :
  exists gpu simd,
    ColumnOps.compute_interface_values_weighted 1 2 true false Replace
      Examples.unit_weights Examples.unit_weights (Examples.view_of 1 [1; 2; 3]%Q)
      Examples.zero_view (Q2Qc 1) (Q2Qc 0) = Done gpu /\
    ColumnOps.compute_interface_values_weighted 1 2 false false Replace
      Examples.unit_weights Examples.unit_weights (Examples.view_of 1 [1; 2; 3]%Q)
      Examples.zero_view (Q2Qc 1) (Q2Qc 0) = Done simd /\
    ColumnOps.level 1 simd 0 = Q2Qc 1 /\
    ColumnOps.level 1 simd 1 = Q2Qc (3 # 2) /\
    ColumnOps.level 1 simd 2 = Q2Qc 2 /\
    ColumnOps.level 1 gpu 0 = Q2Qc 1 /\
    ColumnOps.level 1 gpu 1 = Q2Qc 3 /\
    ColumnOps.level 1 gpu 2 = Q2Qc 0 /\
    ColumnOps.level 1 gpu 1 <> ColumnOps.level 1 simd 1 /\
    ColumnOps.level 1 gpu 2 <> ColumnOps.level 1 simd 2.
Proof.
  do 2 eexists. split; [reflexivity|]. split; [reflexivity|].
  repeat split; try qc_eval; qc_differ.
Qed.

(** The unweighted kernel shares the two paths' layout but not their
    agreement either, outside the overwriting modes: the SIMD path
    combines the top entry twice (once with the first pack, once in the
    fix-up), so under [CombineMode::Add] on a zeroed output it leaves
    [x_m(0)/2 + x_m(0)] there where the device path leaves [x_m(0)]. *)
Lemma interface_values_add_paths_differ :
  ColumnOps.level 1
    (ColumnOps.compute_interface_values_simd 1 2 Add (Examples.view_of 1 [1; 2]%Q)
       Examples.zero_view (Q2Qc 1) (Q2Qc 0)) 0 = Q2Qc (3 # 2) /\
  ColumnOps.level 1
    (ColumnOps.compute_interface_values_gpu 2 Add (Examples.view_of 1 [1; 2]%Q)
       Examples.zero_view (Q2Qc 1) (Q2Qc 0)) 0 = Q2Qc 1.
Proof.
  split; qc_eval.
Qed.

(** C5.  On the three-level column of the examples ([omega_int = 0, 1, 1,
    0], factor 1, differences [DeltaX(0) = 1] and [DeltaX(1) = 2]) the
    kernel returns the winds -1, -1, 2, whatever the pack width.  The
    interior and the bottom layer follow the stated update; the top layer
    does not: the stated update, [X(0) - fac*omega_int(1)*DeltaX(0)], is
    0, but the index pack clamped to 1 for the [k-1] access also serves
    the [k] access, so the top layer reads [DeltaX(1)] and becomes -1. *)
Lemma advance_iop_subsidence_top_layer :
  HommeDynamics.scalarize 1 (HommeDynamics.u_view (Examples.iop_result 1)) 0 = Q2Qc (-1) /\
  HommeDynamics.scalarize 1 (HommeDynamics.u_view (Examples.iop_result 1)) 1 = Q2Qc (-1) /\
  HommeDynamics.scalarize 1 (HommeDynamics.u_view (Examples.iop_result 1)) 2 = Q2Qc 2 /\
  HommeDynamics.scalarize 1 (HommeDynamics.v_view (Examples.iop_result 1)) 0 = Q2Qc (-1) /\
  HommeDynamics.scalarize 1 (HommeDynamics.Q_view (Examples.iop_result 1) 0) 0 = Q2Qc (-1) /\
  HommeDynamics.scalarize 4 (HommeDynamics.u_view (Examples.iop_result 4)) 0 = Q2Qc (-1) /\
  HommeDynamics.scalarize 4 (HommeDynamics.u_view (Examples.iop_result 4)) 1 = Q2Qc (-1) /\
  HommeDynamics.scalarize 4 (HommeDynamics.u_view (Examples.iop_result 4)) 2 = Q2Qc 2 /\
  (let u := HommeDynamics.scalarize 1 (HommeDynamics.u_view (Examples.iop_state 1)) in
   let pdel := HommeDynamics.scalarize 1 (Examples.iop_pdel 1) in
   let omega_int := HommeDynamics.scalarize 1
         (HommeDynamics.compute_omega_int 1 3 (Examples.iop_pmid 1) (Examples.iop_pint 1)
            (Examples.iop_omega 1) Examples.zero_view) in
   (u 0 - Examples.iop_dt / (rlit 2 * pdel 0) * (omega_int 1 * (u 1 - u 0)))%A = Q2Qc 0 /\
   (u 0 - Examples.iop_dt / (rlit 2 * pdel 0) * (omega_int 1 * (u 2 - u 1)))%A
     = Q2Qc (-1)).
Proof.
  cbv zeta. repeat split; qc_eval.
Qed.

(** The two departures hold for every input, not only on the columns
    above. *)
Section Departures.
Context {T : Type} {AT : Arith T}.

(** Whatever the mode and the input, the device path of the weighted
    kernel returns the bottom interface pack as it found it. *)
Lemma weighted_gpu_bottom_untouched (NUM_PHYSICAL_LEV : nat) (CM : CombineMode)
    (weights_m weights_i x_m x_i : @View T) (alpha beta : T) :
  0 < NUM_PHYSICAL_LEV ->
  ColumnOps.compute_interface_values_weighted_gpu NUM_PHYSICAL_LEV CM
    weights_m weights_i x_m x_i alpha beta NUM_PHYSICAL_LEV = x_i NUM_PHYSICAL_LEV.
Proof.
  intros Hpos. unfold ColumnOps.compute_interface_values_weighted_gpu. cbv zeta.
  rewrite !set_pack_other by lia.
  rewrite (for_loop_set_pack
    (fun ilev p => ColumnOps.combine_pack CM
       (pack_map2 rdiv
          (pack_map2 radd (pack_map2 rmul (x_m ilev) (weights_m ilev))
             (pack_map2 rmul (x_m (ilev - 1)) (weights_m (ilev - 1))))
          (pack_map (fun w => (rlit 2 * w)%A) (weights_i ilev))) p alpha beta)).
  destruct (Nat.ltb_spec NUM_PHYSICAL_LEV (1 + (NUM_PHYSICAL_LEV - 1))); [lia|].
  now rewrite andb_false_r.
Qed.

(** With packs of one level and at least three levels, the top layer of
    the wind is updated with the difference between layers 2 and 1. *)
Lemma advance_iop_subsidence_top_layer_general (Rair Cpair dt ps : T) (nlevs : nat)
    (pmid pint pdel omega : @View T) (ws : HommeDynamics.Scratch) (n_q_tracers : nat)
    (st : HommeDynamics.ColumnState) :
  3 <= nlevs ->
  let weight := ((pint 1 0 - pmid 0 0) / (pmid 1 0 - pmid 0 0))%A in
  let omega_int_1 := (weight * omega 1 0 + (rlit 1 - weight) * omega 0 0)%A in
  HommeDynamics.u_view
    (HommeDynamics.advance_iop_subsidence 1 Rair Cpair nlevs dt ps pmid pint pdel omega
       ws n_q_tracers st) 0 0 =
  (HommeDynamics.u_view st 0 0
   - dt / (rlit 2 * pdel 0 0) * omega_int_1
     * (HommeDynamics.u_view st 2 0 - HommeDynamics.u_view st 1 0))%A.
Proof.
  intros Hn weight omega_int_1.
  unfold HommeDynamics.advance_iop_subsidence. cbv zeta.
  assert (Hnp : HommeDynamics.npack 1 nlevs = nlevs).
  { unfold HommeDynamics.npack. rewrite Nat.div_1_r. lia. }
  rewrite Hnp.
  set (V := (HommeDynamics.u_view st 0 0
   - dt / (rlit 2 * pdel 0 0) * omega_int_1
     * (HommeDynamics.u_view st 2 0 - HommeDynamics.u_view st 1 0))%A).
  match goal with |- HommeDynamics.u_view (for_loop 0 nlevs ?body st) 0 0 = _ =>
    pose proof (for_loop_invariant
      (fun m (s : HommeDynamics.ColumnState) =>
         (m = 0 -> HommeDynamics.u_view s 0 = HommeDynamics.u_view st 0) /\
         (0 < m -> HommeDynamics.u_view s 0 0 = V))
      body nlevs 0 st) as Inv
  end.
  cbv beta in Inv. apply Inv; [split; [tauto | lia] | | lia]. clear Inv.
  intros i s Hi [Hzero Hpos]. cbn [Nat.add]. split; [lia|]. intros _.
  unfold HommeDynamics.index_and_shift. cbv beta iota zeta.
  cbn [HommeDynamics.u_view].
  destruct (Nat.eq_dec i 0) as [->|Hne];
    [|rewrite set_pack_other by lia; apply Hpos; lia].
  rewrite (Hzero eq_refl), set_pack_same.
  unfold HommeDynamics.subsidence_update, HommeDynamics.pack_set,
    HommeDynamics.ipack_set, HommeDynamics.range.
  cbn [Nat.mul Nat.add].
  change (Nat.eqb 0 0) with true. change (Nat.ltb 0 1) with true. cbv beta iota.
  destruct (Nat.eqb_spec 0 (nlevs - 1)); [lia|]. cbn [negb andb].
  change (Z.to_nat (Z.of_nat 0 + 1)) with 1.
  subst V. f_equal. f_equal; [f_equal|].
  - (* omega_int at interface 1 *)
    unfold HommeDynamics.scalarize at 1. change (1 / 1) with 1. change (1 mod 1) with 0.
    unfold HommeDynamics.compute_omega_int. cbv zeta.
    unfold HommeDynamics.index_and_shift. cbv beta iota zeta.
    rewrite set_entry_other by (left; rewrite Nat.div_1_r; lia).
    rewrite set_entry_other by (left; lia).
    match goal with |- for_loop ?lo ?n (fun k oi => set_pack oi k (@?F k oi)) ?x 1 0 = _ =>
      rewrite (for_loop_set_own_pack F lo n x 1)
    end.
    + change (1 / 1) with 1. rewrite Nat.div_1_r.
      destruct (Nat.leb_spec 1 1); [|lia].
      destruct (Nat.ltb_spec 1 (1 + (nlevs - 1 + 1 - 1))); [|lia].
      cbn [andb]. unfold HommeDynamics.pack_set, HommeDynamics.ipack_set,
        HommeDynamics.range, HommeDynamics.scalarize.
      cbn [Nat.mul Nat.add]. change (Nat.ltb 1 1) with false. cbv beta iota.
      change (Nat.leb 1 1) with true.
      destruct (Nat.leb_spec 1 (nlevs - 1)); [|lia]. cbn [andb].
      change (Z.to_nat (Z.of_nat 1 + -1)) with 0.
      change (1 / 1) with 1. change (1 mod 1) with 0.
      change (0 / 1) with 0. change (0 mod 1) with 0.
      reflexivity.
    + intros j y y' Hy. cbv beta. now rewrite Hy.
  - (* the difference read at the top layer *)
    unfold HommeDynamics.scalarize at 1. change (1 / 1) with 1. change (1 mod 1) with 0.
    unfold HommeDynamics.compute_midpoint_delta. cbv zeta. cbn [Nat.mul Nat.add].
    change (Nat.ltb 0 1) with true.
    destruct (Nat.ltb_spec 1 (nlevs - 1)); [|lia]. cbn [andb].
    unfold HommeDynamics.scalarize.
    change (2 / 1) with 2. change (2 mod 1) with 0.
    change (1 / 1) with 1. change (1 mod 1) with 0.
    reflexivity.
Qed.
End Departures.

(** * Further properties of the kernels *)

(** The laws of the addition that the scans rely on, over the reals. *)
Lemma Q2R_zero : Q2R 0 = 0%R.
Proof. unfold Q2R. simpl. apply Rmult_0_l. Qed.

Lemma R_add_0_r : forall x : R, (x + rlit 0)%A = x.
Proof. intros x. cbn [radd rlit R_Arith]. rewrite Q2R_zero. apply Rplus_0_r. Qed.

Lemma R_add_0_l : forall x : R, (rlit 0 + x)%A = x.
Proof. intros x. cbn [radd rlit R_Arith]. rewrite Q2R_zero. apply Rplus_0_l. Qed.

Lemma R_add_comm : forall a b : R, (a + b)%A = (b + a)%A.
Proof. intros a b. cbn [radd R_Arith]. apply Rplus_comm. Qed.

Lemma R_add_neg_sub : forall a b : R, (a + - (a - b))%A = b.
Proof. intros a b. cbn [radd rsub ropp R_Arith]. Lra.lra. Qed.

Lemma R_sub_add : forall a b : R, (a - b + b)%A = a.
Proof. intros a b. cbn [radd rsub R_Arith]. Lra.lra. Qed.

(** Over the reals the default scale factors pass the check of a debug
    build. *)
Lemma R_sanity_check_defaults :
  ColumnOps.debug_sanity_check (T:=R) false Replace (rlit 1) (rlit 0) = Done tt.
Proof.
  unfold ColumnOps.debug_sanity_check, ColumnOps.sanity_check, runtime_check.
  cbn [ColumnOps.needsAlpha ColumnOps.needsBeta orb req R_Arith].
  destruct (Req_dec_T (rlit 1) (rlit 1)) as [_|Hn]; [|exfalso; apply Hn; reflexivity].
  cbn [bind].
  destruct (Req_dec_T (rlit 0) (rlit 0)) as [_|Hn]; [|exfalso; apply Hn; reflexivity].
  reflexivity.
Qed.

(** And the laws that the statements below assume, on the canonical
    rationals. *)
Lemma Qc_mean : forall a b : Qc, ((a + (a + b)) / rlit 2)%A = (a + b / rlit 2)%A.
Proof.
  intros a b. simpl. change (Q2Qc 2) with (1 + 1)%Qc. field.
  intro H; discriminate H.
Qed.


(** ** compute_midpoint_values and compute_midpoint_delta *)

Section NextLevel.
Variable VECTOR_SIZE : nat.
Hypothesis VECTOR_SIZE_pos : 0 < VECTOR_SIZE.

(** The level below level [k]: the next lane of the same pack, or the
    first lane of the next pack. *)
Lemma succ_level k :
  (k mod VECTOR_SIZE = VECTOR_SIZE - 1 /\
   (k + 1) / VECTOR_SIZE = k / VECTOR_SIZE + 1 /\ (k + 1) mod VECTOR_SIZE = 0)
  \/
  (k mod VECTOR_SIZE < VECTOR_SIZE - 1 /\
   (k + 1) / VECTOR_SIZE = k / VECTOR_SIZE /\
   (k + 1) mod VECTOR_SIZE = k mod VECTOR_SIZE + 1).
Proof.
  assert (Hpos : 0 < k + 1) by lia.
  pose proof (lane_lt VECTOR_SIZE VECTOR_SIZE_pos (k + 1)) as Hlane.
  destruct (pred_level VECTOR_SIZE VECTOR_SIZE_pos (k + 1) Hpos)
    as [(Hm & Hd & Ed & Em)|(Hm & Ed & Em)];
    replace (k + 1 - 1) with k in * by lia;
    set (q := k / VECTOR_SIZE) in *; set (q' := (k + 1) / VECTOR_SIZE) in *;
    set (r := k mod VECTOR_SIZE) in *; set (r' := (k + 1) mod VECTOR_SIZE) in *;
    clearbody q q' r r'.
  - left. lia.
  - right. lia.
Qed.
End NextLevel.

Section MidpointKernels.
Context {T : Type} {AT : Arith T}.
Variable VECTOR_SIZE : nat.
Variable NUM_PHYSICAL_LEV : nat.
Hypothesis VECTOR_SIZE_pos : 0 < VECTOR_SIZE.

(** What the SIMD kernels build from a pack of interface values by
    [shift_left] and the assignment of the vacated lane: the interface
    values one level further down. *)
Lemma shift_left_interior (x_i : @View T) k :
  k / VECTOR_SIZE < ColumnOps.LastPack VECTOR_SIZE NUM_PHYSICAL_LEV ->
  set_lane (shift_left1 (ColumnOps.VECTOR_END VECTOR_SIZE) (x_i (k / VECTOR_SIZE)))
    (ColumnOps.VECTOR_END VECTOR_SIZE) (x_i (k / VECTOR_SIZE + 1) 0) (k mod VECTOR_SIZE) =
  ColumnOps.level VECTOR_SIZE x_i (k + 1).
Proof.
  intros Hlt. unfold ColumnOps.level, ColumnOps.VECTOR_END.
  destruct (succ_level VECTOR_SIZE VECTOR_SIZE_pos k) as [(Hm & Ed & Em)|(Hm & Ed & Em)];
    rewrite Ed, Em.
  - rewrite Hm, set_lane_same. reflexivity.
  - rewrite set_lane_other by lia. unfold shift_left1.
    destruct (Nat.eqb_spec (k mod VECTOR_SIZE) (VECTOR_SIZE - 1)); [lia|].
    rewrite Nat.add_1_r. reflexivity.
Qed.

Lemma shift_left_last (x_i : @View T) k :
  k < NUM_PHYSICAL_LEV ->
  k / VECTOR_SIZE = ColumnOps.LastPack VECTOR_SIZE NUM_PHYSICAL_LEV ->
  set_lane (shift_left1 (ColumnOps.VECTOR_END VECTOR_SIZE) (x_i (k / VECTOR_SIZE)))
    (ColumnOps.LastPackEnd VECTOR_SIZE NUM_PHYSICAL_LEV)
    (x_i (ColumnOps.LastPack VECTOR_SIZE (ColumnOps.NUM_INTERFACE_LEV NUM_PHYSICAL_LEV))
         (ColumnOps.LastPackEnd VECTOR_SIZE (ColumnOps.NUM_INTERFACE_LEV NUM_PHYSICAL_LEV)))
    (k mod VECTOR_SIZE) =
  ColumnOps.level VECTOR_SIZE x_i (k + 1).
Proof.
  intros Hk Hlast.
  assert (Hpos : 0 < NUM_PHYSICAL_LEV) by lia.
  rewrite (last_midpoint_pack VECTOR_SIZE NUM_PHYSICAL_LEV VECTOR_SIZE_pos Hpos) in Hlast.
  rewrite (last_midpoint_lane VECTOR_SIZE NUM_PHYSICAL_LEV VECTOR_SIZE_pos Hpos).
  rewrite (last_interface_pack VECTOR_SIZE NUM_PHYSICAL_LEV VECTOR_SIZE_pos).
  rewrite (last_interface_lane VECTOR_SIZE NUM_PHYSICAL_LEV VECTOR_SIZE_pos).
  destruct (Nat.eq_dec k (NUM_PHYSICAL_LEV - 1)) as [->|Hne].
  - rewrite set_lane_same. unfold ColumnOps.level.
    replace (NUM_PHYSICAL_LEV - 1 + 1) with NUM_PHYSICAL_LEV by lia. reflexivity.
  - assert (Hlane : k mod VECTOR_SIZE < (NUM_PHYSICAL_LEV - 1) mod VECTOR_SIZE).
    { pose proof (Nat.div_mod_eq k VECTOR_SIZE).
      pose proof (Nat.div_mod_eq (NUM_PHYSICAL_LEV - 1) VECTOR_SIZE). nia. }
    pose proof (lane_lt VECTOR_SIZE VECTOR_SIZE_pos (NUM_PHYSICAL_LEV - 1)) as Hl.
    rewrite set_lane_other by lia. unfold shift_left1, ColumnOps.VECTOR_END, ColumnOps.level.
    destruct (Nat.eqb_spec (k mod VECTOR_SIZE) (VECTOR_SIZE - 1)); [lia|].
    destruct (succ_level VECTOR_SIZE VECTOR_SIZE_pos k) as [(Hm & Ed & Em)|(Hm & Ed & Em)];
      [lia|].
    rewrite Ed, Em, Nat.add_1_r. reflexivity.
Qed.

(** The midpoint delta of the SIMD path, level by level, for every
    combine mode. *)
Lemma compute_midpoint_delta_simd_levels (CM : CombineMode) (x_i dx_m : @View T)
    (alpha beta : T) k :
  k < NUM_PHYSICAL_LEV ->
  ColumnOps.level VECTOR_SIZE
    (ColumnOps.compute_midpoint_delta_simd VECTOR_SIZE NUM_PHYSICAL_LEV CM x_i dx_m alpha beta) k =
  ColumnOps.combine CM
    (ColumnOps.level VECTOR_SIZE x_i (k + 1) - ColumnOps.level VECTOR_SIZE x_i k)%A
    (ColumnOps.level VECTOR_SIZE dx_m k) alpha beta.
Proof.
  intros Hk. unfold ColumnOps.compute_midpoint_delta_simd. cbv zeta.
  unfold ColumnOps.level at 1.
  assert (Hle : k / VECTOR_SIZE <= ColumnOps.LastPack VECTOR_SIZE NUM_PHYSICAL_LEV).
  { pose proof (level_pack_lt VECTOR_SIZE VECTOR_SIZE_pos NUM_PHYSICAL_LEV k Hk).
    unfold ColumnOps.LastPack. lia. }
  destruct (Nat.eq_dec (k / VECTOR_SIZE) (ColumnOps.LastPack VECTOR_SIZE NUM_PHYSICAL_LEV))
    as [Hlast|Hnot].
  - pose proof (shift_left_last x_i k Hk Hlast) as Hnext.
    rewrite <- Hlast in *. rewrite set_pack_same.
    rewrite (for_loop_set_pack
      (fun ilev p => ColumnOps.combine_pack CM
         (pack_map2 rsub
            (set_lane (shift_left1 (ColumnOps.VECTOR_END VECTOR_SIZE) (x_i ilev))
               (ColumnOps.VECTOR_END VECTOR_SIZE) (x_i (ilev + 1) 0)) (x_i ilev))
         p alpha beta)).
    destruct (Nat.ltb_spec (k / VECTOR_SIZE) (0 + k / VECTOR_SIZE)); [lia|].
    rewrite Bool.andb_false_r.
    unfold ColumnOps.combine_pack, pack_map2. rewrite Hnext. reflexivity.
  - rewrite set_pack_other by assumption.
    rewrite (for_loop_set_pack
      (fun ilev p => ColumnOps.combine_pack CM
         (pack_map2 rsub
            (set_lane (shift_left1 (ColumnOps.VECTOR_END VECTOR_SIZE) (x_i ilev))
               (ColumnOps.VECTOR_END VECTOR_SIZE) (x_i (ilev + 1) 0)) (x_i ilev))
         p alpha beta)).
    destruct (Nat.leb_spec 0 (k / VECTOR_SIZE)); [|lia].
    destruct (Nat.ltb_spec (k / VECTOR_SIZE)
                (0 + ColumnOps.LastPack VECTOR_SIZE NUM_PHYSICAL_LEV)); [|lia].
    cbn [andb]. unfold ColumnOps.combine_pack, pack_map2.
    rewrite shift_left_interior by lia. reflexivity.
Qed.

Lemma compute_midpoint_delta_gpu_levels (CM : CombineMode) (x_i dx_m : @View T)
    (alpha beta : T) k :
  k < NUM_PHYSICAL_LEV ->
  ColumnOps.compute_midpoint_delta_gpu NUM_PHYSICAL_LEV CM x_i dx_m alpha beta k 0 =
  ColumnOps.combine CM (x_i (k + 1)%nat 0 - x_i k 0)%A (dx_m k 0) alpha beta.
Proof.
  intros Hk. unfold ColumnOps.compute_midpoint_delta_gpu.
  rewrite (for_loop_set_pack
    (fun ilev p => ColumnOps.combine_pack CM
       (pack_map2 rsub (x_i (ilev + 1)) (x_i ilev)) p alpha beta)).
  destruct (Nat.leb_spec 0 k); [|lia].
  destruct (Nat.ltb_spec k (0 + NUM_PHYSICAL_LEV)); [|lia].
  reflexivity.
Qed.

(** The midpoint values of the SIMD path, level by level; the kernel adds
    the lower interface first. *)
Lemma compute_midpoint_values_simd_levels (CM : CombineMode) (x_i x_m : @View T)
    (alpha beta : T) k :
  k < NUM_PHYSICAL_LEV ->
  ColumnOps.level VECTOR_SIZE
    (ColumnOps.compute_midpoint_values_simd VECTOR_SIZE NUM_PHYSICAL_LEV CM x_i x_m alpha beta) k =
  ColumnOps.combine CM
    ((ColumnOps.level VECTOR_SIZE x_i (k + 1) + ColumnOps.level VECTOR_SIZE x_i k) / rlit 2)%A
    (ColumnOps.level VECTOR_SIZE x_m k) alpha beta.
Proof.
  intros Hk. unfold ColumnOps.compute_midpoint_values_simd. cbv zeta.
  unfold ColumnOps.level at 1.
  assert (Hle : k / VECTOR_SIZE <= ColumnOps.LastPack VECTOR_SIZE NUM_PHYSICAL_LEV).
  { pose proof (level_pack_lt VECTOR_SIZE VECTOR_SIZE_pos NUM_PHYSICAL_LEV k Hk).
    unfold ColumnOps.LastPack. lia. }
  destruct (Nat.eq_dec (k / VECTOR_SIZE) (ColumnOps.LastPack VECTOR_SIZE NUM_PHYSICAL_LEV))
    as [Hlast|Hnot].
  - pose proof (shift_left_last x_i k Hk Hlast) as Hnext.
    rewrite <- Hlast in *. rewrite set_pack_same.
    rewrite (for_loop_set_pack
      (fun ilev p => ColumnOps.combine_pack CM
         (pack_map (fun v => (v / rlit 2)%A)
            (pack_map2 radd
               (set_lane (shift_left1 (ColumnOps.VECTOR_END VECTOR_SIZE) (x_i ilev))
                  (ColumnOps.VECTOR_END VECTOR_SIZE) (x_i (ilev + 1) 0)) (x_i ilev)))
         p alpha beta)).
    destruct (Nat.ltb_spec (k / VECTOR_SIZE) (0 + k / VECTOR_SIZE)); [lia|].
    rewrite Bool.andb_false_r.
    unfold ColumnOps.combine_pack, pack_map, pack_map2. rewrite Hnext. reflexivity.
  - rewrite set_pack_other by assumption.
    rewrite (for_loop_set_pack
      (fun ilev p => ColumnOps.combine_pack CM
         (pack_map (fun v => (v / rlit 2)%A)
            (pack_map2 radd
               (set_lane (shift_left1 (ColumnOps.VECTOR_END VECTOR_SIZE) (x_i ilev))
                  (ColumnOps.VECTOR_END VECTOR_SIZE) (x_i (ilev + 1) 0)) (x_i ilev)))
         p alpha beta)).
    destruct (Nat.leb_spec 0 (k / VECTOR_SIZE)); [|lia].
    destruct (Nat.ltb_spec (k / VECTOR_SIZE)
                (0 + ColumnOps.LastPack VECTOR_SIZE NUM_PHYSICAL_LEV)); [|lia].
    cbn [andb]. unfold ColumnOps.combine_pack, pack_map, pack_map2.
    rewrite shift_left_interior by lia. reflexivity.
Qed.

Lemma compute_midpoint_values_gpu_levels (CM : CombineMode) (x_i x_m : @View T)
    (alpha beta : T) k :
  k < NUM_PHYSICAL_LEV ->
  ColumnOps.compute_midpoint_values_gpu NUM_PHYSICAL_LEV CM x_i x_m alpha beta k 0 =
  ColumnOps.combine CM ((x_i k 0 + x_i (k + 1)%nat 0) / rlit 2)%A (x_m k 0) alpha beta.
Proof.
  intros Hk. unfold ColumnOps.compute_midpoint_values_gpu.
  rewrite (for_loop_set_pack
    (fun ilev p => ColumnOps.combine_pack CM
       (pack_map (fun v => (v / rlit 2)%A) (pack_map2 radd (x_i ilev) (x_i (ilev + 1))))
       p alpha beta)).
  destruct (Nat.leb_spec 0 k); [|lia].
  destruct (Nat.ltb_spec k (0 + NUM_PHYSICAL_LEV)); [|lia].
  reflexivity.
Qed.

Variable OnGpu : bool.
Variable NDEBUG : bool.
Hypothesis gpu_vector_size : OnGpu = true -> VECTOR_SIZE = 1.

(** The two paths of [compute_midpoint_delta] at once. *)
Lemma compute_midpoint_delta_paths (CM : CombineMode) (x_i dx_m : @View T)
    (alpha beta : T) k :
  k < NUM_PHYSICAL_LEV ->
  ColumnOps.level VECTOR_SIZE
    (if OnGpu then ColumnOps.compute_midpoint_delta_gpu NUM_PHYSICAL_LEV CM x_i dx_m alpha beta
     else ColumnOps.compute_midpoint_delta_simd VECTOR_SIZE NUM_PHYSICAL_LEV CM x_i dx_m
            alpha beta) k =
  ColumnOps.combine CM
    (ColumnOps.level VECTOR_SIZE x_i (k + 1) - ColumnOps.level VECTOR_SIZE x_i k)%A
    (ColumnOps.level VECTOR_SIZE dx_m k) alpha beta.
Proof.
  intros Hk. destruct OnGpu.
  - rewrite (gpu_vector_size eq_refl). unfold ColumnOps.level.
    rewrite !Nat.div_1_r, !Nat.mod_1_r. now apply compute_midpoint_delta_gpu_levels.
  - now apply compute_midpoint_delta_simd_levels.
Qed.

(** X1.  Midpoint deltas.  Whenever the debug check accepts [alpha] and
    [beta], [compute_midpoint_delta] combines, at every midpoint [k], the
    difference [x_i(k+1) - x_i(k)] with the value the output held there.
    This holds on the host and on the device path alike and for every
    combine mode: each entry is combined exactly once. *)
Theorem compute_midpoint_delta_levels (CM : CombineMode) (x_i dx_m : @View T)
    (alpha beta : T) :
  ColumnOps.debug_sanity_check NDEBUG CM alpha beta = Done tt ->
  exists out,
    ColumnOps.compute_midpoint_delta VECTOR_SIZE NUM_PHYSICAL_LEV OnGpu NDEBUG
      CM x_i dx_m alpha beta = Done out /\
    forall k, k < NUM_PHYSICAL_LEV ->
      ColumnOps.level VECTOR_SIZE out k =
        ColumnOps.combine CM
          (ColumnOps.level VECTOR_SIZE x_i (k + 1) - ColumnOps.level VECTOR_SIZE x_i k)%A
          (ColumnOps.level VECTOR_SIZE dx_m k) alpha beta.
Proof.
  intros Hcheck. unfold ColumnOps.compute_midpoint_delta. rewrite Hcheck. cbn [bind].
  eexists. split; [reflexivity|]. intros k Hk. now apply compute_midpoint_delta_paths.
Qed.

Hypothesis add_comm : forall a b : T, (a + b)%A = (b + a)%A.

(** The two paths of [compute_midpoint_values] at once. *)
Lemma compute_midpoint_values_paths (CM : CombineMode) (x_i x_m : @View T)
    (alpha beta : T) k :
  k < NUM_PHYSICAL_LEV ->
  ColumnOps.level VECTOR_SIZE
    (if OnGpu then ColumnOps.compute_midpoint_values_gpu NUM_PHYSICAL_LEV CM x_i x_m alpha beta
     else ColumnOps.compute_midpoint_values_simd VECTOR_SIZE NUM_PHYSICAL_LEV CM x_i x_m
            alpha beta) k =
  ColumnOps.combine CM
    ((ColumnOps.level VECTOR_SIZE x_i k + ColumnOps.level VECTOR_SIZE x_i (k + 1)) / rlit 2)%A
    (ColumnOps.level VECTOR_SIZE x_m k) alpha beta.
Proof.
  intros Hk. destruct OnGpu.
  - rewrite (gpu_vector_size eq_refl). unfold ColumnOps.level.
    rewrite !Nat.div_1_r, !Nat.mod_1_r. now apply compute_midpoint_values_gpu_levels.
  - rewrite compute_midpoint_values_simd_levels by assumption.
    now rewrite (add_comm (ColumnOps.level VECTOR_SIZE x_i (k + 1))).
Qed.

(** X2.  Midpoint values.  Whenever the debug check accepts [alpha] and
    [beta], [compute_midpoint_values] combines, at every midpoint [k], the
    mean [(x_i(k) + x_i(k+1)) / 2] of the two adjacent interfaces with the
    value the output held there, on both paths and for every combine mode.
    The SIMD path adds the lower interface first, hence the commutativity
    of the addition. *)
Theorem compute_midpoint_values_levels (CM : CombineMode) (x_i x_m : @View T)
    (alpha beta : T) :
  ColumnOps.debug_sanity_check NDEBUG CM alpha beta = Done tt ->
  exists out,
    ColumnOps.compute_midpoint_values VECTOR_SIZE NUM_PHYSICAL_LEV OnGpu NDEBUG
      CM x_i x_m alpha beta = Done out /\
    forall k, k < NUM_PHYSICAL_LEV ->
      ColumnOps.level VECTOR_SIZE out k =
        ColumnOps.combine CM
          ((ColumnOps.level VECTOR_SIZE x_i k + ColumnOps.level VECTOR_SIZE x_i (k + 1))
           / rlit 2)%A
          (ColumnOps.level VECTOR_SIZE x_m k) alpha beta.
Proof.
  intros Hcheck. unfold ColumnOps.compute_midpoint_values. rewrite Hcheck. cbn [bind].
  eexists. split; [reflexivity|]. intros k Hk. now apply compute_midpoint_values_paths.
Qed.
End MidpointKernels.

(** An instance: three levels in packs of two on the host, under
    [CombineMode::ScaleUpdate] with [alpha = 3] and [beta = 2]. *)
Lemma compute_midpoint_delta_levels_witness :
  0 < 2 /\ (false = true -> 2 = 1) /\
  ColumnOps.debug_sanity_check false ScaleUpdate (Q2Qc 3) (Q2Qc 2) = Done tt /\
  exists out,
    ColumnOps.compute_midpoint_delta 2 3 false false ScaleUpdate
      (Examples.view_of 2 [1; 2; 4; 8]%Q) Examples.unit_weights (Q2Qc 3) (Q2Qc 2)
      = Done out /\
    forall k, k < 3 ->
      ColumnOps.level 2 out k =
        ColumnOps.combine ScaleUpdate
          (ColumnOps.level 2 (Examples.view_of 2 [1; 2; 4; 8]%Q) (k + 1)
           - ColumnOps.level 2 (Examples.view_of 2 [1; 2; 4; 8]%Q) k)%A
          (ColumnOps.level 2 Examples.unit_weights k) (Q2Qc 3) (Q2Qc 2).
Proof.
  split; [lia|]. split; [intro H; discriminate H|]. split; [reflexivity|].
  apply (compute_midpoint_delta_levels (T:=Qc) 2 3 ltac:(lia) false false
           ltac:(intro H; discriminate H)).
  reflexivity.
Defined.

(** An instance: the midpoints of the interface values 1, 2, 4, 8. *)
Lemma compute_midpoint_values_levels_witness :
  0 < 2 /\ (false = true -> 2 = 1) /\
  (forall a b : Qc, (a + b)%A = (b + a)%A) /\
  ColumnOps.debug_sanity_check false Replace (Q2Qc 1) (Q2Qc 0) = Done tt /\
  exists out,
    ColumnOps.compute_midpoint_values 2 3 false false Replace
      (Examples.view_of 2 [1; 2; 4; 8]%Q) Examples.zero_view (Q2Qc 1) (Q2Qc 0)
      = Done out /\
    forall k, k < 3 ->
      ColumnOps.level 2 out k =
        ColumnOps.combine Replace
          ((ColumnOps.level 2 (Examples.view_of 2 [1; 2; 4; 8]%Q) k
            + ColumnOps.level 2 (Examples.view_of 2 [1; 2; 4; 8]%Q) (k + 1)) / rlit 2)%A
          (ColumnOps.level 2 Examples.zero_view k) (Q2Qc 1) (Q2Qc 0).
Proof.
  split; [lia|]. split; [intro H; discriminate H|]. split; [exact Qcplus_comm|].
  split; [reflexivity|].
  apply (compute_midpoint_values_levels (T:=Qc) 2 3 ltac:(lia) false false
           ltac:(intro H; discriminate H) Qcplus_comm).
  reflexivity.
Defined.

(** ** compute_interface_delta with boundary conditions *)

Section InterfaceDelta.
Context {T : Type} {AT : Arith T}.
Variable VECTOR_SIZE : nat.
Variable NUM_PHYSICAL_LEV : nat.
Hypothesis VECTOR_SIZE_pos : 0 < VECTOR_SIZE.
Hypothesis NUM_PHYSICAL_LEV_pos : 0 < NUM_PHYSICAL_LEV.

(** The boundary fix-up under [CombineMode::Replace]: the top and the
    bottom interface receive the boundary value, the others keep theirs. *)
Lemma interface_delta_bc_levels (bcType : BCType) (dx_i : @View T) (bcVal alpha beta : T) :
  bcType <> DoNothing ->
  let out := ColumnOps.interface_delta_bc Replace bcType
               (NUM_PHYSICAL_LEV / VECTOR_SIZE) (NUM_PHYSICAL_LEV mod VECTOR_SIZE)
               dx_i bcVal alpha beta in
  let bc := match bcType with Value => bcVal | _ => rlit 0 end in
  ColumnOps.level VECTOR_SIZE out 0 = bc /\
  ColumnOps.level VECTOR_SIZE out NUM_PHYSICAL_LEV = bc /\
  forall k, 0 < k < NUM_PHYSICAL_LEV ->
    ColumnOps.level VECTOR_SIZE out k = ColumnOps.level VECTOR_SIZE dx_i k.
Proof.
  intros Hbc out bc. subst out bc. unfold ColumnOps.level.
  assert (Hbot : NUM_PHYSICAL_LEV / VECTOR_SIZE <> 0 \/ NUM_PHYSICAL_LEV mod VECTOR_SIZE <> 0).
  { destruct (Nat.eq_dec (NUM_PHYSICAL_LEV / VECTOR_SIZE) 0) as [Hd|]; [|now left].
    right. intros Hm. pose proof (Nat.div_mod_eq NUM_PHYSICAL_LEV VECTOR_SIZE). nia. }
  assert (Hint : forall k, 0 < k < NUM_PHYSICAL_LEV ->
            (k / VECTOR_SIZE <> NUM_PHYSICAL_LEV / VECTOR_SIZE \/
             k mod VECTOR_SIZE <> NUM_PHYSICAL_LEV mod VECTOR_SIZE) /\
            (k / VECTOR_SIZE <> 0 \/ k mod VECTOR_SIZE <> 0)).
  { intros k [Hk0 HkN]. split.
    - destruct (Nat.eq_dec (k / VECTOR_SIZE) (NUM_PHYSICAL_LEV / VECTOR_SIZE)) as [Hd|];
        [|now left].
      right. intros Hm. pose proof (level_inj VECTOR_SIZE _ _ Hd Hm). lia.
    - destruct (Nat.eq_dec (k / VECTOR_SIZE) 0) as [Hd|]; [|now left].
      right. intros Hm. pose proof (Nat.div_mod_eq k VECTOR_SIZE). nia. }
  rewrite Nat.Div0.div_0_l, Nat.Div0.mod_0_l.
  destruct bcType; [| |contradiction]; unfold ColumnOps.interface_delta_bc; cbv zeta;
    (split; [|split]).
  - rewrite set_entry_other by (destruct Hbot; [left|right]; congruence).
    now rewrite set_entry_same.
  - now rewrite set_entry_same.
  - intros k Hk. destruct (Hint k Hk) as [Hne Hne0].
    rewrite set_entry_other by exact Hne. now rewrite set_entry_other by exact Hne0.
  - rewrite set_entry_other by (destruct Hbot; [left|right]; congruence).
    now rewrite set_entry_same.
  - now rewrite set_entry_same.
  - intros k Hk. destruct (Hint k Hk) as [Hne Hne0].
    rewrite set_entry_other by exact Hne. now rewrite set_entry_other by exact Hne0.
Qed.

Variable OnGpu : bool.
Variable NDEBUG : bool.
Hypothesis gpu_vector_size : OnGpu = true -> VECTOR_SIZE = 1.

(** X3.  Interface deltas with a boundary condition.  Under
    [CombineMode::Replace] and with [BCType::Zero] or [BCType::Value],
    [compute_interface_delta] leaves (whenever the debug check accepts
    [alpha] and [beta]) the boundary value, zero or [bcVal], at the top and
    at the bottom interface, and [x_m(k) - x_m(k-1)] at every interior
    interface [k], on the host and on the device path alike. *)
Theorem compute_interface_delta_boundary_values (bcType : BCType)
    (x_m dx_i : @View T) (bcVal alpha beta : T) :
  bcType <> DoNothing ->
  ColumnOps.debug_sanity_check NDEBUG Replace alpha beta = Done tt ->
  exists out,
    ColumnOps.compute_interface_delta VECTOR_SIZE NUM_PHYSICAL_LEV OnGpu NDEBUG
      Replace bcType x_m dx_i bcVal alpha beta = Done out /\
    ColumnOps.level VECTOR_SIZE out 0 = match bcType with Value => bcVal | _ => rlit 0 end /\
    ColumnOps.level VECTOR_SIZE out NUM_PHYSICAL_LEV =
      match bcType with Value => bcVal | _ => rlit 0 end /\
    forall k, 0 < k < NUM_PHYSICAL_LEV ->
      ColumnOps.level VECTOR_SIZE out k =
        (ColumnOps.level VECTOR_SIZE x_m k - ColumnOps.level VECTOR_SIZE x_m (k - 1))%A.
Proof.
  intros Hbc Hcheck. unfold ColumnOps.compute_interface_delta. rewrite Hcheck. cbn [bind].
  eexists. split; [reflexivity|].
  destruct OnGpu.
  - pose proof (gpu_vector_size eq_refl) as E1.
    unfold ColumnOps.compute_interface_delta_gpu. cbv zeta.
    unfold ColumnOps.NUM_INTERFACE_LEV.
    match goal with |- context [ColumnOps.interface_delta_bc _ _ _ _ ?d _ _ _] =>
      destruct (interface_delta_bc_levels bcType d bcVal alpha beta Hbc) as (Ht & Hb & Hi);
      replace (ColumnOps.interface_delta_bc Replace bcType (NUM_PHYSICAL_LEV + 1 - 1) 0
                 d bcVal alpha beta)
        with (ColumnOps.interface_delta_bc Replace bcType
                (NUM_PHYSICAL_LEV / VECTOR_SIZE) (NUM_PHYSICAL_LEV mod VECTOR_SIZE)
                d bcVal alpha beta)
        by (rewrite E1, Nat.div_1_r, Nat.mod_1_r; f_equal; lia)
    end.
    split; [exact Ht | split; [exact Hb|]].
    intros k Hk. rewrite (Hi k Hk). unfold ColumnOps.level.
    rewrite E1, !Nat.div_1_r, !Nat.mod_1_r.
    apply (compute_interface_delta_gpu_interior VECTOR_SIZE NUM_PHYSICAL_LEV VECTOR_SIZE_pos
             NUM_PHYSICAL_LEV_pos x_m dx_i bcVal alpha beta k Hk).
  - unfold ColumnOps.compute_interface_delta_simd. cbv zeta.
    rewrite (last_interface_pack VECTOR_SIZE NUM_PHYSICAL_LEV VECTOR_SIZE_pos).
    rewrite (last_interface_lane VECTOR_SIZE NUM_PHYSICAL_LEV VECTOR_SIZE_pos).
    match goal with |- context [ColumnOps.interface_delta_bc _ _ _ _ ?d _ _ _] =>
      destruct (interface_delta_bc_levels bcType d bcVal alpha beta Hbc) as (Ht & Hb & Hi)
    end.
    split; [exact Ht | split; [exact Hb|]].
    intros k Hk. rewrite (Hi k Hk).
    apply (compute_interface_delta_simd_interior VECTOR_SIZE NUM_PHYSICAL_LEV VECTOR_SIZE_pos
             NUM_PHYSICAL_LEV_pos x_m dx_i bcVal alpha beta k Hk).
Qed.
End InterfaceDelta.

(** An instance: the boundary value 7 around the deltas of 1, 2, 4. *)
Lemma compute_interface_delta_boundary_values_witness :
  0 < 2 /\ 0 < 3 /\ (false = true -> 2 = 1) /\ Value <> DoNothing /\
  ColumnOps.debug_sanity_check false Replace (Q2Qc 1) (Q2Qc 0) = Done tt /\
  exists out,
    ColumnOps.compute_interface_delta 2 3 false false Replace Value
      (Examples.view_of 2 [1; 2; 4]%Q) Examples.zero_view (Q2Qc 7) (Q2Qc 1) (Q2Qc 0)
      = Done out /\
    ColumnOps.level 2 out 0 = Q2Qc 7 /\
    ColumnOps.level 2 out 3 = Q2Qc 7 /\
    forall k, 0 < k < 3 ->
      ColumnOps.level 2 out k =
        (ColumnOps.level 2 (Examples.view_of 2 [1; 2; 4]%Q) k
         - ColumnOps.level 2 (Examples.view_of 2 [1; 2; 4]%Q) (k - 1))%A.
Proof.
  split; [lia|]. split; [lia|]. split; [intro H; discriminate H|].
  split; [intro H; discriminate H|]. split; [reflexivity|].
  apply (compute_interface_delta_boundary_values (T:=Qc) 2 3 ltac:(lia) ltac:(lia)
           false false ltac:(intro H; discriminate H) Value).
  - intro H; discriminate H.
  - reflexivity.
Defined.

(** ** The backward scan *)

Lemma for_down_invariant {St : Type} (P : nat -> St -> Prop)
    (body : nat -> St -> St) (n : nat) (s : St) :
  P n s ->
  (forall i st, i < n -> P (S i) st -> P i (body i st)) ->
  P 0 (for_down n body s).
Proof.
  revert s. induction n as [|n IH]; intros s Hn Hstep; simpl.
  - exact Hn.
  - apply IH.
    + apply Hstep; [lia | exact Hn].
    + intros i st Hi HP. apply Hstep; [lia | exact HP].
Qed.

Section SuffixSums.
Context {T : Type} {AT : Arith T}.

Lemma suffix_sum_step (s0 : T) (input : nat -> T) n k :
  k < n ->
  suffix_sum s0 input n (n - k) = (suffix_sum s0 input n (n - (k + 1)) + input k)%A.
Proof.
  intros Hk. replace (n - k) with (S (n - (k + 1))) by lia. cbn [suffix_sum].
  replace (n - S (n - (k + 1))) with k by lia. reflexivity.
Qed.

Lemma suffix_sum_bottom (s0 : T) (input : nat -> T) n k :
  n <= k -> suffix_sum s0 input n (n - k) = s0.
Proof. intros Hk. replace (n - k) with 0 by lia. reflexivity. Qed.
End SuffixSums.

Section BackwardScan.
Context {T : Type} {AT : Arith T}.
Variable VECTOR_SIZE : nat.
Hypothesis VECTOR_SIZE_pos : 0 < VECTOR_SIZE.
Hypothesis add_0_r : forall x : T, (x + rlit 0)%A = x.

(** The host scan, backward and inclusive over [n + 1] levels, leaves the
    suffix sums of its input in them and touches nothing else. *)
Lemma column_scan_host_backward_inclusive (n : nat) (input sum : @View T) (s0 : T) :
  let out := ColumnOps.column_scan_impl_host VECTOR_SIZE false true (S n) input sum s0 in
  (forall k, k <= n ->
     ColumnOps.level VECTOR_SIZE out k =
     suffix_sum s0 (ColumnOps.level VECTOR_SIZE input) (S n) (S n - k)) /\
  (forall k, n < k -> ColumnOps.level VECTOR_SIZE out k = ColumnOps.level VECTOR_SIZE sum k).
Proof.
  intros out. subst out. unfold ColumnOps.column_scan_impl_host. cbv zeta.
  rewrite LastPack_succ, LastPackEnd_succ by assumption.
  set (R := fun k => suffix_sum s0 (ColumnOps.level VECTOR_SIZE input) (S n) (S n - k)).
  assert (Rstep : forall k, k <= n ->
            R k = (R (k + 1)%nat + ColumnOps.level VECTOR_SIZE input k)%A).
  { intros k Hk. subst R. cbv beta. apply suffix_sum_step. lia. }
  assert (Rbot : forall k, n < k -> R k = s0).
  { intros k Hk. subst R. cbv beta. apply suffix_sum_bottom. lia. }
  pose proof (Nat.div_mod_eq n VECTOR_SIZE) as En.
  pose proof (lane_lt VECTOR_SIZE VECTOR_SIZE_pos n) as Ln.
  match goal with |- context [for_down ?N ?body ?s] =>
    pose proof (for_down_invariant
      (fun m (st : View * T) =>
         (forall k, k <= n -> m <= k / VECTOR_SIZE ->
            fst st (k / VECTOR_SIZE) (k mod VECTOR_SIZE) = R k) /\
         (forall k, n < k ->
            fst st (k / VECTOR_SIZE) (k mod VECTOR_SIZE) =
            sum (k / VECTOR_SIZE) (k mod VECTOR_SIZE)) /\
         (forall p, p < m -> fst st p = sum p) /\
         snd st = R (m * VECTOR_SIZE))
      body N s) as Inv
  end.
  cbv beta in Inv. unfold ColumnOps.level at 1 3 4.
  destruct Inv as (Hlev & Hframe & _).
  - cbn [fst snd]. repeat split; try reflexivity.
    + intros k Hk Hm. pose proof (Nat.Div0.div_le_mono k n VECTOR_SIZE Hk). lia.
    + symmetry. apply Rbot. nia.
  - intros i [sm integ] Hi (I1 & I2 & I3 & I4). cbn [fst snd] in I1, I2, I3, I4.
    cbn [fst snd].
    set (vec_start := if Nat.eqb i (n / VECTOR_SIZE) then n mod VECTOR_SIZE
                      else ColumnOps.VECTOR_END VECTOR_SIZE).
    assert (Hvs : vec_start < VECTOR_SIZE /\ i * VECTOR_SIZE + vec_start <= n /\
                  R (i * VECTOR_SIZE + vec_start + 1) = R (S i * VECTOR_SIZE)).
    { subst vec_start. unfold ColumnOps.VECTOR_END.
      destruct (Nat.eqb_spec i (n / VECTOR_SIZE)) as [Hl|Hl].
      - split; [exact Ln|]. split; [nia|].
        rewrite !Rbot by nia. reflexivity.
      - split; [lia|]. split; [nia|]. f_equal. lia. }
    destruct Hvs as (Hvs & Hvn & Hvr).
    match goal with |- context [for_down vec_start ?inner ?sv0] =>
      pose proof (for_down_invariant
        (fun j (sv : @Pack T) =>
           (forall l, j <= l <= vec_start -> sv l = R (i * VECTOR_SIZE + l)) /\
           (forall l, vec_start < l -> sv l = sm i l))
        inner vec_start sv0) as Inner;
      set (sv := for_down vec_start inner sv0) in *
    end.
    cbv beta in Inner.
    assert (Hsv : (forall l, l <= vec_start -> sv l = R (i * VECTOR_SIZE + l)) /\
                  (forall l, vec_start < l -> sv l = sm i l)).
    { destruct Inner as (Inner1 & Inner2).
      - split.
        + intros l Hl. replace l with vec_start by lia. rewrite set_lane_same.
          rewrite I4, <- Hvr. rewrite (Rstep (i * VECTOR_SIZE + vec_start)) by exact Hvn.
          rewrite (level_pack_lane VECTOR_SIZE VECTOR_SIZE_pos input i vec_start) by exact Hvs.
          reflexivity.
        + intros l Hl. apply set_lane_other. lia.
      - intros j st Hj (S1 & S2). split.
        + intros l Hl. destruct (Nat.eq_dec l j) as [->|Hne].
          * rewrite set_lane_same. rewrite S1 by lia.
            rewrite (Rstep (i * VECTOR_SIZE + j)) by lia.
            rewrite (level_pack_lane VECTOR_SIZE VECTOR_SIZE_pos input i j) by lia.
            f_equal. f_equal. lia.
          * rewrite set_lane_other by assumption. apply S1. lia.
        + intros l Hl. rewrite set_lane_other by lia. now apply S2.
      - split; [intros l Hl; apply Inner1; lia | exact Inner2]. }
    destruct Hsv as (Hsv1 & Hsv2).
    repeat split.
    + intros k Hk Hm. pose proof (Nat.div_mod_eq k VECTOR_SIZE) as Ek.
      destruct (Nat.eq_dec (k / VECTOR_SIZE) i) as [Heq|Hne].
      * rewrite Heq, set_pack_same. rewrite Hsv1.
        -- f_equal. lia.
        -- subst vec_start. unfold ColumnOps.VECTOR_END.
           pose proof (lane_lt VECTOR_SIZE VECTOR_SIZE_pos k).
           destruct (Nat.eqb_spec i (n / VECTOR_SIZE)); [nia | lia].
      * rewrite set_pack_other by assumption. apply I1; [assumption | lia].
    + intros k Hk. pose proof (Nat.div_mod_eq k VECTOR_SIZE) as Ek.
      destruct (Nat.eq_dec (k / VECTOR_SIZE) i) as [Heq|Hne].
      * rewrite Heq, set_pack_same. rewrite Hsv2.
        -- rewrite I3 by lia. reflexivity.
        -- subst vec_start. unfold ColumnOps.VECTOR_END.
           pose proof (lane_lt VECTOR_SIZE VECTOR_SIZE_pos k).
           destruct (Nat.eqb_spec i (n / VECTOR_SIZE)); [nia|].
           assert (i < n / VECTOR_SIZE) by lia. nia.
      * rewrite set_pack_other by assumption. now apply I2.
    + intros p Hp. rewrite set_pack_other by lia. apply I3. lia.
    + rewrite add_0_r. rewrite Hsv1 by lia. f_equal. lia.
  - split.
    + intros k Hk. apply Hlev; [exact Hk | lia].
    + exact Hframe.
Qed.

Hypothesis add_0_l : forall x : T, (rlit 0 + x)%A = x.
Hypothesis add_comm : forall a b : T, (a + b)%A = (b + a)%A.

(** The device scan, backward and inclusive, taken from the bottom level
    upward. *)
Lemma column_scan_gpu_backward_inclusive (n : nat) (input sum : @View T) (s0 : T) :
  let out := ColumnOps.column_scan_impl_gpu false true n input sum s0 in
  (forall k, k < n -> out k 0 = suffix_sum s0 (ColumnOps.level 1 input) n (n - k)) /\
  (forall k, n <= k -> out k = sum k).
Proof.
  intros out. subst out. unfold ColumnOps.column_scan_impl_gpu. cbv zeta.
  set (R := fun k => suffix_sum s0 (ColumnOps.level 1 input) n (n - k)).
  assert (Rstep : forall k, k < n -> R k = (R (k + 1)%nat + input k 0)%A).
  { intros k Hk. subst R. cbv beta. rewrite suffix_sum_step by exact Hk.
    unfold ColumnOps.level. rewrite Nat.div_1_r, Nat.mod_1_r. reflexivity. }
  assert (Rbot : R n = s0).
  { subst R. cbv beta. apply suffix_sum_bottom. lia. }
  match goal with |- context [for_loop 0 ?N ?body ?s] =>
    pose proof (for_loop_invariant
      (fun m (st : View * T) =>
         (forall k, k < n -> n - m <= k -> fst st k 0 = R k) /\
         (forall k, n <= k -> fst st k = sum k) /\
         (0 < m -> snd st = R (n - m)) /\
         (m = 0 -> snd st = rlit 0))
      body N 0 s) as Inv
  end.
  cbv beta in Inv. destruct Inv as (Hlev & Hframe & _).
  - cbn [fst snd]. repeat split; try reflexivity; intros; lia.
  - intros i [sm acc] Hi (I1 & I2 & I3 & I4). cbn [fst snd] in I1, I2, I3, I4.
    cbn [Nat.add fst snd].
    assert (Hacc : (if Nat.eqb i 0 then (acc + input (n - i - 1)%nat 0 + s0)%A
                    else (acc + input (n - i - 1)%nat 0)%A) = R (n - S i)).
    { rewrite (Rstep (n - S i)) by lia.
      replace (n - S i + 1) with (n - i) by lia.
      replace (n - S i) with (n - i - 1) by lia.
      destruct (Nat.eqb_spec i 0) as [->|Hne].
      - rewrite I4 by reflexivity. rewrite add_0_l, Nat.sub_0_r, Rbot. apply add_comm.
      - rewrite I3 by lia. reflexivity. }
    rewrite Hacc. cbn [Nat.leb]. rewrite Nat.sub_0_r. repeat split.
    + intros k Hk Hm. destruct (Nat.eq_dec k (n - i - 1)) as [->|Hne].
      * rewrite set_pack_same. f_equal. lia.
      * rewrite set_pack_other by assumption. apply I1; lia.
    + intros k Hk. rewrite set_pack_other by lia. now apply I2.
    + lia.
  - split.
    + intros k Hk. apply Hlev; [exact Hk | lia].
    + exact Hframe.
Qed.
End BackwardScan.

Section GeopotentialScan.
Context {T : Type} {AT : Arith T} {PT : Pow T}.
Variable VECTOR_SIZE : nat.
Variable OnGpu : bool.
Hypothesis VECTOR_SIZE_pos : 0 < VECTOR_SIZE.
Hypothesis gpu_vector_size : OnGpu = true -> VECTOR_SIZE = 1.
Hypothesis add_0_r : forall x : T, (x + rlit 0)%A = x.
Hypothesis add_0_l : forall x : T, (rlit 0 + x)%A = x.
Hypothesis add_comm : forall a b : T, (a + b)%A = (b + a)%A.

(** The backward inclusive scan on either path. *)
Lemma column_scan_backward_inclusive (n : nat) (input sum : @View T) (s0 : T) :
  let out := ColumnOps.column_scan_impl VECTOR_SIZE OnGpu false true (S n) input sum s0 in
  (forall k, k <= n ->
     ColumnOps.level VECTOR_SIZE out k =
     suffix_sum s0 (ColumnOps.level VECTOR_SIZE input) (S n) (S n - k)) /\
  (forall k, n < k -> ColumnOps.level VECTOR_SIZE out k = ColumnOps.level VECTOR_SIZE sum k).
Proof.
  intros out. subst out. unfold ColumnOps.column_scan_impl. destruct OnGpu.
  - rewrite (gpu_vector_size eq_refl).
    destruct (column_scan_gpu_backward_inclusive 1 Nat.lt_0_1 add_0_l add_comm
                (S n) input sum s0)
      as (Hlev & Hframe).
    split.
    + intros k Hk. unfold ColumnOps.level at 1. rewrite Nat.div_1_r, Nat.mod_1_r.
      apply Hlev. lia.
    + intros k Hk. unfold ColumnOps.level. rewrite Nat.div_1_r, Nat.mod_1_r.
      rewrite Hframe by lia. reflexivity.
  - now apply column_scan_host_backward_inclusive.
Qed.

Variable NUM_PHYSICAL_LEV : nat.
Hypothesis NUM_PHYSICAL_LEV_pos : 0 < NUM_PHYSICAL_LEV.

(** The backward scan from midpoints to interfaces: the bottom interface
    keeps its value and every other interface holds the one below it plus
    the input of the layer between them. *)
Lemma column_scan_mid_to_int_backward (input sum : @View T) :
  let out := ColumnOps.column_scan_mid_to_int VECTOR_SIZE NUM_PHYSICAL_LEV OnGpu
               false input sum in
  ColumnOps.level VECTOR_SIZE out NUM_PHYSICAL_LEV =
    ColumnOps.level VECTOR_SIZE sum NUM_PHYSICAL_LEV /\
  forall k, k < NUM_PHYSICAL_LEV ->
    ColumnOps.level VECTOR_SIZE out k =
      (ColumnOps.level VECTOR_SIZE out (k + 1) + ColumnOps.level VECTOR_SIZE input k)%A.
Proof.
  intros out. subst out. unfold ColumnOps.column_scan_mid_to_int. cbv zeta.
  rewrite (last_interface_pack VECTOR_SIZE NUM_PHYSICAL_LEV VECTOR_SIZE_pos).
  rewrite (last_interface_lane VECTOR_SIZE NUM_PHYSICAL_LEV VECTOR_SIZE_pos).
  rewrite (last_midpoint_pack VECTOR_SIZE NUM_PHYSICAL_LEV VECTOR_SIZE_pos NUM_PHYSICAL_LEV_pos).
  rewrite (last_midpoint_lane VECTOR_SIZE NUM_PHYSICAL_LEV VECTOR_SIZE_pos NUM_PHYSICAL_LEV_pos).
  fold (ColumnOps.level VECTOR_SIZE sum NUM_PHYSICAL_LEV).
  set (s0 := ColumnOps.level VECTOR_SIZE sum NUM_PHYSICAL_LEV).
  set (sum_cropped := set_entry sum ((NUM_PHYSICAL_LEV - 1) / VECTOR_SIZE)
                        ((NUM_PHYSICAL_LEV - 1) mod VECTOR_SIZE) s0).
  destruct (column_scan_backward_inclusive (NUM_PHYSICAL_LEV - 1) input sum_cropped s0)
    as (Hlev & Hframe).
  replace (S (NUM_PHYSICAL_LEV - 1)) with NUM_PHYSICAL_LEV in * by lia.
  assert (Hbot : ColumnOps.level VECTOR_SIZE
                   (ColumnOps.column_scan_impl VECTOR_SIZE OnGpu false true NUM_PHYSICAL_LEV
                      input sum_cropped s0) NUM_PHYSICAL_LEV = s0).
  { rewrite Hframe by lia. subst sum_cropped. unfold ColumnOps.level at 1.
    rewrite set_entry_other; [reflexivity|].
    destruct (Nat.eq_dec (NUM_PHYSICAL_LEV / VECTOR_SIZE) ((NUM_PHYSICAL_LEV - 1) / VECTOR_SIZE))
      as [Hd|]; [|now left].
    right. intros Hm. pose proof (level_inj VECTOR_SIZE _ _ Hd Hm). lia. }
  split; [exact Hbot|].
  intros k Hk. rewrite Hlev by lia. rewrite suffix_sum_step by exact Hk. f_equal.
  destruct (Nat.eq_dec (k + 1) NUM_PHYSICAL_LEV) as [E|Hne].
  - rewrite E, Hbot. apply suffix_sum_bottom. lia.
  - rewrite Hlev by lia. reflexivity.
Qed.

(** The recurrence that [compute_phi_i] leaves in the geopotential. *)
Lemma compute_phi_i_scan (PC : PhysicalConstants T) (phis : T)
    (vtheta_dp p phi_i : @View T) :
  let out := EquationOfState.compute_phi_i VECTOR_SIZE NUM_PHYSICAL_LEV OnGpu PC
               phis vtheta_dp p phi_i in
  ColumnOps.level VECTOR_SIZE out NUM_PHYSICAL_LEV = phis /\
  forall k, k < NUM_PHYSICAL_LEV ->
    ColumnOps.level VECTOR_SIZE out k =
      (ColumnOps.level VECTOR_SIZE out (k + 1)
       + (Rgas PC * ColumnOps.level VECTOR_SIZE vtheta_dp k
          * rpow (ColumnOps.level VECTOR_SIZE p k / p0 PC) (kappa PC - rlit 1)) / p0 PC)%A.
Proof.
  cbv zeta. unfold EquationOfState.compute_phi_i. cbv zeta.
  match goal with |- context [ColumnOps.column_scan_mid_to_int _ _ _ false ?inp ?s] =>
    destruct (column_scan_mid_to_int_backward inp s) as (Hbot & Hrec)
  end.
  split.
  - rewrite Hbot. unfold ColumnOps.level.
    rewrite <- (last_interface_pack VECTOR_SIZE NUM_PHYSICAL_LEV VECTOR_SIZE_pos).
    rewrite <- (last_interface_lane VECTOR_SIZE NUM_PHYSICAL_LEV VECTOR_SIZE_pos).
    apply set_entry_same.
  - intros k Hk. rewrite (Hrec k Hk). reflexivity.
Qed.

(** The geopotential depends on the midpoint pressure only through its
    levels, and not on what the output view held. *)
Lemma compute_phi_i_ext (PC : PhysicalConstants T) (phis : T)
    (vtheta_dp p p' phi_i phi_i' : @View T) :
  (forall k, k < NUM_PHYSICAL_LEV ->
     ColumnOps.level VECTOR_SIZE p k = ColumnOps.level VECTOR_SIZE p' k) ->
  forall k, k <= NUM_PHYSICAL_LEV ->
    ColumnOps.level VECTOR_SIZE
      (EquationOfState.compute_phi_i VECTOR_SIZE NUM_PHYSICAL_LEV OnGpu PC
         phis vtheta_dp p phi_i) k =
    ColumnOps.level VECTOR_SIZE
      (EquationOfState.compute_phi_i VECTOR_SIZE NUM_PHYSICAL_LEV OnGpu PC
         phis vtheta_dp p' phi_i') k.
Proof.
  intros Hp.
  destruct (compute_phi_i_scan PC phis vtheta_dp p phi_i) as (Hbot & Hrec).
  destruct (compute_phi_i_scan PC phis vtheta_dp p' phi_i') as (Hbot' & Hrec').
  assert (Hd : forall d, d <= NUM_PHYSICAL_LEV ->
            ColumnOps.level VECTOR_SIZE
              (EquationOfState.compute_phi_i VECTOR_SIZE NUM_PHYSICAL_LEV OnGpu PC
                 phis vtheta_dp p phi_i) (NUM_PHYSICAL_LEV - d) =
            ColumnOps.level VECTOR_SIZE
              (EquationOfState.compute_phi_i VECTOR_SIZE NUM_PHYSICAL_LEV OnGpu PC
                 phis vtheta_dp p' phi_i') (NUM_PHYSICAL_LEV - d)).
  { induction d as [|d IH]; intros Hd.
    - rewrite Nat.sub_0_r, Hbot, Hbot'. reflexivity.
    - rewrite Hrec, Hrec' by lia.
      replace (NUM_PHYSICAL_LEV - S d + 1) with (NUM_PHYSICAL_LEV - d) by lia.
      rewrite IH by lia. rewrite Hp by lia. reflexivity. }
  intros k Hk. replace k with (NUM_PHYSICAL_LEV - (NUM_PHYSICAL_LEV - k)) by lia.
  apply Hd. lia.
Qed.

(** X4.  The geopotential.  Both column overloads of [compute_phi_i] leave the
    surface geopotential [phis] at the bottom interface and, at every
    other interface, the geopotential of the interface below plus the
    integrand of the layer between them:
    [Rgas*vtheta_dp*(p/p0)^(kappa-1)/p0], or [Rgas*vtheta_dp*exner/p] when
    the Exner function is supplied.  What the output view held does not
    matter. *)
Theorem compute_phi_i_levels (PC : PhysicalConstants T) (phis : T)
    (vtheta_dp p exner phi_i : @View T) :
  (let out := EquationOfState.compute_phi_i VECTOR_SIZE NUM_PHYSICAL_LEV OnGpu PC
                phis vtheta_dp p phi_i in
   ColumnOps.level VECTOR_SIZE out NUM_PHYSICAL_LEV = phis /\
   forall k, k < NUM_PHYSICAL_LEV ->
     ColumnOps.level VECTOR_SIZE out k =
       (ColumnOps.level VECTOR_SIZE out (k + 1)
        + (Rgas PC * ColumnOps.level VECTOR_SIZE vtheta_dp k
           * rpow (ColumnOps.level VECTOR_SIZE p k / p0 PC) (kappa PC - rlit 1)) / p0 PC)%A)
  /\
  (let out := EquationOfState.compute_phi_i_exner VECTOR_SIZE NUM_PHYSICAL_LEV OnGpu PC
                phis vtheta_dp p exner phi_i in
   ColumnOps.level VECTOR_SIZE out NUM_PHYSICAL_LEV = phis /\
   forall k, k < NUM_PHYSICAL_LEV ->
     ColumnOps.level VECTOR_SIZE out k =
       (ColumnOps.level VECTOR_SIZE out (k + 1)
        + Rgas PC * ColumnOps.level VECTOR_SIZE vtheta_dp k
          * ColumnOps.level VECTOR_SIZE exner k / ColumnOps.level VECTOR_SIZE p k)%A).
Proof.
  split; [apply compute_phi_i_scan|]. cbv zeta.
  unfold EquationOfState.compute_phi_i_exner. cbv zeta.
  match goal with |- context [ColumnOps.column_scan_mid_to_int _ _ _ false ?inp ?s] =>
    destruct (column_scan_mid_to_int_backward inp s) as (Hbot & Hrec)
  end.
  split.
  - rewrite Hbot. unfold ColumnOps.level.
    rewrite <- (last_interface_pack VECTOR_SIZE NUM_PHYSICAL_LEV VECTOR_SIZE_pos).
    rewrite <- (last_interface_lane VECTOR_SIZE NUM_PHYSICAL_LEV VECTOR_SIZE_pos).
    apply set_entry_same.
  - intros k Hk. rewrite (Hrec k Hk). reflexivity.
Qed.

(** A backward scan of the negated midpoint deltas of a column, started
    from its bottom entry, rebuilds the column where [a + -(a - b) = b]. *)
Lemma backward_scan_of_minus_delta (x dx : @View T) :
  (forall a b : T, (a + - (a - b))%A = b) ->
  (forall k, k < NUM_PHYSICAL_LEV ->
     ColumnOps.level VECTOR_SIZE dx k =
     (ColumnOps.level VECTOR_SIZE x (k + 1) - ColumnOps.level VECTOR_SIZE x k)%A) ->
  forall k, k <= NUM_PHYSICAL_LEV ->
    ColumnOps.level VECTOR_SIZE
      (ColumnOps.column_scan_mid_to_int VECTOR_SIZE NUM_PHYSICAL_LEV OnGpu false
         (fun ilev => pack_map ropp (dx ilev)) x) k =
    ColumnOps.level VECTOR_SIZE x k.
Proof.
  intros add_neg_sub Hdx.
  destruct (column_scan_mid_to_int_backward (fun ilev => pack_map ropp (dx ilev)) x)
    as (Hbot & Hrec).
  assert (Hd : forall d, d <= NUM_PHYSICAL_LEV ->
            ColumnOps.level VECTOR_SIZE
              (ColumnOps.column_scan_mid_to_int VECTOR_SIZE NUM_PHYSICAL_LEV OnGpu false
                 (fun ilev => pack_map ropp (dx ilev)) x) (NUM_PHYSICAL_LEV - d) =
            ColumnOps.level VECTOR_SIZE x (NUM_PHYSICAL_LEV - d)).
  { induction d as [|d IH]; intros Hd.
    - rewrite Nat.sub_0_r. exact Hbot.
    - rewrite Hrec by lia.
      replace (NUM_PHYSICAL_LEV - S d + 1) with (NUM_PHYSICAL_LEV - d) by lia.
      rewrite IH by lia.
      change (ColumnOps.level VECTOR_SIZE (fun ilev => pack_map ropp (dx ilev))
                (NUM_PHYSICAL_LEV - S d))
        with (- ColumnOps.level VECTOR_SIZE dx (NUM_PHYSICAL_LEV - S d))%A.
      rewrite Hdx by lia.
      replace (NUM_PHYSICAL_LEV - S d + 1) with (NUM_PHYSICAL_LEV - d) by lia.
      apply add_neg_sub. }
  intros k Hk. replace k with (NUM_PHYSICAL_LEV - (NUM_PHYSICAL_LEV - k)) by lia.
  apply Hd. lia.
Qed.
End GeopotentialScan.

(** An instance over the reals: three levels in packs of two, at the
    reference pressure. *)
Lemma compute_phi_i_levels_witness :
  0 < 2 /\ (false = true -> 2 = 1) /\ 0 < 3 /\
  (let out := EquationOfState.compute_phi_i 2 3 false Examples.constants_R 0%R
                Examples.theta_R Examples.reference_pressure_R Examples.zero_view_R in
   ColumnOps.level 2 out 3 = 0%R /\
   forall k, k < 3 ->
     ColumnOps.level 2 out k =
       (ColumnOps.level 2 out (k + 1)
        + (Rgas Examples.constants_R * ColumnOps.level 2 Examples.theta_R k
           * rpow (ColumnOps.level 2 Examples.reference_pressure_R k
                   / p0 Examples.constants_R)
               (kappa Examples.constants_R - rlit 1)) / p0 Examples.constants_R)%A)
  /\
  (let out := EquationOfState.compute_phi_i_exner 2 3 false Examples.constants_R 0%R
                Examples.theta_R Examples.reference_pressure_R Examples.theta_R
                Examples.zero_view_R in
   ColumnOps.level 2 out 3 = 0%R /\
   forall k, k < 3 ->
     ColumnOps.level 2 out k =
       (ColumnOps.level 2 out (k + 1)
        + Rgas Examples.constants_R * ColumnOps.level 2 Examples.theta_R k
          * ColumnOps.level 2 Examples.theta_R k
          / ColumnOps.level 2 Examples.reference_pressure_R k)%A).
Proof.
  split; [lia|]. split; [intro H; discriminate H|]. split; [lia|].
  apply (compute_phi_i_levels (T:=R) 2 false ltac:(lia) ltac:(intro H; discriminate H)
           R_add_0_r R_add_0_l R_add_comm 3 ltac:(lia)).
Defined.

(** ** How the scans, the deltas and the midpoint values compose *)

Section ScanCompositions.
Context {T : Type} {AT : Arith T}.
Variable VECTOR_SIZE : nat.
Variable NUM_PHYSICAL_LEV : nat.
Variable OnGpu : bool.
Variable NDEBUG : bool.
Hypothesis VECTOR_SIZE_pos : 0 < VECTOR_SIZE.
Hypothesis gpu_vector_size : OnGpu = true -> VECTOR_SIZE = 1.
Hypothesis add_0_r : forall x : T, (x + rlit 0)%A = x.
Hypothesis add_0_l : forall x : T, (rlit 0 + x)%A = x.
Hypothesis add_comm : forall a b : T, (a + b)%A = (b + a)%A.

(** The interface and the midpoint pressure of
    [ElementOps::compute_hydrostatic_p], whatever the output views held. *)
Lemma elem_ops_hydrostatic_p_levels (hv : HybridVCoord T) (XX_NONBFB_COMING : bool)
    (dp p_i pi : @View T) :
  ColumnOps.debug_sanity_check NDEBUG Replace (rlit 1) (rlit 0) = Done tt ->
  exists p_i' pi',
    ElementOps.compute_hydrostatic_p VECTOR_SIZE NUM_PHYSICAL_LEV OnGpu NDEBUG
      XX_NONBFB_COMING hv dp p_i pi = Done (p_i', pi') /\
    (forall k, k <= NUM_PHYSICAL_LEV ->
       ColumnOps.level VECTOR_SIZE p_i' k =
       prefix_sum (hybrid_ai0 hv * ps0 hv)%A (ColumnOps.level VECTOR_SIZE dp) k) /\
    (forall k, k < NUM_PHYSICAL_LEV ->
       ColumnOps.level VECTOR_SIZE pi' k =
       if XX_NONBFB_COMING
       then ((ColumnOps.level VECTOR_SIZE p_i' k + ColumnOps.level VECTOR_SIZE p_i' (k + 1))
             / rlit 2)%A
       else (ColumnOps.level VECTOR_SIZE p_i' k
             + ColumnOps.level VECTOR_SIZE dp k / rlit 2)%A).
Proof.
  intros Hcheck. unfold ElementOps.compute_hydrostatic_p. cbv zeta.
  assert (Hp : forall k, k <= NUM_PHYSICAL_LEV ->
            ColumnOps.level VECTOR_SIZE
              (ColumnOps.column_scan_mid_to_int VECTOR_SIZE NUM_PHYSICAL_LEV OnGpu true dp
                 (set_entry p_i 0 0 (hybrid_ai0 hv * ps0 hv)%A)) k =
            prefix_sum (hybrid_ai0 hv * ps0 hv)%A (ColumnOps.level VECTOR_SIZE dp) k).
  { intros k Hk.
    rewrite (column_scan_mid_to_int_forward VECTOR_SIZE NUM_PHYSICAL_LEV OnGpu
               VECTOR_SIZE_pos gpu_vector_size add_0_r add_0_l add_comm) by exact Hk.
    now rewrite set_entry_same. }
  destruct XX_NONBFB_COMING.
  - unfold ColumnOps.compute_midpoint_values. rewrite Hcheck. cbn [bind].
    do 2 eexists. split; [reflexivity|]. split; [exact Hp|].
    intros k Hk.
    rewrite (compute_midpoint_values_paths VECTOR_SIZE NUM_PHYSICAL_LEV VECTOR_SIZE_pos
               OnGpu gpu_vector_size add_comm) by exact Hk.
    reflexivity.
  - do 2 eexists. split; [reflexivity|]. split; [exact Hp|].
    intros k Hk. unfold ColumnOps.level at 1.
    match goal with |- context [for_loop 0 _ _ pi] =>
      rewrite (for_loop_set_pack (fun ilev (_ : @Pack T) =>
        pack_map2 (fun a b => (a + b / rlit 2)%A)
          (ColumnOps.column_scan_mid_to_int VECTOR_SIZE NUM_PHYSICAL_LEV OnGpu true dp
             (set_entry p_i 0 0 (hybrid_ai0 hv * ps0 hv)%A) ilev) (dp ilev)))
    end.
    pose proof (level_pack_lt VECTOR_SIZE VECTOR_SIZE_pos NUM_PHYSICAL_LEV k Hk) as Hpk.
    unfold ColumnOps.NUM_LEV.
    destruct (Nat.leb_spec 0 (k / VECTOR_SIZE)); [|lia].
    destruct (Nat.ltb_spec (k / VECTOR_SIZE)
                (0 + ColumnOps.NumPacks VECTOR_SIZE NUM_PHYSICAL_LEV)); [|lia].
    reflexivity.
Qed.

(** X5.  The midpoint pressure.  [compute_hydrostatic_p] of ElementOps, built
    with or without [XX_NONBFB_COMING], and that of EquationOfState leave
    at every midpoint the pressure of the interface above plus half the
    layer thickness, [p_i(k) + dp(k)/2].  The variants that average the
    two adjacent interfaces do so where the arithmetic satisfies
    [(a + (a + b)) / 2 = a + b / 2]; the default build of ElementOps
    computes [p_i(k) + dp(k)/2] as such. *)
Theorem compute_hydrostatic_p_midpoints
    (hv : HybridVCoord T) (hydrostatic XX_NONBFB_COMING : bool) (dp p_i pi : @View T) :
  (forall a b : T, ((a + (a + b)) / rlit 2)%A = (a + b / rlit 2)%A) ->
  c_assert NDEBUG hydrostatic "m_theta_hydrostatic_mode" = Done tt ->
  ColumnOps.debug_sanity_check NDEBUG Replace (rlit 1) (rlit 0) = Done tt ->
  (exists p_i' pi',
    ElementOps.compute_hydrostatic_p VECTOR_SIZE NUM_PHYSICAL_LEV OnGpu NDEBUG
      XX_NONBFB_COMING hv dp p_i pi = Done (p_i', pi') /\
    forall k, k < NUM_PHYSICAL_LEV ->
      ColumnOps.level VECTOR_SIZE pi' k =
        (ColumnOps.level VECTOR_SIZE p_i' k + ColumnOps.level VECTOR_SIZE dp k / rlit 2)%A)
  /\
  (exists p_i' pi',
    EquationOfState.compute_hydrostatic_p VECTOR_SIZE NUM_PHYSICAL_LEV OnGpu NDEBUG
      hydrostatic hv dp p_i pi = Done (p_i', pi') /\
    forall k, k < NUM_PHYSICAL_LEV ->
      ColumnOps.level VECTOR_SIZE pi' k =
        (ColumnOps.level VECTOR_SIZE p_i' k + ColumnOps.level VECTOR_SIZE dp k / rlit 2)%A).
Proof.
  intros mean Hassert Hcheck.
  assert (Hmean : forall (p_i' : @View T) k, k < NUM_PHYSICAL_LEV ->
            (forall j, j <= NUM_PHYSICAL_LEV ->
               ColumnOps.level VECTOR_SIZE p_i' j =
               prefix_sum (hybrid_ai0 hv * ps0 hv)%A (ColumnOps.level VECTOR_SIZE dp) j) ->
            ((ColumnOps.level VECTOR_SIZE p_i' k + ColumnOps.level VECTOR_SIZE p_i' (k + 1))
             / rlit 2)%A =
            (ColumnOps.level VECTOR_SIZE p_i' k + ColumnOps.level VECTOR_SIZE dp k / rlit 2)%A).
  { intros p_i' k Hk Hp. rewrite (Hp (k + 1)) by lia. rewrite Nat.add_1_r.
    cbn [prefix_sum]. rewrite <- (Hp k) by lia. apply mean. }
  split.
  - destruct (elem_ops_hydrostatic_p_levels hv XX_NONBFB_COMING dp p_i pi Hcheck)
      as (p_i' & pi' & E & Hp & Hpi).
    exists p_i', pi'. split; [exact E|]. intros k Hk. rewrite (Hpi k Hk).
    destruct XX_NONBFB_COMING; [|reflexivity]. now apply Hmean.
  - destruct (elem_ops_hydrostatic_p_levels hv true dp p_i pi Hcheck)
      as (p_i' & pi' & E & Hp & Hpi).
    exists p_i', pi'. split.
    + unfold EquationOfState.compute_hydrostatic_p. rewrite Hassert. cbn [bind]. exact E.
    + intros k Hk. rewrite (Hpi k Hk). now apply Hmean.
Qed.

(** X6.  Delta after scan.  The midpoint delta of what the forward scan from
    midpoints to interfaces leaves is the input of the scan, at every
    midpoint, where the arithmetic satisfies [(a + b) - a = b]: the layer
    thickness is recovered from the hydrostatic interface pressure. *)
Theorem midpoint_delta_inverts_forward_scan (input sum dx_m : @View T) (alpha beta : T) :
  (forall a b : T, (a + b - a)%A = b) ->
  ColumnOps.debug_sanity_check NDEBUG Replace alpha beta = Done tt ->
  exists out,
    ColumnOps.compute_midpoint_delta VECTOR_SIZE NUM_PHYSICAL_LEV OnGpu NDEBUG Replace
      (ColumnOps.column_scan_mid_to_int VECTOR_SIZE NUM_PHYSICAL_LEV OnGpu true input sum)
      dx_m alpha beta = Done out /\
    forall k, k < NUM_PHYSICAL_LEV ->
      ColumnOps.level VECTOR_SIZE out k = ColumnOps.level VECTOR_SIZE input k.
Proof.
  intros add_sub_cancel Hcheck.
  unfold ColumnOps.compute_midpoint_delta. rewrite Hcheck. cbn [bind].
  eexists. split; [reflexivity|]. intros k Hk.
  rewrite (compute_midpoint_delta_paths VECTOR_SIZE NUM_PHYSICAL_LEV VECTOR_SIZE_pos
             OnGpu gpu_vector_size) by exact Hk.
  cbn [ColumnOps.combine].
  rewrite !(column_scan_mid_to_int_forward VECTOR_SIZE NUM_PHYSICAL_LEV OnGpu
              VECTOR_SIZE_pos gpu_vector_size add_0_r add_0_l add_comm) by lia.
  rewrite Nat.add_1_r. cbn [prefix_sum]. apply add_sub_cancel.
Qed.
End ScanCompositions.

(** An instance: thicknesses 1, 2, 4 in packs of two, on the host, in the
    default build of ElementOps. *)
Lemma compute_hydrostatic_p_midpoints_witness :
  0 < 2 /\ (false = true -> 2 = 1) /\
  (forall x : Qc, (x + rlit 0)%A = x) /\
  (forall x : Qc, (rlit 0 + x)%A = x) /\
  (forall a b : Qc, (a + b)%A = (b + a)%A) /\
  (forall a b : Qc, ((a + (a + b)) / rlit 2)%A = (a + b / rlit 2)%A) /\
  c_assert false true "m_theta_hydrostatic_mode" = Done tt /\
  ColumnOps.debug_sanity_check false Replace (Q2Qc 1) (Q2Qc 0) = Done tt /\
  ((exists p_i' pi',
     ElementOps.compute_hydrostatic_p 2 3 false false false Examples.hvcoord
       (Examples.view_of 2 [1; 2; 4]%Q) Examples.zero_view Examples.zero_view
       = Done (p_i', pi') /\
     forall k, k < 3 ->
       ColumnOps.level 2 pi' k =
         (ColumnOps.level 2 p_i' k
          + ColumnOps.level 2 (Examples.view_of 2 [1; 2; 4]%Q) k / rlit 2)%A)
   /\
   (exists p_i' pi',
     EquationOfState.compute_hydrostatic_p 2 3 false false true Examples.hvcoord
       (Examples.view_of 2 [1; 2; 4]%Q) Examples.zero_view Examples.zero_view
       = Done (p_i', pi') /\
     forall k, k < 3 ->
       ColumnOps.level 2 pi' k =
         (ColumnOps.level 2 p_i' k
          + ColumnOps.level 2 (Examples.view_of 2 [1; 2; 4]%Q) k / rlit 2)%A)).
Proof.
  split; [lia|]. split; [intro H; discriminate H|].
  split; [exact Qcplus_0_r|]. split; [exact Qcplus_0_l|]. split; [exact Qcplus_comm|].
  split; [exact Qc_mean|]. split; [reflexivity|]. split; [reflexivity|].
  apply (compute_hydrostatic_p_midpoints (T:=Qc) 2 3 false false ltac:(lia)
           ltac:(intro H; discriminate H) Qcplus_0_r Qcplus_0_l Qcplus_comm);
    [exact Qc_mean | reflexivity | reflexivity].
Defined.

(** An instance: the thicknesses 1, 2, 4 are recovered from their running
    sum. *)
Lemma midpoint_delta_inverts_forward_scan_witness :
  0 < 2 /\ (false = true -> 2 = 1) /\
  (forall x : Qc, (x + rlit 0)%A = x) /\
  (forall x : Qc, (rlit 0 + x)%A = x) /\
  (forall a b : Qc, (a + b)%A = (b + a)%A) /\
  (forall a b : Qc, (a + b - a)%A = b) /\
  ColumnOps.debug_sanity_check false Replace (Q2Qc 1) (Q2Qc 0) = Done tt /\
  exists out,
    ColumnOps.compute_midpoint_delta 2 3 false false Replace
      (ColumnOps.column_scan_mid_to_int 2 3 false true
         (Examples.view_of 2 [1; 2; 4]%Q) Examples.unit_weights)
      Examples.zero_view (Q2Qc 1) (Q2Qc 0) = Done out /\
    forall k, k < 3 ->
      ColumnOps.level 2 out k = ColumnOps.level 2 (Examples.view_of 2 [1; 2; 4]%Q) k.
Proof.
  split; [lia|]. split; [intro H; discriminate H|].
  split; [exact Qcplus_0_r|]. split; [exact Qcplus_0_l|]. split; [exact Qcplus_comm|].
  split; [exact Qc_add_sub_cancel|]. split; [reflexivity|].
  apply (midpoint_delta_inverts_forward_scan (T:=Qc) 2 3 false false ltac:(lia)
           ltac:(intro H; discriminate H) Qcplus_0_r Qcplus_0_l Qcplus_comm);
    [exact Qc_add_sub_cancel | reflexivity].
Defined.

(** ** RemapStateProvider: preprocess_state and postprocess_state *)

Section RemapRoundTrip.
Context {T : Type} {AT : Arith T} {PT : Pow T}.
Variable VECTOR_SIZE : nat.
Variable NUM_PHYSICAL_LEV : nat.
Variable OnGpu : bool.
Variable NDEBUG : bool.
Variable XX_NONBFB_COMING : bool.
Variable PC : PhysicalConstants T.
Variable hv : HybridVCoord T.
Hypothesis VECTOR_SIZE_pos : 0 < VECTOR_SIZE.
Hypothesis NUM_PHYSICAL_LEV_pos : 0 < NUM_PHYSICAL_LEV.
Hypothesis gpu_vector_size : OnGpu = true -> VECTOR_SIZE = 1.
Hypothesis add_0_r : forall x : T, (x + rlit 0)%A = x.
Hypothesis add_0_l : forall x : T, (rlit 0 + x)%A = x.
Hypothesis add_comm : forall a b : T, (a + b)%A = (b + a)%A.
Hypothesis add_neg_sub : forall a b : T, (a + - (a - b))%A = b.
Hypothesis debug_check :
  ColumnOps.debug_sanity_check NDEBUG Replace (rlit 1) (rlit 0) = Done tt.

(** No interface above the bottom one sits in the entry of the bottom
    one. *)
Lemma above_bottom_interface k :
  k < NUM_PHYSICAL_LEV ->
  k / VECTOR_SIZE <> NUM_PHYSICAL_LEV / VECTOR_SIZE \/
  k mod VECTOR_SIZE <> NUM_PHYSICAL_LEV mod VECTOR_SIZE.
Proof.
  intros Hk.
  destruct (Nat.eq_dec (k / VECTOR_SIZE) (NUM_PHYSICAL_LEV / VECTOR_SIZE)) as [Hd|];
    [|now left].
  right. intros Hm. pose proof (level_inj VECTOR_SIZE _ _ Hd Hm). lia.
Qed.

(** X7.  The vertical velocity across a remap.  [preprocess_state] for state 0
    followed by [postprocess_state] for state 0 rebuilds [w_i] at every
    interface above the surface from its bottom value and its increments,
    where [a + -(a - b) = b], and sets the surface value to
    [(v . gradphis) / g] with the wind of the lowest midpoint.  The
    geopotential is left alone. *)
Theorem remap_w_i_round_trip (dp : @View T) (c : @RemapStateProvider.Column T) :
  exists c1 c2,
    RemapStateProvider.preprocess_state VECTOR_SIZE NUM_PHYSICAL_LEV OnGpu NDEBUG
      XX_NONBFB_COMING PC hv 0 dp c = Done c1 /\
    RemapStateProvider.postprocess_state VECTOR_SIZE NUM_PHYSICAL_LEV OnGpu NDEBUG
      XX_NONBFB_COMING PC hv 0 dp c1 = Done c2 /\
    (forall k, k < NUM_PHYSICAL_LEV ->
       ColumnOps.level VECTOR_SIZE (RemapStateProvider.m_w_i c2) k =
       ColumnOps.level VECTOR_SIZE (RemapStateProvider.m_w_i c) k) /\
    ColumnOps.level VECTOR_SIZE (RemapStateProvider.m_w_i c2) NUM_PHYSICAL_LEV =
      ((ColumnOps.level VECTOR_SIZE (RemapStateProvider.m_v_0 c) (NUM_PHYSICAL_LEV - 1)
        * RemapStateProvider.m_gradphis_0 c
        + ColumnOps.level VECTOR_SIZE (RemapStateProvider.m_v_1 c) (NUM_PHYSICAL_LEV - 1)
          * RemapStateProvider.m_gradphis_1 c) / g PC)%A /\
    RemapStateProvider.m_phinh_i c2 = RemapStateProvider.m_phinh_i c.
Proof.
  unfold RemapStateProvider.preprocess_state. change (Z.eqb 0 0) with true. cbv iota.
  unfold ColumnOps.compute_midpoint_delta. rewrite debug_check. cbn [bind].
  eexists. eexists. split; [reflexivity|].
  unfold RemapStateProvider.postprocess_state. change (Z.eqb 0 0) with true. cbv iota zeta.
  split; [reflexivity|].
  cbn [RemapStateProvider.m_w_i RemapStateProvider.m_delta_w RemapStateProvider.m_v_0
       RemapStateProvider.m_v_1 RemapStateProvider.m_gradphis_0
       RemapStateProvider.m_gradphis_1 RemapStateProvider.m_phinh_i].
  rewrite (last_interface_pack VECTOR_SIZE NUM_PHYSICAL_LEV VECTOR_SIZE_pos).
  rewrite (last_interface_lane VECTOR_SIZE NUM_PHYSICAL_LEV VECTOR_SIZE_pos).
  rewrite (last_midpoint_pack VECTOR_SIZE NUM_PHYSICAL_LEV VECTOR_SIZE_pos NUM_PHYSICAL_LEV_pos).
  rewrite (last_midpoint_lane VECTOR_SIZE NUM_PHYSICAL_LEV VECTOR_SIZE_pos NUM_PHYSICAL_LEV_pos).
  split; [|split; [|reflexivity]].
  - intros k Hk. unfold ColumnOps.level at 1.
    rewrite set_entry_other by (now apply above_bottom_interface).
    apply (backward_scan_of_minus_delta VECTOR_SIZE OnGpu VECTOR_SIZE_pos gpu_vector_size
             add_0_r add_0_l add_comm NUM_PHYSICAL_LEV NUM_PHYSICAL_LEV_pos);
      [exact add_neg_sub | | lia].
    intros j Hj.
    apply (compute_midpoint_delta_paths VECTOR_SIZE NUM_PHYSICAL_LEV VECTOR_SIZE_pos
             OnGpu gpu_vector_size Replace). exact Hj.
  - unfold ColumnOps.level at 1. rewrite set_entry_same. reflexivity.
Qed.

Hypothesis sub_add : forall a b : T, (a - b + b)%A = a.

(** X8.  The geopotential across a remap.  [preprocess_state] for state 1
    removes the reference geopotential and takes the increments;
    [postprocess_state] for state 1, run with the same layer thickness and
    the same potential temperature, rebuilds the column from the
    increments and adds the reference back: every interface holds again
    the geopotential it held, where [a + -(a - b) = b] and
    [(a - b) + b = a].  The vertical velocity is left alone. *)
Theorem remap_phinh_i_round_trip (dp : @View T) (c : @RemapStateProvider.Column T) :
  exists c1 c2,
    RemapStateProvider.preprocess_state VECTOR_SIZE NUM_PHYSICAL_LEV OnGpu NDEBUG
      XX_NONBFB_COMING PC hv 1 dp c = Done c1 /\
    RemapStateProvider.postprocess_state VECTOR_SIZE NUM_PHYSICAL_LEV OnGpu NDEBUG
      XX_NONBFB_COMING PC hv 1 dp c1 = Done c2 /\
    (forall k, k <= NUM_PHYSICAL_LEV ->
       ColumnOps.level VECTOR_SIZE (RemapStateProvider.m_phinh_i c2) k =
       ColumnOps.level VECTOR_SIZE (RemapStateProvider.m_phinh_i c) k) /\
    RemapStateProvider.m_w_i c2 = RemapStateProvider.m_w_i c.
Proof.
  unfold RemapStateProvider.preprocess_state.
  change (Z.eqb 1 0) with false. change (Z.eqb 1 1) with true. cbv iota.
  destruct (elem_ops_hydrostatic_p_levels VECTOR_SIZE NUM_PHYSICAL_LEV OnGpu NDEBUG
              VECTOR_SIZE_pos gpu_vector_size add_0_r add_0_l add_comm hv XX_NONBFB_COMING
              dp (RemapStateProvider.m_temp c) (RemapStateProvider.m_delta_phinh c)
              debug_check) as (p_i1 & p1 & E1 & Hp_i1 & Hp1).
  rewrite E1. cbn [bind]. cbv zeta.
  set (phi_ref1 := EquationOfState.compute_phi_i VECTOR_SIZE NUM_PHYSICAL_LEV OnGpu PC
                     (RemapStateProvider.m_phis c) (RemapStateProvider.m_vtheta_dp c)
                     p1 p_i1).
  set (phinh1 := for_loop 0 (ColumnOps.NUM_LEV_P VECTOR_SIZE NUM_PHYSICAL_LEV)
                   (fun ilev phinh_i =>
                      set_pack phinh_i ilev (pack_map2 rsub (phinh_i ilev) (phi_ref1 ilev)))
                   (RemapStateProvider.m_phinh_i c)).
  unfold ColumnOps.compute_midpoint_delta. rewrite debug_check. cbn [bind].
  set (delta1 := if OnGpu
                 then ColumnOps.compute_midpoint_delta_gpu NUM_PHYSICAL_LEV Replace
                        phinh1 p1 (rlit 1) (rlit 0)
                 else ColumnOps.compute_midpoint_delta_simd VECTOR_SIZE NUM_PHYSICAL_LEV
                        Replace phinh1 p1 (rlit 1) (rlit 0)).
  destruct (elem_ops_hydrostatic_p_levels VECTOR_SIZE NUM_PHYSICAL_LEV OnGpu NDEBUG
              VECTOR_SIZE_pos gpu_vector_size add_0_r add_0_l add_comm hv XX_NONBFB_COMING
              dp phi_ref1 delta1 debug_check) as (p_i2 & p2 & E2 & Hp_i2 & Hp2).
  eexists. eexists. split; [reflexivity|].
  unfold RemapStateProvider.postprocess_state.
  change (Z.eqb 1 0) with false. change (Z.eqb 1 1) with true. cbv iota zeta.
  cbn [RemapStateProvider.m_w_i RemapStateProvider.m_delta_phinh RemapStateProvider.m_temp
       RemapStateProvider.m_phis RemapStateProvider.m_vtheta_dp
       RemapStateProvider.m_phinh_i].
  rewrite E2. cbn [bind].
  split; [reflexivity|].
  cbn [RemapStateProvider.m_w_i RemapStateProvider.m_phinh_i].
  split; [|reflexivity].
  intros k Hk.
  assert (Hpk : k / VECTOR_SIZE < ColumnOps.NUM_LEV_P VECTOR_SIZE NUM_PHYSICAL_LEV).
  { apply level_pack_lt; [assumption | unfold ColumnOps.NUM_INTERFACE_LEV; lia]. }
  (* the reference geopotential is the same before and after *)
  assert (Hp12 : forall j, j < NUM_PHYSICAL_LEV ->
            ColumnOps.level VECTOR_SIZE p2 j = ColumnOps.level VECTOR_SIZE p1 j).
  { intros j Hj. rewrite (Hp1 j Hj), (Hp2 j Hj).
    rewrite !Hp_i1, !Hp_i2 by lia. reflexivity. }
  set (phi_ref2 := EquationOfState.compute_phi_i VECTOR_SIZE NUM_PHYSICAL_LEV OnGpu PC
                     (RemapStateProvider.m_phis c) (RemapStateProvider.m_vtheta_dp c)
                     p2 p_i2).
  assert (Href : ColumnOps.level VECTOR_SIZE phi_ref2 k = ColumnOps.level VECTOR_SIZE phi_ref1 k).
  { apply (compute_phi_i_ext VECTOR_SIZE OnGpu VECTOR_SIZE_pos gpu_vector_size
             add_0_r add_0_l add_comm NUM_PHYSICAL_LEV NUM_PHYSICAL_LEV_pos);
      [exact Hp12 | exact Hk]. }
  (* what the preprocessing left in phinh_i *)
  assert (Hphinh1 : forall j, j <= NUM_PHYSICAL_LEV ->
            ColumnOps.level VECTOR_SIZE phinh1 j =
            (ColumnOps.level VECTOR_SIZE (RemapStateProvider.m_phinh_i c) j
             - ColumnOps.level VECTOR_SIZE phi_ref1 j)%A).
  { intros j Hj. subst phinh1. unfold ColumnOps.level at 1.
    rewrite (for_loop_set_pack (fun ilev p => pack_map2 rsub p (phi_ref1 ilev))).
    assert (j / VECTOR_SIZE < ColumnOps.NUM_LEV_P VECTOR_SIZE NUM_PHYSICAL_LEV).
    { apply level_pack_lt; [assumption | unfold ColumnOps.NUM_INTERFACE_LEV; lia]. }
    destruct (Nat.leb_spec 0 (j / VECTOR_SIZE)); [|lia].
    destruct (Nat.ltb_spec (j / VECTOR_SIZE)
                (0 + ColumnOps.NUM_LEV_P VECTOR_SIZE NUM_PHYSICAL_LEV)); [|lia].
    reflexivity. }
  unfold ColumnOps.level at 1.
  rewrite (for_loop_set_pack (fun ilev p => pack_map2 radd p (phi_ref2 ilev))).
  destruct (Nat.leb_spec 0 (k / VECTOR_SIZE)); [|lia].
  destruct (Nat.ltb_spec (k / VECTOR_SIZE)
              (0 + ColumnOps.NUM_LEV_P VECTOR_SIZE NUM_PHYSICAL_LEV)); [|lia].
  cbn [andb]. unfold pack_map2.
  fold (ColumnOps.level VECTOR_SIZE phi_ref2 k). rewrite Href.
  match goal with |- radd (?s (Nat.div k VECTOR_SIZE) (Nat.modulo k VECTOR_SIZE)) _ = _ =>
    fold (ColumnOps.level VECTOR_SIZE s k)
  end.
  rewrite (backward_scan_of_minus_delta VECTOR_SIZE OnGpu VECTOR_SIZE_pos gpu_vector_size
             add_0_r add_0_l add_comm NUM_PHYSICAL_LEV NUM_PHYSICAL_LEV_pos phinh1 delta1
             add_neg_sub).
  - rewrite (Hphinh1 k Hk). apply sub_add.
  - intros j Hj. subst delta1.
    apply (compute_midpoint_delta_paths VECTOR_SIZE NUM_PHYSICAL_LEV VECTOR_SIZE_pos
             OnGpu gpu_vector_size Replace). exact Hj.
  - exact Hk.
Qed.

End RemapRoundTrip.

(** Instances over the reals: three levels in packs of one, in a build
    with [NDEBUG]. *)
Lemma remap_w_i_round_trip_witness :
  0 < 1 /\ 0 < 3 /\ (false = true -> 1 = 1) /\
  ColumnOps.debug_sanity_check (T:=R) true Replace (rlit 1) (rlit 0) = Done tt /\
  exists c1 c2,
    RemapStateProvider.preprocess_state 1 3 false true false Examples.constants_R
      Examples.hvcoord_R 0 Examples.zero_view_R Examples.remap_column_R = Done c1 /\
    RemapStateProvider.postprocess_state 1 3 false true false Examples.constants_R
      Examples.hvcoord_R 0 Examples.zero_view_R c1 = Done c2 /\
    (forall k, k < 3 ->
       ColumnOps.level 1 (RemapStateProvider.m_w_i c2) k =
       ColumnOps.level 1 (RemapStateProvider.m_w_i Examples.remap_column_R) k) /\
    ColumnOps.level 1 (RemapStateProvider.m_w_i c2) 3 =
      ((ColumnOps.level 1 (RemapStateProvider.m_v_0 Examples.remap_column_R) (3 - 1)
        * RemapStateProvider.m_gradphis_0 Examples.remap_column_R
        + ColumnOps.level 1 (RemapStateProvider.m_v_1 Examples.remap_column_R) (3 - 1)
          * RemapStateProvider.m_gradphis_1 Examples.remap_column_R)
       / g Examples.constants_R)%A /\
    RemapStateProvider.m_phinh_i c2 = RemapStateProvider.m_phinh_i Examples.remap_column_R.
Proof.
  split; [lia|]. split; [lia|]. split; [intros _; reflexivity|]. split; [reflexivity|].
  apply (remap_w_i_round_trip (T:=R) 1 3 false true false Examples.constants_R
           Examples.hvcoord_R ltac:(lia) ltac:(lia) ltac:(intros _; reflexivity)
           R_add_0_r R_add_0_l R_add_comm R_add_neg_sub eq_refl).
Defined.

Lemma remap_phinh_i_round_trip_witness :
  0 < 1 /\ 0 < 3 /\ (false = true -> 1 = 1) /\
  ColumnOps.debug_sanity_check (T:=R) true Replace (rlit 1) (rlit 0) = Done tt /\
  exists c1 c2,
    RemapStateProvider.preprocess_state 1 3 false true false Examples.constants_R
      Examples.hvcoord_R 1 Examples.reference_pressure_R Examples.remap_column_R
      = Done c1 /\
    RemapStateProvider.postprocess_state 1 3 false true false Examples.constants_R
      Examples.hvcoord_R 1 Examples.reference_pressure_R c1 = Done c2 /\
    (forall k, k <= 3 ->
       ColumnOps.level 1 (RemapStateProvider.m_phinh_i c2) k =
       ColumnOps.level 1 (RemapStateProvider.m_phinh_i Examples.remap_column_R) k) /\
    RemapStateProvider.m_w_i c2 = RemapStateProvider.m_w_i Examples.remap_column_R.
Proof.
  split; [lia|]. split; [lia|]. split; [intros _; reflexivity|]. split; [reflexivity|].
  apply (remap_phinh_i_round_trip (T:=R) 1 3 false true false Examples.constants_R
           Examples.hvcoord_R ltac:(lia) ltac:(lia) ltac:(intros _; reflexivity)
           R_add_0_r R_add_0_l R_add_comm R_add_neg_sub eq_refl R_sub_add).
Defined.

Section RemapStates.
Context {T : Type}.
Variable NDEBUG : bool.

(** X9.  The views handed to the remap.  [get_state] returns a view exactly
    for the indices below [num_states_remap]; the two indices that
    [is_intrinsic_state] flags are those of the two components of the
    horizontal wind, and the increments of [w_i] and [phinh_i] are states
    0 and 1.  Any other index ends the run, through the assertion or
    through [Kokkos::abort]. *)
Theorem remap_get_state_indices (var : Z) (c : @RemapStateProvider.Column T) :
  ((0 <= var < RemapStateProvider.num_states_remap)%Z ->
   exists x,
     RemapStateProvider.get_state NDEBUG var c = Done x /\
     (var = 0%Z -> x = RemapStateProvider.m_delta_w c) /\
     (var = 1%Z -> x = RemapStateProvider.m_delta_phinh c) /\
     (RemapStateProvider.is_intrinsic_state NDEBUG var = Done true ->
      (var = 3%Z /\ x = RemapStateProvider.m_v_0 c) \/
      (var = 4%Z /\ x = RemapStateProvider.m_v_1 c))) /\
  (~ (0 <= var < RemapStateProvider.num_states_remap)%Z ->
   exists message, RemapStateProvider.get_state NDEBUG var c = Fatal message).
Proof.
  unfold RemapStateProvider.num_states_remap. split.
  - intros Hvar.
    assert (Hcases : var = 0%Z \/ var = 1%Z \/ var = 2%Z \/ var = 3%Z \/ var = 4%Z) by lia.
    destruct Hcases as [-> | [-> | [-> | [-> | ->]]]];
      (eexists; split;
       [unfold RemapStateProvider.get_state, c_assert; destruct NDEBUG; reflexivity|]);
      (split; [intros H; try discriminate H; reflexivity|]);
      (split; [intros H; try discriminate H; reflexivity|]);
      unfold RemapStateProvider.is_intrinsic_state, c_assert; destruct NDEBUG;
      cbn; intros H; try discriminate H; auto.
  - intros Hvar. unfold RemapStateProvider.get_state, c_assert.
    destruct (Z.leb_spec 0 var), (Z.leb_spec var 4); try lia;
      destruct NDEBUG; cbn [orb andb bind]; try (eexists; reflexivity);
      destruct (Z.eqb_spec var 0); try lia;
      destruct (Z.eqb_spec var 1); try lia;
      destruct (Z.eqb_spec var 2); try lia;
      destruct (Z.eqb_spec var 3); try lia;
      destruct (Z.eqb_spec var 4); try lia;
      eexists; reflexivity.
Qed.
End RemapStates.

(** ** EquationOfState: the Exner function and the non-hydrostatic
       pressure *)

Section OwnPack.
Context {T : Type}.

(** A loop whose iteration [i] changes pack [i] only, and that as a
    function of the old pack. *)
Lemma for_loop_own_pack (body : nat -> @View T -> @View T)
    (F : nat -> @Pack T -> @Pack T) lo n (x : @View T) k :
  (forall i y j, j <> i -> body i y j = y j) ->
  (forall i y, body i y i = F i (y i)) ->
  for_loop lo n body x k =
  if Nat.leb lo k && Nat.ltb k (lo + n) then F k (x k) else x k.
Proof.
  intros Hother Hown. revert lo x. induction n as [|n IH]; intros lo x; simpl.
  - destruct (Nat.leb_spec lo k), (Nat.ltb_spec k (lo + 0)); simpl; try reflexivity; lia.
  - rewrite IH. destruct (Nat.eq_dec k lo) as [->|Hne].
    + rewrite Hown.
      destruct (Nat.leb_spec (S lo) lo); [lia|]. simpl.
      destruct (Nat.leb_spec lo lo); [|lia].
      destruct (Nat.ltb_spec lo (lo + S n)); [|lia]. reflexivity.
    + rewrite Hother by assumption.
      destruct (Nat.leb_spec (S lo) k), (Nat.leb_spec lo k),
               (Nat.ltb_spec k (S lo + n)), (Nat.ltb_spec k (lo + S n));
        simpl; try reflexivity; lia.
Qed.

End OwnPack.

Section ExnerAndPressure.
Context {T : Type} {AT : Arith T} {PT : Pow T}.
Variable VECTOR_SIZE : nat.
Variable NUM_PHYSICAL_LEV : nat.
Variable PC : PhysicalConstants T.
Hypothesis VECTOR_SIZE_pos : 0 < VECTOR_SIZE.

(** [compute_exner], level by level. *)
Lemma compute_exner_levels (pi exner : @View T) k :
  k < NUM_PHYSICAL_LEV ->
  ColumnOps.level VECTOR_SIZE
    (EquationOfState.compute_exner VECTOR_SIZE NUM_PHYSICAL_LEV PC pi exner) k =
  rpow (ColumnOps.level VECTOR_SIZE pi k / p0 PC)%A (kappa PC).
Proof.
  intros Hk. unfold EquationOfState.compute_exner, ColumnOps.level.
  pose proof (level_pack_lt VECTOR_SIZE VECTOR_SIZE_pos NUM_PHYSICAL_LEV k Hk) as Hpk.
  fold (ColumnOps.NUM_LEV VECTOR_SIZE NUM_PHYSICAL_LEV) in Hpk.
  rewrite (for_loop_own_pack _ (fun ilev (_ : @Pack T) =>
    pack_map (fun v => rpow v (kappa PC)) (pack_map (fun v => (v / p0 PC)%A) (pi ilev)))).
  - destruct (Nat.leb_spec 0 (k / VECTOR_SIZE)); [|lia].
    destruct (Nat.ltb_spec (k / VECTOR_SIZE)
                (0 + ColumnOps.NUM_LEV VECTOR_SIZE NUM_PHYSICAL_LEV)); [|lia].
    reflexivity.
  - intros i y j Hj. now rewrite !set_pack_other by assumption.
  - intros i y. now rewrite !set_pack_same.
Qed.

(** The loop of [compute_pnh_and_exner]: what it leaves in [pnh] and in
    [exner], given what the midpoint delta left in [exner]. *)
Lemma pnh_and_exner_loop (vtheta_dp pnh exner : @View T) k :
  k < NUM_PHYSICAL_LEV ->
  let out :=
    for_loop 0 (ColumnOps.NUM_LEV VECTOR_SIZE NUM_PHYSICAL_LEV)
      (fun ilev (st : @View T * @View T) =>
         let (pnh, exner) := st in
         let exner := set_pack exner ilev
               (pack_map2 (fun vt e => (- Rgas PC) * vt / e)%A (vtheta_dp ilev) (exner ilev)) in
         let pnh := set_pack pnh ilev (pack_map (fun e => e / p0 PC)%A (exner ilev)) in
         let pnh := set_pack pnh ilev
               (pack_map (fun v => rpow v (rlit 1 / (rlit 1 - kappa PC))%A) (pnh ilev)) in
         let pnh := set_pack pnh ilev (pack_map (fun v => v * p0 PC)%A (pnh ilev)) in
         let exner := set_pack exner ilev (pack_map2 rdiv (pnh ilev) (exner ilev)) in
         (pnh, exner)) (pnh, exner) in
  let p_over_exner :=
    ((- Rgas PC) * ColumnOps.level VECTOR_SIZE vtheta_dp k
     / ColumnOps.level VECTOR_SIZE exner k)%A in
  ColumnOps.level VECTOR_SIZE (fst out) k =
    (rpow (p_over_exner / p0 PC) (rlit 1 / (rlit 1 - kappa PC)) * p0 PC)%A /\
  ColumnOps.level VECTOR_SIZE (snd out) k =
    (ColumnOps.level VECTOR_SIZE (fst out) k / p_over_exner)%A.
Proof.
  intros Hk out p_over_exner.
  pose proof (level_pack_lt VECTOR_SIZE VECTOR_SIZE_pos NUM_PHYSICAL_LEV k Hk) as Hpk.
  fold (ColumnOps.NUM_LEV VECTOR_SIZE NUM_PHYSICAL_LEV) in Hpk.
  set (poe := fun p i => ((- Rgas PC) * vtheta_dp p i / exner p i)%A).
  set (newp := fun p i =>
         (rpow (poe p i / p0 PC) (rlit 1 / (rlit 1 - kappa PC)) * p0 PC)%A).
  assert (Inv : forall p i,
            (p < ColumnOps.NUM_LEV VECTOR_SIZE NUM_PHYSICAL_LEV ->
             fst out p i = newp p i /\ snd out p i = (newp p i / poe p i)%A) /\
            (ColumnOps.NUM_LEV VECTOR_SIZE NUM_PHYSICAL_LEV <= p ->
             fst out p i = pnh p i /\ snd out p i = exner p i)).
  { subst out.
    match goal with |- forall p i, (_ -> fst (for_loop 0 ?N ?body ?s) _ _ = _ /\ _) /\ _ =>
      apply (for_loop_invariant
        (fun m (st : @View T * @View T) => forall p i,
           (p < m -> fst st p i = newp p i /\ snd st p i = (newp p i / poe p i)%A) /\
           (m <= p -> fst st p i = pnh p i /\ snd st p i = exner p i))
        body N 0 s)
    end.
    - intros p i. split; [intros; lia | intros _; split; reflexivity].
    - intros m [a b] Hm IH p i. cbn [Nat.add fst snd].
      destruct (Nat.eq_dec p m) as [->|Hne].
      + split; [intros _|intros; lia].
        destruct (IH m i) as [_ Hold]. destruct (Hold (Nat.le_refl m)) as [_ Hb].
        cbn [fst snd] in Hb.
        rewrite !set_pack_same. unfold pack_map, pack_map2.
        rewrite ?set_pack_same. subst newp poe. cbv beta. rewrite Hb. split; reflexivity.
      + rewrite !set_pack_other by assumption.
        destruct (IH p i) as [Hlt Hge]. cbn [fst snd] in Hlt, Hge.
        split; [intros; apply Hlt; lia | intros; apply Hge; lia]. }
  unfold ColumnOps.level. subst p_over_exner.
  destruct (Inv (k / VECTOR_SIZE) (k mod VECTOR_SIZE)) as [Hlt _].
  destruct (Hlt Hpk) as [Hf Hs]. rewrite Hs, Hf. split; reflexivity.
Qed.

Variable OnGpu : bool.
Variable NDEBUG : bool.
Hypothesis gpu_vector_size : OnGpu = true -> VECTOR_SIZE = 1.

(** X10.  The non-hydrostatic pressure.  In non-hydrostatic mode (or in a build
    with [NDEBUG], where the mode is not checked) and with the debug check
    of the scale factors passed, [compute_pnh_and_exner] returns, at every
    midpoint, with [p_over_exner = -Rgas*vtheta_dp/(phi_i(k+1) - phi_i(k))]:
    [pnh = p0*(p_over_exner/p0)^(1/(1-kappa))] and
    [exner = pnh/p_over_exner].  In a debug build in hydrostatic mode the
    call ends the run. *)
Theorem compute_pnh_and_exner_levels (hydrostatic : bool)
    (vtheta_dp phi_i pnh exner : @View T) :
  ColumnOps.debug_sanity_check NDEBUG Replace (rlit 1) (rlit 0) = Done tt ->
  (NDEBUG || negb hydrostatic = true ->
   exists pnh' exner',
     EquationOfState.compute_pnh_and_exner VECTOR_SIZE NUM_PHYSICAL_LEV OnGpu NDEBUG PC
       hydrostatic vtheta_dp phi_i pnh exner = Done (pnh', exner') /\
     forall k, k < NUM_PHYSICAL_LEV ->
       let p_over_exner :=
         ((- Rgas PC) * ColumnOps.level VECTOR_SIZE vtheta_dp k
          / (ColumnOps.level VECTOR_SIZE phi_i (k + 1) - ColumnOps.level VECTOR_SIZE phi_i k))%A in
       ColumnOps.level VECTOR_SIZE pnh' k =
         (rpow (p_over_exner / p0 PC) (rlit 1 / (rlit 1 - kappa PC)) * p0 PC)%A /\
       ColumnOps.level VECTOR_SIZE exner' k =
         (ColumnOps.level VECTOR_SIZE pnh' k / p_over_exner)%A) /\
  (NDEBUG || negb hydrostatic = false ->
   exists message,
     EquationOfState.compute_pnh_and_exner VECTOR_SIZE NUM_PHYSICAL_LEV OnGpu NDEBUG PC
       hydrostatic vtheta_dp phi_i pnh exner = Fatal message).
Proof.
  intros Hcheck. unfold EquationOfState.compute_pnh_and_exner, c_assert. split.
  - intros ->. cbn [bind].
    unfold ColumnOps.compute_midpoint_delta. rewrite Hcheck. cbn [bind].
    match goal with |- context [Done (for_loop 0 ?N ?body ?s)] =>
      exists (fst (for_loop 0 N body s)), (snd (for_loop 0 N body s))
    end.
    split; [rewrite <- surjective_pairing; reflexivity|].
    intros k Hk. cbv zeta.
    match goal with |- context [for_loop 0 _ _ (pnh, ?e)] =>
      destruct (pnh_and_exner_loop vtheta_dp pnh e k Hk) as (Hf & Hs);
      pose proof (compute_midpoint_delta_paths VECTOR_SIZE NUM_PHYSICAL_LEV VECTOR_SIZE_pos
                    OnGpu gpu_vector_size Replace phi_i exner (rlit 1) (rlit 0) k Hk) as Hd
    end.
    cbn [ColumnOps.combine] in Hd. rewrite Hd in Hf, Hs. split; [exact Hf | exact Hs].
  - intros ->. cbn [bind]. eexists. reflexivity.
Qed.
End ExnerAndPressure.

(** An instance over the reals, in a debug build: the non-hydrostatic
    mode on three levels in packs of two. *)
Lemma compute_pnh_and_exner_levels_witness :
  0 < 2 /\ (false = true -> 2 = 1) /\
  ColumnOps.debug_sanity_check (T:=R) false Replace (rlit 1) (rlit 0) = Done tt /\
  (false || negb false = true ->
   exists pnh' exner',
     EquationOfState.compute_pnh_and_exner 2 3 false false Examples.constants_R
       false Examples.theta_R Examples.ramp_R Examples.zero_view_R Examples.zero_view_R
       = Done (pnh', exner') /\
     forall k, k < 3 ->
       let p_over_exner :=
         ((- Rgas Examples.constants_R) * ColumnOps.level 2 Examples.theta_R k
          / (ColumnOps.level 2 Examples.ramp_R (k + 1)
             - ColumnOps.level 2 Examples.ramp_R k))%A in
       ColumnOps.level 2 pnh' k =
         (rpow (p_over_exner / p0 Examples.constants_R)
            (rlit 1 / (rlit 1 - kappa Examples.constants_R))
          * p0 Examples.constants_R)%A /\
       ColumnOps.level 2 exner' k = (ColumnOps.level 2 pnh' k / p_over_exner)%A) /\
  (false || negb false = false ->
   exists message,
     EquationOfState.compute_pnh_and_exner 2 3 false false Examples.constants_R
       false Examples.theta_R Examples.ramp_R Examples.zero_view_R Examples.zero_view_R
       = Fatal message).
Proof.
  split; [lia|]. split; [intro H; discriminate H|].
  split; [exact R_sanity_check_defaults|].
  apply (compute_pnh_and_exner_levels (T:=R) 2 3 Examples.constants_R ltac:(lia)
           false false ltac:(intro H; discriminate H) false).
  exact R_sanity_check_defaults.
Defined.

(** ** compute_phi_i and compute_pnh_and_exner are inverse to each other *)

Section DiscreteInverse.
Variable VECTOR_SIZE : nat.
Variable NUM_PHYSICAL_LEV : nat.
Variable OnGpu : bool.
Variable NDEBUG : bool.
Variable PC : PhysicalConstants R.
Hypothesis VECTOR_SIZE_pos : 0 < VECTOR_SIZE.
Hypothesis NUM_PHYSICAL_LEV_pos : 0 < NUM_PHYSICAL_LEV.
Hypothesis gpu_vector_size : OnGpu = true -> VECTOR_SIZE = 1.
Hypothesis p0_pos : (0 < p0 PC)%R.
Hypothesis kappa_not_1 : kappa PC <> 1%R.
Hypothesis Rgas_not_0 : Rgas PC <> 0%R.

(** The real-number identities behind the inversion: with [x = p/p0] and
    the geopotential step [phi(k) = phi(k+1) + Rgas*vt*x^(kappa-1)/p0],
    the pressure recovered from the step is [p], and the Exner function
    recovered is [x^kappa]. *)
Lemma pressure_of_geopotential_step (pk vt nxt : R) :
  (0 < pk)%R -> vt <> 0%R ->
  let step := (nxt + Rgas PC * vt * Rpower (pk / p0 PC) (kappa PC - 1) / p0 PC)%R in
  let p_over_exner := (- Rgas PC * vt / (nxt - step))%R in
  (Rpower (p_over_exner / p0 PC) (1 / (1 - kappa PC)) * p0 PC = pk)%R /\
  (pk / p_over_exner = Rpower (pk / p0 PC) (kappa PC))%R.
Proof.
  intros Hpk Hvt step p_over_exner.
  assert (Hx : (0 < pk / p0 PC)%R) by (apply Rdiv_lt_0_compat; assumption).
  set (x := (pk / p0 PC)%R) in *.
  assert (HP : (0 < Rpower x (kappa PC - 1))%R) by (unfold Rpower; apply exp_pos).
  set (P := Rpower x (kappa PC - 1)) in *.
  assert (Epoe : p_over_exner = (p0 PC / P)%R).
  { subst p_over_exner step. field.
    split; [Lra.lra|]. split; [Lra.lra|].
    replace (nxt * p0 PC - (nxt * p0 PC + Rgas PC * vt * P))%R
      with (- (Rgas PC * vt * P))%R by ring.
    apply Ropp_neq_0_compat.
    repeat apply Rmult_integral_contrapositive_currified; try assumption. Lra.lra. }
  assert (Einv : (p0 PC / P / p0 PC)%R = Rpower x (1 - kappa PC)).
  { replace (1 - kappa PC)%R with (- (kappa PC - 1))%R by ring.
    rewrite Rpower_Ropp. fold P. field. split; Lra.lra. }
  rewrite Epoe. split.
  - rewrite Einv, Rpower_mult.
    replace ((1 - kappa PC) * (1 / (1 - kappa PC)))%R with 1%R by (field; Lra.lra).
    rewrite Rpower_1 by exact Hx. subst x. field. Lra.lra.
  - replace (kappa PC) with (1 + (kappa PC - 1))%R by ring.
    rewrite Rpower_plus, Rpower_1 by exact Hx. fold P. subst x. field. split; Lra.lra.
Qed.

(** X11.  The discrete inverse.  Over the reals, with [p0 > 0], [kappa <> 1]
    and [Rgas <> 0]: if the geopotential is computed by [compute_phi_i]
    from a positive midpoint pressure [p] and a potential temperature that
    vanishes nowhere, then [compute_pnh_and_exner] applied to that
    geopotential returns [p] again at every midpoint, and the Exner
    function [(p/p0)^kappa], on the host and on the device path. *)
Theorem compute_pnh_and_exner_inverts_compute_phi_i (phis : R)
    (vtheta_dp p phi_i pnh exner : @View R) :
  (forall k, k < NUM_PHYSICAL_LEV ->
     (0 < ColumnOps.level VECTOR_SIZE p k)%R /\
     ColumnOps.level VECTOR_SIZE vtheta_dp k <> 0%R) ->
  ColumnOps.debug_sanity_check NDEBUG Replace (rlit 1) (rlit 0) = Done tt ->
  exists pnh' exner',
    EquationOfState.compute_pnh_and_exner VECTOR_SIZE NUM_PHYSICAL_LEV OnGpu NDEBUG PC
      false vtheta_dp
      (EquationOfState.compute_phi_i VECTOR_SIZE NUM_PHYSICAL_LEV OnGpu PC
         phis vtheta_dp p phi_i)
      pnh exner = Done (pnh', exner') /\
    forall k, k < NUM_PHYSICAL_LEV ->
      ColumnOps.level VECTOR_SIZE pnh' k = ColumnOps.level VECTOR_SIZE p k /\
      ColumnOps.level VECTOR_SIZE exner' k =
        Rpower (ColumnOps.level VECTOR_SIZE p k / p0 PC) (kappa PC).
Proof.
  intros Hpos Hcheck.
  unfold EquationOfState.compute_pnh_and_exner, c_assert.
  cbn [negb]. rewrite Bool.orb_true_r. cbn [bind].
  unfold ColumnOps.compute_midpoint_delta. rewrite Hcheck. cbn [bind].
  set (phi := EquationOfState.compute_phi_i VECTOR_SIZE NUM_PHYSICAL_LEV OnGpu PC
                phis vtheta_dp p phi_i).
  match goal with |- context [Done (for_loop 0 ?N ?body ?s)] =>
    exists (fst (for_loop 0 N body s)), (snd (for_loop 0 N body s))
  end.
  split; [rewrite <- surjective_pairing; reflexivity|].
  intros k Hk.
  match goal with |- context [for_loop 0 _ _ (pnh, ?e)] =>
    destruct (pnh_and_exner_loop VECTOR_SIZE NUM_PHYSICAL_LEV PC VECTOR_SIZE_pos
                vtheta_dp pnh e k Hk) as (Hf & Hs);
    pose proof (compute_midpoint_delta_paths VECTOR_SIZE NUM_PHYSICAL_LEV VECTOR_SIZE_pos
                  OnGpu gpu_vector_size Replace phi exner (rlit 1) (rlit 0) k Hk) as Hd
  end.
  cbn [ColumnOps.combine] in Hd. rewrite Hd in Hf, Hs.
  destruct (compute_phi_i_scan VECTOR_SIZE OnGpu VECTOR_SIZE_pos gpu_vector_size
             R_add_0_r R_add_0_l R_add_comm NUM_PHYSICAL_LEV NUM_PHYSICAL_LEV_pos
              PC phis vtheta_dp p phi_i) as (_ & Hrec).
  fold phi in Hrec. rewrite (Hrec k Hk) in Hf, Hs.
  destruct (Hpos k Hk) as (Hp & Hvt).
  destruct (pressure_of_geopotential_step (ColumnOps.level VECTOR_SIZE p k)
              (ColumnOps.level VECTOR_SIZE vtheta_dp k)
              (ColumnOps.level VECTOR_SIZE phi (k + 1)) Hp Hvt) as (Epnh & Eexner).
  cbv zeta in Epnh, Eexner.
  rewrite Hf in Hs.
  split; [etransitivity; [exact Hf|] | etransitivity; [exact Hs|]];
    cbn [rmul rdiv rsub radd ropp rlit R_Arith]; unfold rpow, R_Pow; rewrite Q2R_one.
  - exact Epnh.
  - rewrite Epnh. exact Eexner.
Qed.
End DiscreteInverse.

(** An instance: a column at the reference pressure with a potential
    temperature of 300, in a debug build. *)
Lemma compute_pnh_and_exner_inverts_compute_phi_i_witness :
  0 < 2 /\ 0 < 3 /\ (false = true -> 2 = 1) /\
  (0 < p0 Examples.constants_R)%R /\
  kappa Examples.constants_R <> 1%R /\
  Rgas Examples.constants_R <> 0%R /\
  (forall k, k < 3 ->
     (0 < ColumnOps.level 2 Examples.reference_pressure_R k)%R /\
     ColumnOps.level 2 Examples.theta_R k <> 0%R) /\
  ColumnOps.debug_sanity_check (T:=R) false Replace (rlit 1) (rlit 0) = Done tt /\
  exists pnh' exner',
    EquationOfState.compute_pnh_and_exner 2 3 false false Examples.constants_R
      false Examples.theta_R
      (EquationOfState.compute_phi_i 2 3 false Examples.constants_R
         0%R Examples.theta_R Examples.reference_pressure_R Examples.zero_view_R)
      Examples.zero_view_R Examples.zero_view_R = Done (pnh', exner') /\
    forall k, k < 3 ->
      ColumnOps.level 2 pnh' k = ColumnOps.level 2 Examples.reference_pressure_R k /\
      ColumnOps.level 2 exner' k =
        Rpower (ColumnOps.level 2 Examples.reference_pressure_R k
                / p0 Examples.constants_R) (kappa Examples.constants_R).
Proof.
  assert (H1 : (0 < p0 Examples.constants_R)%R)
    by (cbn [p0 Examples.constants_R]; Lra.lra).
  assert (H2 : kappa Examples.constants_R <> 1%R)
    by (cbn [kappa Examples.constants_R]; Lra.lra).
  assert (H3 : Rgas Examples.constants_R <> 0%R)
    by (cbn [Rgas Examples.constants_R]; Lra.lra).
  assert (H4 : forall k, k < 3 ->
            (0 < ColumnOps.level 2 Examples.reference_pressure_R k)%R /\
            ColumnOps.level 2 Examples.theta_R k <> 0%R).
  { intros k _. unfold ColumnOps.level, Examples.reference_pressure_R, Examples.theta_R.
    split; Lra.lra. }
  split; [lia|]. split; [lia|]. split; [intro H; discriminate H|].
  split; [exact H1|]. split; [exact H2|]. split; [exact H3|]. split; [exact H4|].
  split; [exact R_sanity_check_defaults|].
  apply (compute_pnh_and_exner_inverts_compute_phi_i 2 3 false false Examples.constants_R
           ltac:(lia) ltac:(lia) ltac:(intro H; discriminate H) H1 H2 H3);
    [exact H4 | exact R_sanity_check_defaults].
Defined.

(** ** apply_iop_forcing: the pressure and the Exner function of the
       dynamics state *)

Section ExnerFromEOS.
Context {T : Type} {AT : Arith T} {PT : Pow T}.
Variable VECTOR_SIZE : nat.
Variable NUM_PHYSICAL_LEV : nat.
Variable OnGpu : bool.
Variable NDEBUG : bool.
Variable PC : PhysicalConstants T.
Variable hv : HybridVCoord T.
Hypothesis VECTOR_SIZE_pos : 0 < VECTOR_SIZE.
Hypothesis gpu_vector_size : OnGpu = true -> VECTOR_SIZE = 1.
Hypothesis add_0_r : forall x : T, (x + rlit 0)%A = x.
Hypothesis add_0_l : forall x : T, (rlit 0 + x)%A = x.
Hypothesis add_comm : forall a b : T, (a + b)%A = (b + a)%A.

(** X12.  The Exner function handed to the IOP forcing.  Whatever the mode of
    the simulation, the step "compute exner from EOS" of
    [apply_iop_forcing] returns (the debug check of the scale factors
    passed): it never trips the mode assertion of EquationOfState, even in
    a debug build.  In hydrostatic mode, in the default build, the
    pressure it returns at a midpoint is the hydrostatic one,
    [p_i(k) + dp(k)/2] with [p_i] the running sum of the thicknesses from
    [hyai(0)*ps0], and the Exner function is [(p/p0)^kappa] of that
    pressure; in non-hydrostatic mode the two satisfy
    [exner = pnh / p_over_exner]. *)
Theorem compute_exner_from_eos_levels (mode : bool)
    (dp3d vtheta_dp phi_int hydro_p_int pnh exner : @View T) :
  ColumnOps.debug_sanity_check NDEBUG Replace (rlit 1) (rlit 0) = Done tt ->
  exists pnh' exner',
    HommeDynamics.compute_exner_from_eos VECTOR_SIZE NUM_PHYSICAL_LEV OnGpu NDEBUG false
      PC hv mode dp3d vtheta_dp phi_int hydro_p_int pnh exner = Done (pnh', exner') /\
    forall k, k < NUM_PHYSICAL_LEV ->
      if mode then
        ColumnOps.level VECTOR_SIZE pnh' k =
          (prefix_sum (hybrid_ai0 hv * ps0 hv)%A (ColumnOps.level VECTOR_SIZE dp3d) k
           + ColumnOps.level VECTOR_SIZE dp3d k / rlit 2)%A /\
        ColumnOps.level VECTOR_SIZE exner' k =
          rpow (ColumnOps.level VECTOR_SIZE pnh' k / p0 PC)%A (kappa PC)
      else
        ColumnOps.level VECTOR_SIZE exner' k =
          (ColumnOps.level VECTOR_SIZE pnh' k
           / ((- Rgas PC) * ColumnOps.level VECTOR_SIZE vtheta_dp k
              / (ColumnOps.level VECTOR_SIZE phi_int (k + 1)
                 - ColumnOps.level VECTOR_SIZE phi_int k)))%A.
Proof.
  intros Hcheck. unfold HommeDynamics.compute_exner_from_eos. destruct mode.
  - destruct (elem_ops_hydrostatic_p_levels VECTOR_SIZE NUM_PHYSICAL_LEV OnGpu NDEBUG
                VECTOR_SIZE_pos gpu_vector_size add_0_r add_0_l add_comm hv false
                dp3d hydro_p_int pnh Hcheck) as (p_i' & pi' & E & Hp_i & Hpi).
    rewrite E. cbn [bind]. do 2 eexists. split; [reflexivity|].
    intros k Hk. split.
    + rewrite (Hpi k Hk). rewrite Hp_i by lia. reflexivity.
    + apply (compute_exner_levels VECTOR_SIZE NUM_PHYSICAL_LEV PC VECTOR_SIZE_pos). exact Hk.
  - unfold EquationOfState.compute_pnh_and_exner, c_assert.
    cbn [negb]. rewrite Bool.orb_true_r. cbn [bind].
    unfold ColumnOps.compute_midpoint_delta. rewrite Hcheck. cbn [bind].
    match goal with |- context [Done (for_loop 0 ?N ?body ?s)] =>
      exists (fst (for_loop 0 N body s)), (snd (for_loop 0 N body s))
    end.
    split; [rewrite <- surjective_pairing; reflexivity|].
    intros k Hk.
    match goal with |- context [for_loop 0 _ _ (pnh, ?e)] =>
      destruct (pnh_and_exner_loop VECTOR_SIZE NUM_PHYSICAL_LEV PC VECTOR_SIZE_pos
                  vtheta_dp pnh e k Hk) as (Hf & Hs);
      pose proof (compute_midpoint_delta_paths VECTOR_SIZE NUM_PHYSICAL_LEV VECTOR_SIZE_pos
                    OnGpu gpu_vector_size Replace phi_int exner (rlit 1) (rlit 0) k Hk) as Hd
    end.
    cbn [ColumnOps.combine] in Hd. rewrite Hd in Hs. exact Hs.
Qed.
End ExnerFromEOS.

(** An instance over the reals: the hydrostatic mode in a debug build. *)
Lemma compute_exner_from_eos_levels_witness :
  0 < 2 /\ (false = true -> 2 = 1) /\
  ColumnOps.debug_sanity_check (T:=R) false Replace (rlit 1) (rlit 0) = Done tt /\
  exists pnh' exner',
    HommeDynamics.compute_exner_from_eos 2 3 false false false Examples.constants_R
      Examples.hvcoord_R true Examples.reference_pressure_R Examples.theta_R
      Examples.ramp_R Examples.zero_view_R Examples.zero_view_R Examples.zero_view_R
      = Done (pnh', exner') /\
    forall k, k < 3 ->
      if true then
        ColumnOps.level 2 pnh' k =
          (prefix_sum (hybrid_ai0 Examples.hvcoord_R * ps0 Examples.hvcoord_R)%A
             (ColumnOps.level 2 Examples.reference_pressure_R) k
           + ColumnOps.level 2 Examples.reference_pressure_R k / rlit 2)%A /\
        ColumnOps.level 2 exner' k =
          rpow (ColumnOps.level 2 pnh' k / p0 Examples.constants_R)%A
            (kappa Examples.constants_R)
      else
        ColumnOps.level 2 exner' k =
          (ColumnOps.level 2 pnh' k
           / ((- Rgas Examples.constants_R) * ColumnOps.level 2 Examples.theta_R k
              / (ColumnOps.level 2 Examples.ramp_R (k + 1)
                 - ColumnOps.level 2 Examples.ramp_R k)))%A.
Proof.
  split; [lia|]. split; [intro H; discriminate H|].
  split; [exact R_sanity_check_defaults|].
  apply (compute_exner_from_eos_levels (T:=R) 2 3 false false Examples.constants_R
           Examples.hvcoord_R ltac:(lia) ltac:(intro H; discriminate H)
           R_add_0_r R_add_0_l R_add_comm true).
  exact R_sanity_check_defaults.
Defined.

(** ** ElementOps: get_R_star *)

Section RStar.
Context {T : Type} {AT : Arith T}.
Variable VECTOR_SIZE : nat.
Variable NUM_PHYSICAL_LEV : nat.
Variable PC : PhysicalConstants T.
Hypothesis VECTOR_SIZE_pos : 0 < VECTOR_SIZE.

(** X13.  The gas constant of moist air.  [get_R_star] leaves [Rgas] at every
    level of a dry column and [Rgas + (Rwater_vapor - Rgas)*Q] at every
    level of a moist one; a moist column without vapour therefore gets the
    dry value where [x*0 = 0] and [x + 0 = x]. *)
Theorem get_R_star_levels (use_moisture : bool) (Q R : @View T) :
  (forall x : T, (x * rlit 0)%A = rlit 0) ->
  (forall x : T, (x + rlit 0)%A = x) ->
  forall k, k < NUM_PHYSICAL_LEV ->
    ColumnOps.level VECTOR_SIZE
      (ElementOps.get_R_star VECTOR_SIZE NUM_PHYSICAL_LEV PC use_moisture Q R) k =
    (if use_moisture
     then (Rgas PC + (Rwater_vapor PC - Rgas PC) * ColumnOps.level VECTOR_SIZE Q k)%A
     else Rgas PC) /\
    (ColumnOps.level VECTOR_SIZE Q k = rlit 0 ->
     ColumnOps.level VECTOR_SIZE
       (ElementOps.get_R_star VECTOR_SIZE NUM_PHYSICAL_LEV PC use_moisture Q R) k = Rgas PC).
Proof.
  intros mul_0_r add_0_r k Hk.
  pose proof (level_pack_lt VECTOR_SIZE VECTOR_SIZE_pos NUM_PHYSICAL_LEV k Hk) as Hpk.
  fold (ColumnOps.NUM_LEV VECTOR_SIZE NUM_PHYSICAL_LEV) in Hpk.
  assert (Hlev : ColumnOps.level VECTOR_SIZE
            (ElementOps.get_R_star VECTOR_SIZE NUM_PHYSICAL_LEV PC use_moisture Q R) k =
          if use_moisture
          then (Rgas PC + (Rwater_vapor PC - Rgas PC) * ColumnOps.level VECTOR_SIZE Q k)%A
          else Rgas PC).
  { unfold ElementOps.get_R_star, ColumnOps.level. destruct use_moisture.
    - rewrite (for_loop_set_pack (fun ilev (_ : @Pack T) =>
        pack_map (fun q => (Rgas PC + (Rwater_vapor PC - Rgas PC) * q)%A) (Q ilev))).
      destruct (Nat.leb_spec 0 (k / VECTOR_SIZE)); [|lia].
      destruct (Nat.ltb_spec (k / VECTOR_SIZE)
                  (0 + ColumnOps.NUM_LEV VECTOR_SIZE NUM_PHYSICAL_LEV)); [|lia].
      reflexivity.
    - rewrite (for_loop_set_pack (fun ilev (_ : @Pack T) => fun _ : nat => Rgas PC)).
      destruct (Nat.leb_spec 0 (k / VECTOR_SIZE)); [|lia].
      destruct (Nat.ltb_spec (k / VECTOR_SIZE)
                  (0 + ColumnOps.NUM_LEV VECTOR_SIZE NUM_PHYSICAL_LEV)); [|lia].
      reflexivity. }
  split; [exact Hlev|].
  intros HQ. rewrite Hlev. destruct use_moisture; [|reflexivity].
  rewrite HQ, mul_0_r. apply add_0_r.
Qed.
End RStar.

(** An instance: a moist column with vapour at the first level only. *)
Lemma get_R_star_levels_witness :
  0 < 2 /\
  (forall x : Qc, (x * rlit 0)%A = rlit 0) /\
  (forall x : Qc, (x + rlit 0)%A = x) /\
  1 < 3 /\
  ColumnOps.level 2
    (ElementOps.get_R_star 2 3 Examples.constants true
       (Examples.view_of 2 [1 # 100; 0; 0]%Q) Examples.zero_view) 1 =
  (if true
   then (Rgas Examples.constants
         + (Rwater_vapor Examples.constants - Rgas Examples.constants)
           * ColumnOps.level 2 (Examples.view_of 2 [1 # 100; 0; 0]%Q) 1)%A
   else Rgas Examples.constants) /\
  (ColumnOps.level 2 (Examples.view_of 2 [1 # 100; 0; 0]%Q) 1 = rlit 0 ->
   ColumnOps.level 2
     (ElementOps.get_R_star 2 3 Examples.constants true
        (Examples.view_of 2 [1 # 100; 0; 0]%Q) Examples.zero_view) 1 =
   Rgas Examples.constants).
Proof.
  split; [lia|]. split; [exact Qcmult_0_r|]. split; [exact Qcplus_0_r|]. split; [lia|].
  apply (get_R_star_levels (T:=Qc) 2 3 Examples.constants ltac:(lia) true
           (Examples.view_of 2 [1 # 100; 0; 0]%Q) Examples.zero_view
           Qcmult_0_r Qcplus_0_r 1).
  lia.
Defined.

(** ** The IOP kernels, for every pack width *)

Section IOPKernels.
Context {T : Type} {AT : Arith T}.
Variable N : nat.
Hypothesis N_pos : 0 < N.

(** The pack and the lane of a level hold the level. *)
Lemma range_pack_level j : j / N * N + j mod N = j.
Proof. pose proof (Nat.div_mod_eq j N). lia. Qed.

(** X14.  The interpolation of [omega] to the interfaces.  For every pack
    width and every number of levels, [omega_int] is zero at the top
    interface and at the bottom interface, and at every interior interface
    [j] it is the blend [weight*omega(j) + (1 - weight)*omega(j-1)] with
    [weight = (pint(j) - pmid(j-1)) / (pmid(j) - pmid(j-1))]. *)
Theorem compute_omega_int_levels (nlevs : nat) (pmid pint omega ws : @View T) :
  let omega_int := HommeDynamics.compute_omega_int N nlevs pmid pint omega ws in
  HommeDynamics.scalarize N omega_int 0 = rlit 0 /\
  HommeDynamics.scalarize N omega_int nlevs = rlit 0 /\
  forall j, 1 <= j <= nlevs - 1 ->
    let weight :=
      ((HommeDynamics.scalarize N pint j - HommeDynamics.scalarize N pmid (j - 1))
       / (HommeDynamics.scalarize N pmid j - HommeDynamics.scalarize N pmid (j - 1)))%A in
    HommeDynamics.scalarize N omega_int j =
      (weight * HommeDynamics.scalarize N omega j
       + (rlit 1 - weight) * HommeDynamics.scalarize N omega (j - 1))%A.
Proof.
  cbv zeta. unfold HommeDynamics.compute_omega_int. cbv zeta.
  unfold HommeDynamics.index_and_shift. cbv beta iota zeta.
  unfold HommeDynamics.scalarize.
  split; [|split].
  - rewrite Nat.Div0.div_0_l, Nat.Div0.mod_0_l.
    destruct (Nat.eq_dec (nlevs / N) 0) as [Hd|Hd];
      [destruct (Nat.eq_dec (nlevs mod N) 0) as [Hm|Hm]|].
    + rewrite Hd, Hm. apply set_entry_same.
    + rewrite set_entry_other by (right; congruence). apply set_entry_same.
    + rewrite set_entry_other by (left; congruence). apply set_entry_same.
  - apply set_entry_same.
  - intros j Hj.
    assert (Hne : j / N <> nlevs / N \/ j mod N <> nlevs mod N).
    { destruct (Nat.eq_dec (j / N) (nlevs / N)) as [Hd|]; [|now left].
      right. intros Hm. pose proof (level_inj N _ _ Hd Hm). lia. }
    rewrite set_entry_other by exact Hne.
    assert (Hne0 : j / N <> 0 \/ j mod N <> 0).
    { destruct (Nat.eq_dec (j / N) 0) as [Hd|]; [|now left].
      right. intros Hm. pose proof (Nat.div_mod_eq j N). nia. }
    rewrite set_entry_other by exact Hne0.
    match goal with |- for_loop ?lo ?n ?body ?x _ _ = _ =>
      rewrite (for_loop_own_pack body (fun k p => body k (fun _ => p) k))
    end.
    + assert (Hlo : 1 / N <= j / N) by (apply Nat.Div0.div_le_mono; lia).
      assert (Hhi : j / N <= (nlevs - 1) / N) by (apply Nat.Div0.div_le_mono; lia).
      destruct (Nat.leb_spec (1 / N) (j / N)); [|lia].
      destruct (Nat.ltb_spec (j / N) (1 / N + ((nlevs - 1) / N + 1 - 1 / N))); [|lia].
      cbn [andb]. rewrite set_pack_same.
      unfold HommeDynamics.pack_set, HommeDynamics.ipack_set, HommeDynamics.range.
      rewrite range_pack_level.
      destruct (Nat.ltb_spec j 1); [lia|].
      destruct (Nat.leb_spec 1 j); [|lia].
      destruct (Nat.leb_spec j (nlevs - 1)); [|lia].
      cbn [andb].
      replace (Z.to_nat (Z.of_nat j + -1)) with (j - 1) by lia.
      reflexivity.
    + intros i y k Hk. now rewrite set_pack_other by assumption.
    + intros i y. now rewrite !set_pack_same.
Qed.

(** What [compute_midpoint_delta] leaves at a level of the scratch view. *)
Lemma midpoint_delta_scalar (m : nat) (x dx : @View T) k :
  k < m ->
  HommeDynamics.scalarize N (HommeDynamics.compute_midpoint_delta N m x dx) k =
  (HommeDynamics.scalarize N x (k + 1) - HommeDynamics.scalarize N x k)%A.
Proof.
  intros Hk. unfold HommeDynamics.scalarize at 1.
  unfold HommeDynamics.compute_midpoint_delta. cbv zeta. rewrite range_pack_level.
  pose proof (lane_lt N N_pos k).
  destruct (Nat.ltb_spec (k mod N) N); [|lia].
  destruct (Nat.ltb_spec k m); [|lia]. reflexivity.
Qed.

Variable Rair : T.
Variable Cpair : T.

(** The packs that the update loop of [advance_iop_subsidence] leaves:
    each is what its own iteration computes from the incoming state. *)
Lemma advance_iop_subsidence_packs (st : @HommeDynamics.ColumnState T)
    (body : nat -> @HommeDynamics.ColumnState T -> @HommeDynamics.ColumnState T)
    (n k : nat) :
  (forall i s,
     (forall j, j <> i ->
        HommeDynamics.u_view (body i s) j = HommeDynamics.u_view s j /\
        HommeDynamics.v_view (body i s) j = HommeDynamics.v_view s j /\
        HommeDynamics.T_view (body i s) j = HommeDynamics.T_view s j /\
        forall iq, HommeDynamics.Q_view (body i s) iq j = HommeDynamics.Q_view s iq j) /\
     (HommeDynamics.u_view s i = HommeDynamics.u_view st i ->
      HommeDynamics.v_view s i = HommeDynamics.v_view st i ->
      HommeDynamics.T_view s i = HommeDynamics.T_view st i ->
      (forall iq, HommeDynamics.Q_view s iq i = HommeDynamics.Q_view st iq i) ->
      HommeDynamics.u_view (body i s) i = HommeDynamics.u_view (body i st) i /\
      HommeDynamics.v_view (body i s) i = HommeDynamics.v_view (body i st) i /\
      HommeDynamics.T_view (body i s) i = HommeDynamics.T_view (body i st) i /\
      forall iq, HommeDynamics.Q_view (body i s) iq i =
                 HommeDynamics.Q_view (body i st) iq i)) ->
  k < n ->
  let out := for_loop 0 n body st in
  HommeDynamics.u_view out k = HommeDynamics.u_view (body k st) k /\
  HommeDynamics.v_view out k = HommeDynamics.v_view (body k st) k /\
  HommeDynamics.T_view out k = HommeDynamics.T_view (body k st) k /\
  forall iq, HommeDynamics.Q_view out iq k = HommeDynamics.Q_view (body k st) iq k.
Proof.
  intros Hbody Hk out. subst out.
  pose proof (for_loop_invariant
    (fun m (s : @HommeDynamics.ColumnState T) => forall p,
       (p < m ->
        HommeDynamics.u_view s p = HommeDynamics.u_view (body p st) p /\
        HommeDynamics.v_view s p = HommeDynamics.v_view (body p st) p /\
        HommeDynamics.T_view s p = HommeDynamics.T_view (body p st) p /\
        forall iq, HommeDynamics.Q_view s iq p = HommeDynamics.Q_view (body p st) iq p) /\
       (m <= p ->
        HommeDynamics.u_view s p = HommeDynamics.u_view st p /\
        HommeDynamics.v_view s p = HommeDynamics.v_view st p /\
        HommeDynamics.T_view s p = HommeDynamics.T_view st p /\
        forall iq, HommeDynamics.Q_view s iq p = HommeDynamics.Q_view st iq p))
    body n 0 st) as Inv.
  cbv beta in Inv. apply Inv; [| | exact Hk]; clear Inv.
  - intros p. split; [intros; lia | intros _; repeat split; reflexivity].
  - intros i s Hi IH p. cbn [Nat.add].
    destruct (Hbody i s) as (Hother & Hown).
    destruct (Nat.eq_dec p i) as [->|Hne].
    + split; [intros _ | intros; lia].
      destruct (IH i) as (_ & Hge). destruct (Hge (Nat.le_refl i)) as (Hu & Hv & HT & HQ).
      now apply Hown.
    + destruct (Hother p Hne) as (Hu & Hv & HT & HQ).
      destruct (IH p) as (Hlt & Hge).
      split; intros Hp.
      * destruct (Hlt ltac:(lia)) as (Iu & Iv & IT & IQ).
        rewrite Hu, Hv, HT. repeat split; try assumption.
        intros iq. rewrite HQ. apply IQ.
      * destruct (Hge ltac:(lia)) as (Iu & Iv & IT & IQ).
        rewrite Hu, Hv, HT. repeat split; try assumption.
        intros iq. rewrite HQ. apply IQ.
Qed.

(** X15.  Subsidence below the top layer.  For every pack width, at every layer
    [j] below the top one [advance_iop_subsidence] advects the winds, the
    temperature and the tracers with the interface velocities
    [omega_int]: by [fac*(omega_int(j+1)*(x(j+1) - x(j)) +
    omega_int(j)*(x(j) - x(j-1)))] at an interior layer and by
    [fac*omega_int(j)*(x(j) - x(j-1))] at the bottom layer, with
    [fac = dt/(2*pdel(j))]; the temperature receives in addition the
    expansion term [dt*omega*T*Rair/(Cpair*pmid)]. *)
Theorem advance_iop_subsidence_lower_layers (dt ps : T) (nlevs : nat)
    (pmid pint pdel omega : @View T) (ws : @HommeDynamics.Scratch T) (n_q_tracers : nat)
    (st : @HommeDynamics.ColumnState T) (j : nat) :
  1 <= j <= nlevs - 1 ->
  let omega_int : nat -> T :=
    HommeDynamics.scalarize N
      (HommeDynamics.compute_omega_int N nlevs pmid pint omega
         (HommeDynamics.ws_omega_int ws)) in
  let fac : T := (dt / (rlit 2 * HommeDynamics.scalarize N pdel j))%A in
  let advect : @View T -> T := fun x =>
    let s := HommeDynamics.scalarize N x in
    if Nat.eqb j (nlevs - 1)
    then (s j - fac * omega_int j * (s j - s (j - 1)%nat))%A
    else (s j - fac * (omega_int (j + 1)%nat * (s (j + 1)%nat - s j)
                       + omega_int j * (s j - s (j - 1)%nat)))%A in
  let out := HommeDynamics.advance_iop_subsidence N Rair Cpair nlevs dt ps
               pmid pint pdel omega ws n_q_tracers st in
  HommeDynamics.scalarize N (HommeDynamics.u_view out) j = advect (HommeDynamics.u_view st) /\
  HommeDynamics.scalarize N (HommeDynamics.v_view out) j = advect (HommeDynamics.v_view st) /\
  HommeDynamics.scalarize N (HommeDynamics.T_view out) j =
    (advect (HommeDynamics.T_view st)
     + dt * HommeDynamics.scalarize N omega j
       * HommeDynamics.scalarize N (HommeDynamics.T_view st) j * Rair
       / (Cpair * HommeDynamics.scalarize N pmid j))%A /\
  forall iq, iq < n_q_tracers ->
    HommeDynamics.scalarize N (HommeDynamics.Q_view out iq) j =
    advect (HommeDynamics.Q_view st iq).
Proof.
  intros Hj omega_int fac advect out.
  assert (Hpk : j / N < HommeDynamics.npack N nlevs).
  { pose proof (level_pack_lt N N_pos nlevs j ltac:(lia)) as H.
    unfold ColumnOps.NumPacks in H. exact H. }
  subst out. unfold HommeDynamics.advance_iop_subsidence. cbv zeta.
  match goal with |- context [for_loop 0 _ ?body st] =>
    destruct (advance_iop_subsidence_packs st body (HommeDynamics.npack N nlevs) (j / N))
      as (Hu & Hv & HT & HQ);
      [| exact Hpk |]
  end.
  { intros i x. split.
    - intros p Hp. unfold HommeDynamics.index_and_shift. cbv beta iota zeta.
      cbn [HommeDynamics.u_view HommeDynamics.v_view HommeDynamics.T_view
           HommeDynamics.Q_view].
      rewrite !set_pack_other by assumption. repeat split; try reflexivity.
      intros iq. destruct (Nat.ltb iq n_q_tracers); [|reflexivity].
      now rewrite set_pack_other by assumption.
    - intros Eu Ev ET EQ. unfold HommeDynamics.index_and_shift. cbv beta iota zeta.
      cbn [HommeDynamics.u_view HommeDynamics.v_view HommeDynamics.T_view
           HommeDynamics.Q_view].
      rewrite !set_pack_same. rewrite Eu, Ev, ET. repeat split; try reflexivity.
      intros iq. destruct (Nat.ltb iq n_q_tracers); [|apply EQ].
      rewrite !set_pack_same. rewrite EQ. reflexivity. }
  cbv zeta in Hu, Hv, HT, HQ.
  assert (Htop : Nat.eqb j 0 = false) by (apply Nat.eqb_neq; lia).
  assert (Hm1 : Nat.ltb j 1 = false) by (apply Nat.ltb_ge; lia).
  assert (Hdm1 : forall x dx : @View T,
            HommeDynamics.scalarize N
              (HommeDynamics.compute_midpoint_delta N (nlevs - 1) x dx) (j - 1) =
            (HommeDynamics.scalarize N x j - HommeDynamics.scalarize N x (j - 1))%A).
  { intros x dx. rewrite midpoint_delta_scalar by lia.
    replace (j - 1 + 1) with j by lia. reflexivity. }
  assert (Hd : forall x dx : @View T, j <> nlevs - 1 ->
            HommeDynamics.scalarize N
              (HommeDynamics.compute_midpoint_delta N (nlevs - 1) x dx) j =
            (HommeDynamics.scalarize N x (j + 1) - HommeDynamics.scalarize N x j)%A).
  { intros x dx Hne. rewrite midpoint_delta_scalar by lia. reflexivity. }
  subst advect fac omega_int. cbv beta zeta.
  match goal with
  | |- HommeDynamics.scalarize N ?a j = _ /\ HommeDynamics.scalarize N ?b j = _ /\
       HommeDynamics.scalarize N ?c j = _ /\
       (forall iq, _ -> HommeDynamics.scalarize N (@?d iq) j = _) =>
      change (HommeDynamics.scalarize N a j) with (a (j / N) (j mod N));
      change (HommeDynamics.scalarize N b j) with (b (j / N) (j mod N));
      change (HommeDynamics.scalarize N c j) with (c (j / N) (j mod N))
  end.
  rewrite Hu, Hv, HT.
  unfold HommeDynamics.index_and_shift. cbv beta iota zeta.
  cbn [HommeDynamics.u_view HommeDynamics.v_view HommeDynamics.T_view HommeDynamics.Q_view].
  rewrite !set_pack_same.
  unfold HommeDynamics.subsidence_update, HommeDynamics.subsidence_update_T,
    HommeDynamics.pack_set, HommeDynamics.ipack_set, HommeDynamics.range.
  rewrite !range_pack_level. rewrite Htop, Hm1. cbn [negb andb].
  replace (Z.to_nat (Z.of_nat j + -1)) with (j - 1) by lia.
  replace (Z.to_nat (Z.of_nat j + 1)) with (j + 1) by lia.
  rewrite !Hdm1.
  destruct (Nat.eqb_spec j (nlevs - 1)) as [Hbot|Hnb]; cbn [negb].
  - repeat split; try reflexivity.
    intros iq Hiq. unfold HommeDynamics.scalarize at 1. rewrite HQ.
    unfold HommeDynamics.index_and_shift. cbv beta iota zeta.
    cbn [HommeDynamics.Q_view].
    destruct (Nat.ltb_spec iq n_q_tracers); [|lia].
    rewrite set_pack_same.
    unfold HommeDynamics.subsidence_update,
      HommeDynamics.pack_set, HommeDynamics.ipack_set, HommeDynamics.range.
    rewrite !range_pack_level. rewrite Htop, Hm1. cbn [negb andb].
    replace (Z.to_nat (Z.of_nat j + -1)) with (j - 1) by lia.
    rewrite Hdm1.
    destruct (Nat.eqb_spec j (nlevs - 1)); [|contradiction]. reflexivity.
  - rewrite !(Hd _ _ Hnb). repeat split; try reflexivity.
    intros iq Hiq. unfold HommeDynamics.scalarize at 1. rewrite HQ.
    unfold HommeDynamics.index_and_shift. cbv beta iota zeta.
    cbn [HommeDynamics.Q_view].
    destruct (Nat.ltb_spec iq n_q_tracers); [|lia].
    rewrite set_pack_same.
    unfold HommeDynamics.subsidence_update,
      HommeDynamics.pack_set, HommeDynamics.ipack_set, HommeDynamics.range.
    rewrite !range_pack_level. rewrite Htop, Hm1. cbn [negb andb].
    replace (Z.to_nat (Z.of_nat j + -1)) with (j - 1) by lia.
    replace (Z.to_nat (Z.of_nat j + 1)) with (j + 1) by lia.
    rewrite Hdm1, (Hd _ _ Hnb).
    destruct (Nat.eqb_spec j (nlevs - 1)); [contradiction|]. reflexivity.
Qed.

(** X16.  The large-scale forcing.  [advance_iop_forcing] advances the
    temperature and the water vapour of every level by [dt] times the
    tendency of the level, whatever the pack width, and leaves the packs
    past the last level alone. *)
Theorem advance_iop_forcing_levels (dt : T) (nlevs : nat) (divT divq Tv qv : @View T) :
  let out := HommeDynamics.advance_iop_forcing N nlevs dt divT divq Tv qv in
  (forall j, j < nlevs ->
     HommeDynamics.scalarize N (fst out) j =
       (HommeDynamics.scalarize N Tv j + dt * HommeDynamics.scalarize N divT j)%A /\
     HommeDynamics.scalarize N (snd out) j =
       (HommeDynamics.scalarize N qv j + dt * HommeDynamics.scalarize N divq j)%A) /\
  (forall k, HommeDynamics.npack N nlevs <= k -> fst out k = Tv k /\ snd out k = qv k).
Proof.
  intros out. subst out. unfold HommeDynamics.advance_iop_forcing.
  match goal with |- context [for_loop 0 ?n ?body ?s] =>
    pose proof (for_loop_invariant
      (fun m (st : @View T * @View T) => forall k,
         (k < m ->
          fst st k = pack_map2 (fun t d => (t + dt * d)%A) (Tv k) (divT k) /\
          snd st k = pack_map2 (fun q d => (q + dt * d)%A) (qv k) (divq k)) /\
         (m <= k -> fst st k = Tv k /\ snd st k = qv k))
      body n 0 s) as Inv
  end.
  cbv beta in Inv.
  assert (H : forall k,
            (k < HommeDynamics.npack N nlevs ->
             fst (HommeDynamics.advance_iop_forcing N nlevs dt divT divq Tv qv) k =
               pack_map2 (fun t d => (t + dt * d)%A) (Tv k) (divT k) /\
             snd (HommeDynamics.advance_iop_forcing N nlevs dt divT divq Tv qv) k =
               pack_map2 (fun q d => (q + dt * d)%A) (qv k) (divq k)) /\
            (HommeDynamics.npack N nlevs <= k ->
             fst (HommeDynamics.advance_iop_forcing N nlevs dt divT divq Tv qv) k = Tv k /\
             snd (HommeDynamics.advance_iop_forcing N nlevs dt divT divq Tv qv) k = qv k)).
  { unfold HommeDynamics.advance_iop_forcing. apply Inv; clear Inv.
    - intros k. split; [intros; lia | intros _; split; reflexivity].
    - intros i [a b] Hi IH k. cbn [Nat.add fst snd].
      destruct (IH k) as (Hlt & Hge). cbn [fst snd] in Hlt, Hge.
      destruct (Nat.eq_dec k i) as [->|Hne].
      + split; [intros _ | intros; lia].
        destruct (Hge (Nat.le_refl i)) as (Ea & Eb).
        rewrite !set_pack_same, Ea, Eb. split; reflexivity.
      + rewrite !set_pack_other by assumption.
        split; [intros; apply Hlt; lia | intros; apply Hge; lia]. }
  clear Inv. fold (HommeDynamics.advance_iop_forcing N nlevs dt divT divq Tv qv).
  split.
  - intros j Hj.
    assert (Hpk : j / N < HommeDynamics.npack N nlevs).
    { pose proof (level_pack_lt N N_pos nlevs j Hj) as Hl.
      unfold ColumnOps.NumPacks in Hl. exact Hl. }
    destruct (H (j / N)) as (Hlt & _). destruct (Hlt Hpk) as (Ea & Eb).
    unfold HommeDynamics.scalarize. rewrite Ea, Eb. split; reflexivity.
  - intros k Hk. destruct (H k) as (_ & Hge). now apply Hge.
Qed.

(** An assignment to one tracer and pack leaves the others alone. *)
Lemma set_tracer_pack_same (A : nat -> @View T) q ilev p :
  HommeDynamics.set_tracer_pack A q ilev p q ilev = p.
Proof.
  unfold HommeDynamics.set_tracer_pack. rewrite Nat.eqb_refl. apply set_pack_same.
Qed.

Lemma set_tracer_pack_other (A : nat -> @View T) q ilev p q' ilev' :
  q' <> q \/ ilev' <> ilev ->
  HommeDynamics.set_tracer_pack A q ilev p q' ilev' = A q' ilev'.
Proof.
  intros Hne. unfold HommeDynamics.set_tracer_pack.
  destruct (Nat.eqb_spec q' q) as [->|]; [|reflexivity].
  apply set_pack_other. destruct Hne; [contradiction | assumption].
Qed.
End IOPKernels.

(** Instances: the three-level column of the subsidence kernel in packs
    of two. *)
Lemma compute_omega_int_levels_witness :
  0 < 2 /\
  (let omega_int :=
     HommeDynamics.compute_omega_int 2 3 (Examples.iop_pmid 2) (Examples.iop_pint 2)
       (Examples.iop_omega 2) Examples.zero_view in
   HommeDynamics.scalarize 2 omega_int 0 = rlit 0 /\
   HommeDynamics.scalarize 2 omega_int 3 = rlit 0 /\
   forall j, 1 <= j <= 3 - 1 ->
     let weight :=
       ((HommeDynamics.scalarize 2 (Examples.iop_pint 2) j
         - HommeDynamics.scalarize 2 (Examples.iop_pmid 2) (j - 1))
        / (HommeDynamics.scalarize 2 (Examples.iop_pmid 2) j
           - HommeDynamics.scalarize 2 (Examples.iop_pmid 2) (j - 1)))%A in
     HommeDynamics.scalarize 2 omega_int j =
       (weight * HommeDynamics.scalarize 2 (Examples.iop_omega 2) j
        + (rlit 1 - weight) * HommeDynamics.scalarize 2 (Examples.iop_omega 2) (j - 1))%A).
Proof.
  split; [lia|].
  apply (compute_omega_int_levels (T:=Qc) 2 ltac:(lia) 3).
Defined.

Lemma advance_iop_subsidence_lower_layers_witness :
  0 < 2 /\ 1 <= 1 <= 3 - 1 /\
  (let omega_int : nat -> Qc :=
     HommeDynamics.scalarize 2
       (HommeDynamics.compute_omega_int 2 3 (Examples.iop_pmid 2) (Examples.iop_pint 2)
          (Examples.iop_omega 2) (HommeDynamics.ws_omega_int Examples.iop_scratch)) in
   let fac : Qc :=
     (Examples.iop_dt / (rlit 2 * HommeDynamics.scalarize 2 (Examples.iop_pdel 2) 1))%A in
   let advect : @View Qc -> Qc := fun x =>
     let s := HommeDynamics.scalarize 2 x in
     if Nat.eqb 1 (3 - 1)
     then (s 1 - fac * omega_int 1 * (s 1 - s (1 - 1)%nat))%A
     else (s 1 - fac * (omega_int (1 + 1)%nat * (s (1 + 1)%nat - s 1)
                        + omega_int 1 * (s 1 - s (1 - 1)%nat)))%A in
   let out := HommeDynamics.advance_iop_subsidence 2 (Q2Qc 287) (Q2Qc 1004) 3
                Examples.iop_dt (Q2Qc 6) (Examples.iop_pmid 2) (Examples.iop_pint 2)
                (Examples.iop_pdel 2) (Examples.iop_omega 2) Examples.iop_scratch 1
                (Examples.iop_state 2) in
   HommeDynamics.scalarize 2 (HommeDynamics.u_view out) 1 =
     advect (HommeDynamics.u_view (Examples.iop_state 2)) /\
   HommeDynamics.scalarize 2 (HommeDynamics.v_view out) 1 =
     advect (HommeDynamics.v_view (Examples.iop_state 2)) /\
   HommeDynamics.scalarize 2 (HommeDynamics.T_view out) 1 =
     (advect (HommeDynamics.T_view (Examples.iop_state 2))
      + Examples.iop_dt * HommeDynamics.scalarize 2 (Examples.iop_omega 2) 1
        * HommeDynamics.scalarize 2 (HommeDynamics.T_view (Examples.iop_state 2)) 1
        * Q2Qc 287
        / (Q2Qc 1004 * HommeDynamics.scalarize 2 (Examples.iop_pmid 2) 1))%A /\
   forall iq, iq < 1 ->
     HommeDynamics.scalarize 2 (HommeDynamics.Q_view out iq) 1 =
     advect (HommeDynamics.Q_view (Examples.iop_state 2) iq)).
Proof.
  split; [lia|]. split; [lia|].
  apply (advance_iop_subsidence_lower_layers (T:=Qc) 2 ltac:(lia) (Q2Qc 287) (Q2Qc 1004)
           Examples.iop_dt (Q2Qc 6) 3 (Examples.iop_pmid 2) (Examples.iop_pint 2)
           (Examples.iop_pdel 2) (Examples.iop_omega 2) Examples.iop_scratch 1
           (Examples.iop_state 2) 1).
  lia.
Defined.

Lemma advance_iop_forcing_levels_witness :
  0 < 2 /\
  (let out := HommeDynamics.advance_iop_forcing 2 3 Examples.iop_dt
                (Examples.view_of 2 [1; 2; 4]%Q) (Examples.view_of 2 [8; 16; 32]%Q)
                (Examples.iop_pmid 2) (Examples.iop_pdel 2) in
   (forall j, j < 3 ->
      HommeDynamics.scalarize 2 (fst out) j =
        (HommeDynamics.scalarize 2 (Examples.iop_pmid 2) j
         + Examples.iop_dt * HommeDynamics.scalarize 2 (Examples.view_of 2 [1; 2; 4]%Q) j)%A /\
      HommeDynamics.scalarize 2 (snd out) j =
        (HommeDynamics.scalarize 2 (Examples.iop_pdel 2) j
         + Examples.iop_dt
           * HommeDynamics.scalarize 2 (Examples.view_of 2 [8; 16; 32]%Q) j)%A) /\
   (forall k, HommeDynamics.npack 2 3 <= k ->
      fst out k = Examples.iop_pmid 2 k /\ snd out k = Examples.iop_pdel 2 k)).
Proof.
  split; [lia|].
  apply (advance_iop_forcing_levels (T:=Qc) 2 ltac:(lia) Examples.iop_dt 3).
Defined.

Section TracerMass.
Context {T : Type} {AT : Arith T}.

(** X17.  Tracer mass after the forcing.  The last kernel of
    [apply_iop_forcing] visits every tracer [q < qsize] at every pack
    [ilev < NLEV] exactly once: it leaves [Qdp = Q*dp] there and then
    [Q = Qdp/dp], so that the mixing ratio and the tracer mass agree
    bit for bit; where [a*d/d = a] for the thickness at hand, [Q] is what
    it was.  Tracers and packs outside the range are not touched. *)
Theorem compute_qdp_levels (NLEV qsize : nat) (dp3d_i : @View T)
    (Q_i Qdp_i : nat -> @View T) :
  let out := HommeDynamics.compute_qdp NLEV qsize dp3d_i Q_i Qdp_i in
  (forall q ilev i, q < qsize -> ilev < NLEV ->
     snd out q ilev i = (Q_i q ilev i * dp3d_i ilev i)%A /\
     fst out q ilev i = (snd out q ilev i / dp3d_i ilev i)%A /\
     ((forall a : T, (a * dp3d_i ilev i / dp3d_i ilev i)%A = a) ->
      fst out q ilev i = Q_i q ilev i)) /\
  (forall q ilev, qsize <= q \/ NLEV <= ilev ->
     fst out q ilev = Q_i q ilev /\ snd out q ilev = Qdp_i q ilev).
Proof.
  intros out.
  assert (H : forall q ilev,
            (q < qsize /\ ilev < NLEV ->
             snd out q ilev = pack_map2 rmul (Q_i q ilev) (dp3d_i ilev) /\
             fst out q ilev =
               pack_map2 rdiv (pack_map2 rmul (Q_i q ilev) (dp3d_i ilev)) (dp3d_i ilev)) /\
            (qsize <= q \/ NLEV <= ilev ->
             fst out q ilev = Q_i q ilev /\ snd out q ilev = Qdp_i q ilev)).
  { subst out. unfold HommeDynamics.compute_qdp.
    match goal with |- forall q ilev, (_ -> snd (for_loop 0 ?n ?body ?s) _ _ = _ /\ _) /\ _ =>
      pose proof (for_loop_invariant
        (fun m (st : (nat -> @View T) * (nat -> @View T)) => forall q ilev,
           (q < qsize /\ ilev * qsize + q < m ->
            snd st q ilev = pack_map2 rmul (Q_i q ilev) (dp3d_i ilev) /\
            fst st q ilev =
              pack_map2 rdiv (pack_map2 rmul (Q_i q ilev) (dp3d_i ilev)) (dp3d_i ilev)) /\
           (~ (q < qsize /\ ilev * qsize + q < m) ->
            fst st q ilev = Q_i q ilev /\ snd st q ilev = Qdp_i q ilev))
        body n 0 s) as Inv
    end.
    cbv beta in Inv.
    intros q ilev.
    match type of Inv with ?A -> ?B -> _ =>
      assert (HA : A); [|assert (HB : B); [|destruct (Inv HA HB q ilev) as (Hdone & Hleft)]]
    end.
    - intros q0 ilev0. split; [intros; lia | intros _; split; reflexivity].
    - intros m [a b] Hm IH q0 ilev0. cbn [Nat.add fst snd].
      assert (Hq : 0 < qsize) by nia.
      pose proof (Nat.div_mod_eq m qsize) as Em.
      pose proof (Nat.mod_upper_bound m qsize ltac:(lia)) as Lm.
      destruct (IH (m mod qsize) (m / qsize)) as (_ & Hcur). cbn [fst snd] in Hcur.
      destruct Hcur as (Ea & Eb); [nia|].
      destruct (IH q0 ilev0) as (Hlt & Hge). cbn [fst snd] in Hlt, Hge.
      destruct (Nat.eq_dec q0 (m mod qsize)) as [Eq|Nq];
        [destruct (Nat.eq_dec ilev0 (m / qsize)) as [El|Nl]|].
      + subst q0 ilev0. split; [intros _ | intros Hn; exfalso; apply Hn; nia].
        rewrite !set_tracer_pack_same. rewrite Ea. split; reflexivity.
      + rewrite !set_tracer_pack_other by (right; exact Nl).
        split; [intros [H1 H2]; apply Hlt; split; [exact H1 | nia]
               | intros Hn; apply Hge; intros [H1 H2]; apply Hn; split; [exact H1 | nia]].
      + rewrite !set_tracer_pack_other by (left; exact Nq).
        split; [intros [H1 H2]; apply Hlt; split; [exact H1|]
               | intros Hn; apply Hge; intros [H1 H2]; apply Hn; split; [exact H1 | lia]].
        destruct (Nat.eq_dec (ilev0 * qsize + q0) m) as [E|]; [|lia].
        exfalso. apply Nq. apply (Nat.mod_unique m qsize ilev0 q0); lia.
    - split.
      + intros [H1 H2]. apply Hdone. split; [exact H1 | nia].
      + intros Hout. apply Hleft. intros [H1 H2]. destruct Hout; nia. }
  split.
  - intros q ilev i Hq Hl. destruct (H q ilev) as (Hdone & _).
    destruct (Hdone (conj Hq Hl)) as (Es & Ef). rewrite Ef, Es.
    unfold pack_map2. split; [reflexivity | split; [reflexivity|]].
    intros law. apply law.
  - intros q ilev Hout. destruct (H q ilev) as (_ & Hleft). now apply Hleft.
Qed.
End TracerMass.

(** ** scream_init: the start date *)

(** X18.  The start date.  [scream_init] takes the year, the month and the day
    out of the int YYYYMMDD that e3sm passes: for a non-negative int the
    three fields it decodes are the only ones, with month and day fields
    below 100 and a non-negative year, that encode that int. *)
Theorem decode_start_ymd_round_trip (start_ymd yy mm dd : Z) :
  (0 <= start_ymd)%Z ->
  ScreamInterface.decode_start_ymd start_ymd = (yy, mm, dd) <->
  (start_ymd = yy * 10000 + mm * 100 + dd /\
   0 <= yy /\ 0 <= mm < 100 /\ 0 <= dd < 100)%Z.
Proof.
  intros Hpos. unfold ScreamInterface.decode_start_ymd. cbv zeta.
  assert (H100 : (0 <= start_ymd / 100)%Z) by (apply Z.div_pos; lia).
  rewrite (Z.rem_mod_nonneg start_ymd 100) by lia.
  rewrite (Z.quot_div_nonneg start_ymd 100) by lia.
  rewrite (Z.rem_mod_nonneg (start_ymd / 100) 100) by lia.
  rewrite (Z.quot_div_nonneg start_ymd 10000) by lia.
  split.
  - intros E. injection E as Ey Em Ed. subst yy mm dd.
    Z.div_mod_to_equations. lia.
  - intros (E & Hy & Hm & Hd). subst start_ymd. f_equal; [f_equal|].
    + Z.div_mod_to_equations. lia.
    + Z.div_mod_to_equations. lia.
    + Z.div_mod_to_equations. lia.
Qed.

(** An instance: the last day of 2021. *)
Lemma decode_start_ymd_round_trip_witness :
  (0 <= 20211231)%Z /\
  (ScreamInterface.decode_start_ymd 20211231 = (2021, 12, 31)%Z <->
   (20211231 = 2021 * 10000 + 12 * 100 + 31 /\
    0 <= 2021 /\ 0 <= 12 < 100 /\ 0 <= 31 < 100)%Z).
Proof.
  split; [lia|].
  apply (decode_start_ymd_round_trip 20211231 2021 12 31). lia.
Defined.

(** ** column_scan on its two paths *)

Section ColumnScan.
Context {T : Type} {AT : Arith T}.
Variable VECTOR_SIZE : nat.
Variable OnGpu : bool.
Hypothesis VECTOR_SIZE_pos : 0 < VECTOR_SIZE.
Hypothesis gpu_vector_size : OnGpu = true -> VECTOR_SIZE = 1.
Hypothesis add_0_r : forall x : T, (x + rlit 0)%A = x.
Hypothesis add_0_l : forall x : T, (rlit 0 + x)%A = x.
Hypothesis add_comm : forall a b : T, (a + b)%A = (b + a)%A.

(** X19.  The backward inclusive scan.  Over a column of [n + 1] levels,
    [column_scan<false,true>] leaves at level [k] the initial value plus
    the inputs of the levels [n], ..., [k], added from the bottom upward,
    on the host and on the device path alike, and it leaves every entry
    past the column as it was.  (The host scan adds a literal zero to the
    running integral at each pack, the device scan adds the initial value
    to the first input: hence the laws of the addition.) *)
Theorem column_scan_backward_inclusive_levels (n : nat) (input sum : @View T) (s0 : T) :
  let out := ColumnOps.column_scan_impl VECTOR_SIZE OnGpu false true (S n) input sum s0 in
  ColumnOps.level VECTOR_SIZE out n = (s0 + ColumnOps.level VECTOR_SIZE input n)%A /\
  (forall k, k < n ->
     ColumnOps.level VECTOR_SIZE out k =
       (ColumnOps.level VECTOR_SIZE out (k + 1) + ColumnOps.level VECTOR_SIZE input k)%A) /\
  (forall k, n < k -> ColumnOps.level VECTOR_SIZE out k = ColumnOps.level VECTOR_SIZE sum k).
Proof.
  intros out. subst out.
  destruct (column_scan_backward_inclusive VECTOR_SIZE OnGpu VECTOR_SIZE_pos gpu_vector_size
              add_0_r add_0_l add_comm n input sum s0) as (Hlev & Hframe).
  split; [|split].
  - rewrite Hlev by lia. replace (S n - n) with 1 by lia. cbn [suffix_sum].
    replace (S n - 1) with n by lia. reflexivity.
  - intros k Hk. rewrite !Hlev by lia. apply suffix_sum_step. lia.
  - exact Hframe.
Qed.

(** X20.  The forward exclusive scan.  Over a column of [n + 1] levels,
    [column_scan<true,false>] leaves at every level [k >= 1] the initial
    value plus the inputs of the levels [0], ..., [k - 1], on both paths.
    Level 0 is where the two paths part: the host scan writes the initial
    value there, the device scan leaves the entry as it was. *)
Theorem column_scan_forward_exclusive_levels (n : nat) (input sum : @View T) (s0 : T) :
  let out := ColumnOps.column_scan_impl VECTOR_SIZE OnGpu true false (S n) input sum s0 in
  (forall k, 1 <= k <= n ->
     ColumnOps.level VECTOR_SIZE out k =
       prefix_sum s0 (ColumnOps.level VECTOR_SIZE input) k) /\
  ColumnOps.level VECTOR_SIZE out 0 =
    if OnGpu then ColumnOps.level VECTOR_SIZE sum 0 else s0.
Proof.
  intros out. subst out. unfold ColumnOps.column_scan_impl. destruct OnGpu.
  - rewrite (gpu_vector_size eq_refl).
    destruct (column_scan_gpu_forward_exclusive 1 Nat.lt_0_1 add_0_l add_comm
                n input sum s0) as (H0 & Hpos).
    split.
    + intros k Hk. unfold ColumnOps.level at 1. rewrite Nat.div_1_r, Nat.mod_1_r.
      rewrite Hpos by exact Hk. clear. induction k as [|j IH]; [reflexivity|].
      cbn [prefix_sum]. rewrite IH. unfold ColumnOps.level.
      rewrite Nat.div_1_r, Nat.mod_1_r. reflexivity.
    + unfold ColumnOps.level. rewrite Nat.div_1_r, Nat.mod_1_r, H0. reflexivity.
  - split.
    + intros k Hk.
      apply (column_scan_host_forward_exclusive VECTOR_SIZE VECTOR_SIZE_pos add_0_r). lia.
    + rewrite (column_scan_host_forward_exclusive VECTOR_SIZE VECTOR_SIZE_pos add_0_r) by lia.
      reflexivity.
Qed.
End ColumnScan.

(** Instances: a column of three levels, backward on the host in packs of
    two, forward on the device in packs of one. *)
Lemma column_scan_backward_inclusive_levels_witness :
  0 < 2 /\ (false = true -> 2 = 1) /\
  (forall x : Qc, (x + rlit 0)%A = x) /\
  (forall x : Qc, (rlit 0 + x)%A = x) /\
  (forall a b : Qc, (a + b)%A = (b + a)%A) /\
  (let out := ColumnOps.column_scan_impl 2 false false true 3
                (Examples.view_of 2 [1; 2; 4]%Q) Examples.unit_weights (Q2Qc 100) in
   ColumnOps.level 2 out 2 =
     (Q2Qc 100 + ColumnOps.level 2 (Examples.view_of 2 [1; 2; 4]%Q) 2)%A /\
   (forall k, k < 2 ->
      ColumnOps.level 2 out k =
        (ColumnOps.level 2 out (k + 1)
         + ColumnOps.level 2 (Examples.view_of 2 [1; 2; 4]%Q) k)%A) /\
   (forall k, 2 < k -> ColumnOps.level 2 out k = ColumnOps.level 2 Examples.unit_weights k)).
Proof.
  split; [lia|]. split; [intro H; discriminate H|].
  split; [exact Qcplus_0_r|]. split; [exact Qcplus_0_l|]. split; [exact Qcplus_comm|].
  apply (column_scan_backward_inclusive_levels (T:=Qc) 2 false ltac:(lia)
           ltac:(intro H; discriminate H) Qcplus_0_r Qcplus_0_l Qcplus_comm 2).
Defined.

Lemma column_scan_forward_exclusive_levels_witness :
  0 < 1 /\ (true = true -> 1 = 1) /\
  (forall x : Qc, (x + rlit 0)%A = x) /\
  (forall x : Qc, (rlit 0 + x)%A = x) /\
  (forall a b : Qc, (a + b)%A = (b + a)%A) /\
  (let out := ColumnOps.column_scan_impl 1 true true false 3
                (Examples.view_of 1 [1; 2; 4]%Q) Examples.unit_weights (Q2Qc 100) in
   (forall k, 1 <= k <= 2 ->
      ColumnOps.level 1 out k =
        prefix_sum (Q2Qc 100) (ColumnOps.level 1 (Examples.view_of 1 [1; 2; 4]%Q)) k) /\
   ColumnOps.level 1 out 0 =
     if true then ColumnOps.level 1 Examples.unit_weights 0 else Q2Qc 100).
Proof.
  split; [lia|]. split; [intros _; reflexivity|].
  split; [exact Qcplus_0_r|]. split; [exact Qcplus_0_l|]. split; [exact Qcplus_comm|].
  apply (column_scan_forward_exclusive_levels (T:=Qc) 1 true ltac:(lia)
           ltac:(intros _; reflexivity) Qcplus_0_r Qcplus_0_l Qcplus_comm 2).
Defined.
